(** * The MediaWiki token sanitizer (lib/TokenSanitizer.js), embedded in Rocq

    The development follows the JavaScript sources file by file:

    - ECMAScript strings, values and the built-ins the sanitizer calls;
    - a backtracking matcher for the regular expressions of the sources
      (every pattern below is transcribed from its literal);
    - [lib/utils/Util.js]: phpURLEncode, validateCodepoint, lookup, isHTMLTag;
    - [lib/parser.defines.js]: KV, the token classes and their shadow
      (round-trip) bookkeeping;
    - [lib/TokenSanitizer.js]: SanitizerConstants and the TokenSanitizer class.

    Conventions.  A JavaScript string is the list of its UTF-16 code units,
    each a [Z].  A function that can raise returns a [result].  Objects that
    the code mutates (the token, the whitelist cache) are passed in and
    returned explicitly.

    Scope of the token model: attribute keys and values are strings, as the
    SAX driver (lib/DOMSanitizer.js, through setAttributes) and the test build
    them.  The [Array.isArray] branches of sanitizeTagAttrs, which flatten
    nested token sequences with Util.tokensToString before anything else
    happens, and its replacement of a falsy value by the empty string are the
    identity on such attributes. *)

From Stdlib Require Import List ZArith Bool Lia.
From Stdlib Require String Ascii.
Import ListNotations String.StringSyntax.
Delimit Scope string_scope with string.
Open Scope Z_scope.

(* ================================================================== *)
(** * ECMAScript strings and values *)

(** A string: its UTF-16 code units. *)
Definition jsstring := list Z.

(** [js "abc"] is the string literal ['abc'] (code units below 256). *)
Definition js (s : String.string) : jsstring :=
  map (fun a => Z.of_N (Ascii.N_of_ascii a)) (String.list_ascii_of_string s).
Arguments js s%_string.

(** [===] on strings. *)
Fixpoint streq (s t : jsstring) : bool :=
  match s, t with
  | [], [] => true
  | x :: s', y :: t' => (x =? y) && streq s' t'
  | _, _ => false
  end.

(** The values the sanitizer stores in shadow maps and proposals:
    [undefined], [null] or a string. *)
Inductive jsval :=
| VUndefined
| VNull
| VStr (s : jsstring).

(** [===] on such values. *)
Definition strict_eq (x y : jsval) : bool :=
  match x, y with
  | VUndefined, VUndefined => true
  | VNull, VNull => true
  | VStr s, VStr t => streq s t
  | _, _ => false
  end.

(** A string or [null]. *)
Definition of_nullable (o : option jsstring) : jsval :=
  match o with Some s => VStr s | None => VNull end.

(** The string a value is coerced to when a RegExp method receives it. *)
Definition ToString (x : jsval) : jsstring :=
  match x with
  | VUndefined => js "undefined"
  | VNull => js "null"
  | VStr s => s
  end.

(** Exceptions. *)
Inductive JSError :=
| TypeError
| RangeError
| URIError
| Error (message : jsstring).

(** The outcome of a call: a value, or an exception that propagates. *)
Inductive result (A : Type) :=
| Ok (a : A)
| Throw (e : JSError).
Arguments Ok {A} a.
Arguments Throw {A} e.

Definition bind {A B : Type} (m : result A) (f : A -> result B) : result B :=
  match m with
  | Ok a => f a
  | Throw e => Throw e
  end.

Notation "x <- m ;; k" := (bind m (fun x => k))
  (at level 61, m at next level, right associativity).

(** Left-to-right evaluation of a list of calls; the first exception wins. *)
Fixpoint mapM {A B : Type} (f : A -> result B) (l : list A) : result (list B) :=
  match l with
  | [] => Ok []
  | a :: l' => b <- f a ;; bs <- mapM f l' ;; Ok (b :: bs)
  end.

(** ** Plain objects used as maps

    An object literal [{}] keeps its own properties in creation order and
    inherits the members of [Object.prototype]. *)

Definition obj (V : Type) := list (jsstring * V).

Fixpoint obj_get {V : Type} (o : obj V) (key : jsstring) : option V :=
  match o with
  | [] => None
  | (k, v) :: o' => if streq k key then Some v else obj_get o' key
  end.

(** Names every object literal inherits (V8, the engine the module is
    written for: it reads [process.version]). *)
Definition objectPrototypeMembers : list jsstring :=
  [ js "constructor"; js "hasOwnProperty"; js "isPrototypeOf";
    js "propertyIsEnumerable"; js "toLocaleString"; js "toString";
    js "valueOf"; js "__defineGetter__"; js "__defineSetter__";
    js "__lookupGetter__"; js "__lookupSetter__"; js "__proto__" ].

Definition isInherited (key : jsstring) : bool :=
  existsb (streq key) objectPrototypeMembers.

(** What [o[key]] evaluates to. *)
Inductive property (V : Type) :=
| Own (v : V)
| Inherited
| Absent.
Arguments Own {V} v.
Arguments Inherited {V}.
Arguments Absent {V}.

Definition obj_lookup {V : Type} (o : obj V) (key : jsstring) : property V :=
  match obj_get o key with
  | Some v => Own v
  | None => if isInherited key then Inherited else Absent
  end.

(** The text of an inherited member when it is concatenated into a string:
    [Function.prototype.toString] of a native function, and
    ['[object Object]'] for [__proto__], which is [Object.prototype]. *)
Definition inheritedToString (key : jsstring) : jsstring :=
  if streq key (js "__proto__") then js "[object Object]"
  else js "function " ++
       (if streq key (js "constructor") then js "Object" else key) ++
       js "() { [native code] }".

Fixpoint obj_update {V : Type} (key : jsstring) (v : V) (o : obj V) : obj V :=
  match o with
  | [] => [(key, v)]
  | (k, w) :: o' => if streq k key then (k, v) :: o' else (k, w) :: obj_update key v o'
  end.

(** [o[key] = v].  Assigning to [__proto__] goes to the inherited setter and
    never creates an own property. *)
Definition obj_set {V : Type} (key : jsstring) (v : V) (o : obj V) : obj V :=
  if streq key (js "__proto__") then o else obj_update key v o.

(** ** Number conversions *)

Definition decDigit (c : Z) : option Z :=
  if (48 <=? c) && (c <=? 57) then Some (c - 48) else None.

Definition hexDigit (c : Z) : option Z :=
  if (48 <=? c) && (c <=? 57) then Some (c - 48)
  else if (65 <=? c) && (c <=? 70) then Some (c - 55)
  else if (97 <=? c) && (c <=? 102) then Some (c - 87)
  else None.

Fixpoint parseDigits (digit : Z -> option Z) (radix acc : Z) (s : jsstring) : Z :=
  match s with
  | [] => acc
  | c :: s' =>
      match digit c with
      | Some d => parseDigits digit radix (acc * radix + d) s'
      | None => acc
      end
  end.

(** [parseInt(s, radix)] for [radix] 10 and 16 on a string that carries no
    sign, blank or prefix: the digits up to the first other character;
    [None] is [NaN].  (Beyond 2^53 the engine rounds; every such value stays
    above 0x10FFFF, which is all the callers look at.) *)
Definition parseInt (radix : Z) (s : jsstring) : option Z :=
  let digit := if radix =? 16 then hexDigit else decDigit in
  match s with
  | [] => None
  | c :: _ =>
      match digit c with
      | Some _ => Some (parseDigits digit radix 0 s)
      | None => None
      end
  end.

Definition hexChar (lower : bool) (d : Z) : Z :=
  if d <? 10 then 48 + d else (if lower then 87 else 55) + d.

Fixpoint toHex (fuel : nat) (lower : bool) (n : Z) (acc : jsstring) : jsstring :=
  match fuel with
  | O => acc
  | S fuel' =>
      let acc' := hexChar lower (n mod 16) :: acc in
      if n / 16 =? 0 then acc' else toHex fuel' lower (n / 16) acc'
  end.

(** [n.toString(16)] for a code unit. *)
Definition toString16 (n : Z) : jsstring := toHex 8 true n [].

(** [String.fromCodePoint(cp)]. *)
Definition fromCodePoint (cp : Z) : result jsstring :=
  if (cp <? 0) || (1114111 <? cp) then Throw RangeError
  else if cp <? 65536 then Ok [cp]
  else Ok [55296 + (cp - 65536) / 1024; 56320 + (cp - 65536) mod 1024].

Definition isHighSurrogate (c : Z) : bool := (55296 <=? c) && (c <=? 56319).
Definition isLowSurrogate (c : Z) : bool := (56320 <=? c) && (c <=? 57343).

(** [s.codePointAt(0)]; [None] is [undefined]. *)
Definition codePointAt0 (s : jsstring) : option Z :=
  match s with
  | [] => None
  | c :: s' =>
      if isHighSurrogate c then
        match s' with
        | d :: _ =>
            if isLowSurrogate d then Some (65536 + (c - 55296) * 1024 + (d - 56320))
            else Some c
        | [] => Some c
        end
      else Some c
  end.

(** ** String methods *)

Fixpoint startsWith (p s : jsstring) : bool :=
  match p, s with
  | [], _ => true
  | x :: p', y :: s' => (x =? y) && startsWith p' s'
  | _ :: _, [] => false
  end.

(** [s.indexOf(p)]; [None] is [-1]. *)
Fixpoint indexOf (p s : jsstring) : option nat :=
  if startsWith p s then Some O
  else match s with
       | [] => None
       | _ :: s' => option_map S (indexOf p s')
       end.

(** [s.substring(a, b)]: both ends clamped to the string, swapped if needed. *)
Definition substring (a b : Z) (s : jsstring) : jsstring :=
  let len := Z.of_nat (length s) in
  let a' := Z.min (Z.max a 0) len in
  let b' := Z.min (Z.max b 0) len in
  let lo := Z.min a' b' in
  let hi := Z.max a' b' in
  firstn (Z.to_nat (hi - lo)) (skipn (Z.to_nat lo) s).

(** WhiteSpace and LineTerminator code units: what [trim] strips and what
    [\s] matches. *)
Definition whiteSpaceRanges : list (Z * Z) :=
  [ (9, 13); (32, 32); (160, 160); (5760, 5760); (8192, 8202); (8232, 8233);
    (8239, 8239); (8287, 8287); (12288, 12288); (65279, 65279) ].

Definition inRanges (cs : list (Z * Z)) (c : Z) : bool :=
  existsb (fun r => (fst r <=? c) && (c <=? snd r)) cs.

Fixpoint trimStart (s : jsstring) : jsstring :=
  match s with
  | c :: s' => if inRanges whiteSpaceRanges c then trimStart s' else s
  | [] => []
  end.

Definition trim (s : jsstring) : jsstring :=
  rev (trimStart (rev (trimStart s))).

(** ** encodeURIComponent *)

(** uriUnreserved: letters, digits and [- _ . ! ~ * ' ( )]. *)
Definition uriUnreserved (c : Z) : bool :=
  inRanges [ (65, 90); (97, 122); (48, 57); (45, 46); (95, 95); (33, 33);
             (126, 126); (42, 42); (39, 41) ] c.

Definition utf8 (cp : Z) : list Z :=
  if cp <? 128 then [cp]
  else if cp <? 2048 then [192 + cp / 64; 128 + cp mod 64]
  else if cp <? 65536 then
    [224 + cp / 4096; 128 + (cp / 64) mod 64; 128 + cp mod 64]
  else
    [240 + cp / 262144; 128 + (cp / 4096) mod 64; 128 + (cp / 64) mod 64;
     128 + cp mod 64].

Definition percent (bytes : list Z) : jsstring :=
  flat_map (fun b => [37; hexChar false (b / 16); hexChar false (b mod 16)]) bytes.

(** Unreserved code units stay; every other code point is written as the
    percent-escapes of its UTF-8 bytes; a lone surrogate raises URIError. *)
Fixpoint encodeURIComponent (s : jsstring) : result jsstring :=
  match s with
  | [] => Ok []
  | c :: s' =>
      if uriUnreserved c then
        r <- encodeURIComponent s' ;; Ok (c :: r)
      else if isLowSurrogate c then Throw URIError
      else if isHighSurrogate c then
        match s' with
        | d :: s'' =>
            if isLowSurrogate d then
              r <- encodeURIComponent s'' ;;
              Ok (percent (utf8 (65536 + (c - 55296) * 1024 + (d - 56320))) ++ r)
            else Throw URIError
        | [] => Throw URIError
        end
      else
        r <- encodeURIComponent s' ;; Ok (percent (utf8 c) ++ r)
  end.

(* ================================================================== *)
(** * Regular expressions

    The patterns of the sources are kept as syntax trees and run by a
    backtracking matcher in continuation-passing style, which tries the
    alternatives in the order ECMAScript prescribes (left alternative first,
    greedy quantifiers longest first, lazy ones shortest first). *)

Definition charset := list (Z * Z).

Inductive regex :=
| Eps                                   (* the empty pattern *)
| Chr (c : Z)                           (* one literal code unit *)
| Cls (negated : bool) (cs : charset)   (* [...] and [^...] *)
| Seq (r1 r2 : regex)
| Alt (r1 r2 : regex)                   (* r1|r2 *)
| Rep (min : nat) (max : option nat) (greedy : bool) (r : regex)
| Grp (n : nat) (r : regex)             (* the n-th capturing group *)
| Bol                                   (* ^ (no m flag) *)
| Eol                                   (* $ (no m flag) *)
| Look (positive : bool) (r : regex).   (* (?=r) and (?!r) *)

(** A position of the matcher: the index in the subject, what is left of it,
    and the groups captured so far (the latest first). *)
Record mstate := MState {
  pos : nat;
  rest : jsstring;
  caps : list (nat * jsstring)
}.

(** The other case of an ASCII letter; any other code unit is unchanged.
    Without the u flag Canonicalize never folds a code unit above 127 onto
    one below, and the patterns that carry the i flag here consist of ASCII
    characters and of characters that have no case variant, so that for them
    folding is this one. *)
Definition swapCase (c : Z) : Z :=
  if (65 <=? c) && (c <=? 90) then c + 32
  else if (97 <=? c) && (c <=? 122) then c - 32
  else c.

Definition chrMatches (ignoreCase : bool) (c x : Z) : bool :=
  (c =? x) || (ignoreCase && (c =? swapCase x)).

Definition clsMatches (ignoreCase negated : bool) (cs : charset) (x : Z) : bool :=
  xorb negated (inRanges cs x || (ignoreCase && inRanges cs (swapCase x))).

Definition belowMax (i : nat) (max : option nat) : bool :=
  match max with
  | None => true
  | Some m => Nat.ltb i m
  end.

Definition advance (st : mstate) (s' : jsstring) : mstate :=
  MState (S (pos st)) s' (caps st).

Definition orElse {A : Type} (x : option A) (y : unit -> option A) : option A :=
  match x with
  | Some a => Some a
  | None => y tt
  end.

(** [rmatch ic r st k]: match [r] at [st], then continue with [k]; the result
    is the final position of the first successful way through, if any.

    A quantifier gives up an iteration that consumed nothing once its minimum
    is reached (RepeatMatcher, step 2.b); its loop therefore ends within
    [min + length rest + 1] rounds. *)
Fixpoint rmatch (ic : bool) (r : regex) (st : mstate)
    (k : mstate -> option mstate) {struct r} : option mstate :=
  match r with
  | Eps => k st
  | Chr c =>
      match rest st with
      | x :: s' => if chrMatches ic c x then k (advance st s') else None
      | [] => None
      end
  | Cls negated cs =>
      match rest st with
      | x :: s' => if clsMatches ic negated cs x then k (advance st s') else None
      | [] => None
      end
  | Seq r1 r2 => rmatch ic r1 st (fun st1 => rmatch ic r2 st1 k)
  | Alt r1 r2 => orElse (rmatch ic r1 st k) (fun _ => rmatch ic r2 st k)
  | Rep min max greedy r1 =>
      (fix loop (rounds : nat) (i : nat) (st : mstate) {struct rounds}
         : option mstate :=
         match rounds with
         | O => None
         | S rounds' =>
             let more := fun _ : unit =>
               if belowMax i max then
                 rmatch ic r1 st (fun st' =>
                   if Nat.leb min i &&
                      Nat.eqb (length (rest st')) (length (rest st))
                   then None
                   else loop rounds' (S i) st')
               else None in
             let stop := fun _ : unit =>
               if Nat.leb min i then k st else None in
             if greedy then orElse (more tt) stop else orElse (stop tt) more
         end) (min + length (rest st) + 1)%nat O st
  | Grp n r1 =>
      rmatch ic r1 st (fun st' =>
        k (MState (pos st') (rest st')
             ((n, firstn (pos st' - pos st) (rest st)) :: caps st')))
  | Bol => if Nat.eqb (pos st) O then k st else None
  | Eol => match rest st with [] => k st | _ :: _ => None end
  | Look positive r1 =>
      match rmatch ic r1 st (fun st' => Some st') with
      | Some st' => if positive then k (MState (pos st) (rest st) (caps st')) else None
      | None => if positive then None else k st
      end
  end.

(** A compiled pattern with its flags. *)
Record RegExp := mkRegExp {
  source : regex;
  ignoreCase : bool;
  global : bool
}.

(** One match: where it starts, its text, and its groups. *)
Record matchResult := Match {
  index : nat;
  matched : jsstring;
  groups : list (nat * jsstring)
}.

(** The match that starts exactly at position [p], where [s] is left. *)
Definition matchAt (re : RegExp) (p : nat) (s : jsstring) : option matchResult :=
  match rmatch (ignoreCase re) (source re) (MState p s []) (fun st => Some st) with
  | Some st => Some (Match p (firstn (pos st - p) s) (caps st))
  | None => None
  end.

(** The leftmost match at or after position [p]. *)
Fixpoint searchFrom (re : RegExp) (p : nat) (s : jsstring) : option matchResult :=
  match matchAt re p s with
  | Some m => Some m
  | None =>
      match s with
      | [] => None
      | _ :: s' => searchFrom re (S p) s'
      end
  end.

(** [re.exec(s)] for a pattern without the g flag (and [s.match(re)]). *)
Definition exec (re : RegExp) (s : jsstring) : option matchResult :=
  searchFrom re O s.

(** [re.test(s)], same patterns. *)
Definition test (re : RegExp) (s : jsstring) : bool :=
  match exec re s with Some _ => true | None => false end.

(** Group [n] of a match; [None] is [undefined]. *)
Fixpoint group (n : nat) (gs : list (nat * jsstring)) : option jsstring :=
  match gs with
  | [] => None
  | (i, s) :: gs' => if Nat.eqb i n then Some s else group n gs'
  end.

(** ** String.prototype.replace and match *)

(** The subject cut into the code units that stay and the matches. *)
Inductive piece :=
| Keep (c : Z)
| Hit (m : matchResult).

(** All matches, left to right, of a pattern with the g flag.  [skip] code
    units still belong to the previous match.  After an empty match the
    search resumes one code unit further. *)
Fixpoint scanAll (re : RegExp) (p skip : nat) (s : jsstring) : list piece :=
  match skip with
  | S skip' =>
      match s with
      | [] => []
      | _ :: s' => scanAll re (S p) skip' s'
      end
  | O =>
      match matchAt re p s with
      | Some m =>
          Hit m ::
          match s with
          | [] => []
          | c :: s' =>
              match length (matched m) with
              | O => Keep c :: scanAll re (S p) O s'
              | S n => scanAll re (S p) n s'
              end
          end
      | None =>
          match s with
          | [] => []
          | c :: s' => Keep c :: scanAll re (S p) O s'
          end
      end
  end.

(** The first match only, for a pattern without the g flag. *)
Definition scanFirst (re : RegExp) (s : jsstring) : list piece :=
  match exec re s with
  | Some m =>
      map Keep (firstn (index m) s) ++ Hit m ::
      map Keep (skipn (index m + length (matched m)) s)
  | None => map Keep s
  end.

Definition scan (re : RegExp) (s : jsstring) : list piece :=
  if global re then scanAll re O O s else scanFirst re s.

(** [s.replace(re, f)] with a replacer function [f], which may raise. *)
Definition replaceWith (re : RegExp) (f : matchResult -> result jsstring)
    (s : jsstring) : result jsstring :=
  parts <- mapM (fun p => match p with
                          | Keep c => Ok [c]
                          | Hit m => f m
                          end) (scan re s) ;;
  Ok (concat parts).

(** [s.replace(re, f)] with a replacer that cannot raise. *)
Definition replaceFn (re : RegExp) (f : matchResult -> jsstring)
    (s : jsstring) : jsstring :=
  flat_map (fun p => match p with
                     | Keep c => [c]
                     | Hit m => f m
                     end) (scan re s).

(** [s.replace(re, t)] with a replacement text free of [$]. *)
Definition replace (re : RegExp) (t : jsstring) (s : jsstring) : jsstring :=
  replaceFn re (fun _ => t) s.

(** [(s.match(re) || []).length] for a pattern with the g flag. *)
Definition countMatches (re : RegExp) (s : jsstring) : nat :=
  length (filter (fun p => match p with Hit _ => true | Keep _ => false end)
                      (scanAll re O O s)).

(** ** Pattern syntax *)

Fixpoint lit (s : jsstring) : regex :=
  match s with
  | [] => Eps
  | [c] => Chr c
  | c :: s' => Seq (Chr c) (lit s')
  end.

(** A literal run of ASCII characters. *)
Definition Lit (s : String.string) : regex := lit (js s).
Arguments Lit s%_string.

Fixpoint seqs (rs : list regex) : regex :=
  match rs with
  | [] => Eps
  | [r] => r
  | r :: rs' => Seq r (seqs rs')
  end.

Fixpoint alts (rs : list regex) : regex :=
  match rs with
  | [] => Eps
  | [r] => r
  | r :: rs' => Alt r (alts rs')
  end.

Definition Star (r : regex) : regex := Rep 0 None true r.          (* r* *)
Definition Plus (r : regex) : regex := Rep 1 None true r.          (* r+ *)
Definition Opt (r : regex) : regex := Rep 0 (Some 1%nat) true r.   (* r? *)
Definition StarLazy (r : regex) : regex := Rep 0 None false r.     (* r*? *)
Definition PlusLazy (r : regex) : regex := Rep 1 None false r.     (* r+? *)

(** [.]: anything but a line terminator. *)
Definition Dot : regex := Cls true [ (10, 10); (13, 13); (8232, 8233) ].
(** [\s], [\d], [\w] as class members. *)
Definition cs_s : charset := whiteSpaceRanges.
Definition cs_d : charset := [ (48, 57) ].
Definition cs_w : charset := [ (48, 57); (65, 90); (95, 95); (97, 122) ].
(** One code unit as a class member. *)
Definition c1 (c : Z) : Z * Z := (c, c).

(* ================================================================== *)
(** * lib/utils/Util.js *)

(** The single-character patterns of phpURLEncode, [/!/g] and the like. *)
Definition reChar (c : Z) : RegExp := mkRegExp (Chr c) false true.

(** phpURLEncode: encodeURIComponent, then the characters it leaves alone
    that PHP's urlencode escapes, then [%20] to [+]. *)
Definition phpURLEncode (txt : jsstring) : result jsstring :=
  e <- encodeURIComponent txt ;;
  Ok (replace (mkRegExp (Lit "%20") false true) (js "+")
     (replace (reChar 126) (js "%7E")
     (replace (reChar 42) (js "%2A")
     (replace (reChar 41) (js "%29")
     (replace (reChar 40) (js "%28")
     (replace (reChar 39) (js "%27")
     (replace (reChar 33) (js "%21") e))))))).

(** codepointToUtf8: [String.fromCodePoint(cp)]. *)
Definition codepointToUtf8 (cp : Z) : result jsstring := fromCodePoint cp.

(** utf8ToCodepoint: [str.codePointAt(0)]. *)
Definition utf8ToCodepoint (str : jsstring) : option Z := codePointAt0 str.

(** validateCodepoint: is [cp] a valid character in XML. *)
Definition validateCodepoint (cp : Z) : bool :=
  (cp =? 9) || (cp =? 10) || (cp =? 13) ||
  ((32 <=? cp) && (cp <=? 55295)) ||
  ((57344 <=? cp) && (cp <=? 65533)) ||
  ((65536 <=? cp) && (cp <=? 1114111)).

(* ================================================================== *)
(** * lib/parser.defines.js *)

(** KV, with the source texts [ksrc] and [vsrc] the tokenizer may attach. *)
Record KV := mkKV {
  k : jsstring;
  v : jsstring;
  ksrc : option jsstring;
  vsrc : option jsstring
}.

(** [new KV(name, value)]. *)
Definition newKV (name value : jsstring) : KV := mkKV name value None None.

(** The data-parsoid object of a token: [tsr] the source range, [stx] the
    syntax hint, [a] the normalized values and [sa] the original (shadow)
    values of attributes. *)
Record DataAttribs := mkDataAttribs {
  tsr : option (Z * Z);
  stx : option jsstring;
  a : option (obj jsval);
  sa : option (obj jsval)
}.

(** [{}]. *)
Definition noDataAttribs : DataAttribs := mkDataAttribs None None None None.

(** The three tag classes ([token.constructor.name]). *)
Inductive TagClass :=
| TagTk
| EndTagTk
| SelfclosingTagTk.

Record TagToken := mkTag {
  constructorName : TagClass;
  name : jsstring;
  attribs : list KV;
  dataAttribs : DataAttribs
}.

Inductive Token :=
| Tag (t : TagToken)
| CommentTk (value : jsstring)
| NlTk
| EOFTk.

(** Util.lookupKV: the first pair whose trimmed key is [key]. *)
Fixpoint lookupKV (kvs : list KV) (key : jsstring) : option KV :=
  match kvs with
  | [] => None
  | kv :: kvs' => if streq (trim (k kv)) key then Some kv else lookupKV kvs' key
  end.

(** Util.lookup: its value, or [null]. *)
Definition lookup (kvs : list KV) (key : jsstring) : option jsstring :=
  match lookupKV kvs key with
  | Some kv => Some (v kv)
  | None => None
  end.

(** Util.isHTMLTag. *)
Definition isHTMLTag (token : Token) : bool :=
  match token with
  | Tag t =>
      match stx (dataAttribs t) with
      | Some s => streq s (js "html")
      | None => false
      end
  | CommentTk _ | NlTk | EOFTk => false
  end.

Definition addAttribute (nm value : jsstring) (t : TagToken) : TagToken :=
  mkTag (constructorName t) (name t) (attribs t ++ [newKV nm value])
        (dataAttribs t).

Definition getAttribute (t : TagToken) (nm : jsstring) : option jsstring :=
  lookup (attribs t) nm.

Definition orEmpty {V : Type} (o : option (obj V)) : obj V :=
  match o with Some m => m | None => [] end.

(** setShadowInfo: store the original value of an attribute; nothing is
    stored if the value is the same or the original is null. *)
Definition setShadowInfo (nm : jsstring) (value origValue : jsval)
    (t : TagToken) : TagToken :=
  if negb (strict_eq value origValue) && negb (strict_eq origValue VNull) then
    let da := dataAttribs t in
    let a' := obj_set nm value (orEmpty (a da)) in
    let sa' :=
      if negb (strict_eq origValue VUndefined)
      then obj_set nm origValue (orEmpty (sa da))
      else orEmpty (sa da) in
    mkTag (constructorName t) (name t) (attribs t)
          (mkDataAttribs (tsr da) (stx da) (Some a') (Some sa'))
  else t.

Definition addNormalizedAttribute (nm : jsstring) (value : jsstring)
    (origValue : jsval) (t : TagToken) : TagToken :=
  setShadowInfo nm (VStr value) origValue (addAttribute nm value t).

Definition isUndefined (o : option jsval) : bool :=
  match o with
  | None | Some VUndefined => true
  | Some _ => false
  end.

(** The [value] field of what getAttributeShadowInfo returns, which is all
    the sanitizer reads of it.  (It asks for [rel], [href], [src] and
    [poster]; none of them is an inherited member, so that own properties
    decide.) *)
Definition getAttributeShadowInfo (t : TagToken) (nm : jsstring) : jsval :=
  let curVal := of_nullable (lookup (attribs t) nm) in
  match a (dataAttribs t) with
  | None => curVal
  | Some am =>
      if isUndefined (obj_get am nm) then curVal
      else if negb (strict_eq (match obj_get am nm with
                               | Some x => x
                               | None => VUndefined
                               end) curVal) then curVal
      else match sa (dataAttribs t) with
           | None => curVal
           | Some sm =>
               match obj_get sm nm with
               | None | Some VUndefined => curVal
               | Some x => x
               end
           end
  end.

(** The parser environment, as far as getWTSource reads it: [env.page.src]. *)
Record Env := mkEnv {
  page_src : jsstring
}.

(** getWTSource: the wikitext source of a token.  [env] is the argument as
    the caller evaluated it; [undefined] has no [page]. *)
Definition getWTSource (t : TagToken) (env : option Env) : result jsstring :=
  match env with
  | None => Throw TypeError
  | Some e =>
      match tsr (dataAttribs t) with
      | Some (start, stop) => Ok (substring start stop (page_src e))
      | None => Throw TypeError
      end
  end.

(* ================================================================== *)
(** * lib/TokenSanitizer.js: SanitizerConstants *)

Record GlobalConfig := mkConfig {
  allowRdfaAttrs : bool;
  allowMicrodataAttrs : bool;
  html5Mode : bool
}.

Definition globalConfig : GlobalConfig := mkConfig true true true.

(** htmlEntityAliases: two spellings of [rlm], in Hebrew and in Arabic. *)
Definition htmlEntityAliases : obj jsstring :=
  [ ([1512; 1500; 1502], js "rlm"); ([1585; 1604; 1605], js "rlm") ].
Definition htmlEntitiesTable : list (String.string * Z) :=
  [
    ("Aacute", 193); ("aacute", 225); ("Acirc", 194); ("acirc", 226);
    ("acute", 180); ("AElig", 198); ("aelig", 230); ("Agrave", 192);
    ("agrave", 224); ("alefsym", 8501); ("Alpha", 913); ("alpha", 945);
    ("amp", 38); ("and", 8743); ("ang", 8736); ("apos", 39);
    ("Aring", 197); ("aring", 229); ("asymp", 8776); ("Atilde", 195);
    ("atilde", 227); ("Auml", 196); ("auml", 228); ("bdquo", 8222);
    ("Beta", 914); ("beta", 946); ("brvbar", 166); ("bull", 8226);
    ("cap", 8745); ("Ccedil", 199); ("ccedil", 231); ("cedil", 184);
    ("cent", 162); ("Chi", 935); ("chi", 967); ("circ", 710);
    ("clubs", 9827); ("cong", 8773); ("copy", 169); ("crarr", 8629);
    ("cup", 8746); ("curren", 164); ("dagger", 8224); ("Dagger", 8225);
    ("darr", 8595); ("dArr", 8659); ("deg", 176); ("Delta", 916);
    ("delta", 948); ("diams", 9830); ("divide", 247); ("Eacute", 201);
    ("eacute", 233); ("Ecirc", 202); ("ecirc", 234); ("Egrave", 200);
    ("egrave", 232); ("empty", 8709); ("emsp", 8195); ("ensp", 8194);
    ("Epsilon", 917); ("epsilon", 949); ("equiv", 8801); ("Eta", 919);
    ("eta", 951); ("ETH", 208); ("eth", 240); ("Euml", 203);
    ("euml", 235); ("euro", 8364); ("exist", 8707); ("fnof", 402);
    ("forall", 8704); ("frac12", 189); ("frac14", 188); ("frac34", 190);
    ("frasl", 8260); ("Gamma", 915); ("gamma", 947); ("ge", 8805);
    ("gt", 62); ("harr", 8596); ("hArr", 8660); ("hearts", 9829);
    ("hellip", 8230); ("Iacute", 205); ("iacute", 237); ("Icirc", 206);
    ("icirc", 238); ("iexcl", 161); ("Igrave", 204); ("igrave", 236);
    ("image", 8465); ("infin", 8734); ("int", 8747); ("Iota", 921);
    ("iota", 953); ("iquest", 191); ("isin", 8712); ("Iuml", 207);
    ("iuml", 239); ("Kappa", 922); ("kappa", 954); ("Lambda", 923);
    ("lambda", 955); ("lang", 9001); ("laquo", 171); ("larr", 8592);
    ("lArr", 8656); ("lceil", 8968); ("ldquo", 8220); ("le", 8804);
    ("lfloor", 8970); ("lowast", 8727); ("loz", 9674); ("lrm", 8206);
    ("lsaquo", 8249); ("lsquo", 8216); ("lt", 60); ("macr", 175);
    ("mdash", 8212); ("micro", 181); ("middot", 183); ("minus", 8722);
    ("Mu", 924); ("mu", 956); ("nabla", 8711); ("nbsp", 160);
    ("ndash", 8211); ("ne", 8800); ("ni", 8715); ("not", 172);
    ("notin", 8713); ("nsub", 8836); ("Ntilde", 209); ("ntilde", 241);
    ("Nu", 925); ("nu", 957); ("Oacute", 211); ("oacute", 243);
    ("Ocirc", 212); ("ocirc", 244); ("OElig", 338); ("oelig", 339);
    ("Ograve", 210); ("ograve", 242); ("oline", 8254); ("Omega", 937);
    ("omega", 969); ("Omicron", 927); ("omicron", 959); ("oplus", 8853);
    ("or", 8744); ("ordf", 170); ("ordm", 186); ("Oslash", 216);
    ("oslash", 248); ("Otilde", 213); ("otilde", 245); ("otimes", 8855);
    ("Ouml", 214); ("ouml", 246); ("para", 182); ("part", 8706);
    ("permil", 8240); ("perp", 8869); ("Phi", 934); ("phi", 966);
    ("Pi", 928); ("pi", 960); ("piv", 982); ("plusmn", 177);
    ("pound", 163); ("prime", 8242); ("Prime", 8243); ("prod", 8719);
    ("prop", 8733); ("Psi", 936); ("psi", 968); ("quot", 34);
    ("radic", 8730); ("rang", 9002); ("raquo", 187); ("rarr", 8594);
    ("rArr", 8658); ("rceil", 8969); ("rdquo", 8221); ("real", 8476);
    ("reg", 174); ("rfloor", 8971); ("Rho", 929); ("rho", 961);
    ("rlm", 8207); ("rsaquo", 8250); ("rsquo", 8217); ("sbquo", 8218);
    ("Scaron", 352); ("scaron", 353); ("sdot", 8901); ("sect", 167);
    ("shy", 173); ("Sigma", 931); ("sigma", 963); ("sigmaf", 962);
    ("sim", 8764); ("spades", 9824); ("sub", 8834); ("sube", 8838);
    ("sum", 8721); ("sup", 8835); ("sup1", 185); ("sup2", 178);
    ("sup3", 179); ("supe", 8839); ("szlig", 223); ("Tau", 932);
    ("tau", 964); ("there4", 8756); ("Theta", 920); ("theta", 952);
    ("thetasym", 977); ("thinsp", 8201); ("THORN", 222); ("thorn", 254);
    ("tilde", 732); ("times", 215); ("trade", 8482); ("Uacute", 218);
    ("uacute", 250); ("uarr", 8593); ("uArr", 8657); ("Ucirc", 219);
    ("ucirc", 251); ("Ugrave", 217); ("ugrave", 249); ("uml", 168);
    ("upsih", 978); ("Upsilon", 933); ("upsilon", 965); ("Uuml", 220);
    ("uuml", 252); ("weierp", 8472); ("Xi", 926); ("xi", 958);
    ("Yacute", 221); ("yacute", 253); ("yen", 165); ("Yuml", 376);
    ("yuml", 255); ("Zeta", 918); ("zeta", 950); ("zwj", 8205);
    ("zwnj", 8204) ]%string.

(** htmlEntities. *)
Definition htmlEntities : obj Z :=
  map (fun e => (js (fst e), snd e)) htmlEntitiesTable.

(** The text ['\xef\xbf\xbd']: three code units. *)
Definition UTF8_REPLACEMENT : jsstring := [239; 191; 189].

(** [/&([A-Za-z0-9\x80-\xff]+);|&#([0-9]+);|&#[xX]([0-9A-Fa-f]+);|(&)/g] *)
Definition CHAR_REFS_RE_G : RegExp :=
  mkRegExp
    (alts [ seqs [ Chr 38;
                   Grp 1 (Plus (Cls false [ (65, 90); (97, 122); (48, 57);
                                            (128, 255) ]));
                   Chr 59 ];
            seqs [ Lit "&#"; Grp 2 (Plus (Cls false [ (48, 57) ])); Chr 59 ];
            seqs [ Lit "&#"; Cls false [ c1 120; c1 88 ];
                   Grp 3 (Plus (Cls false [ (48, 57); (65, 70); (97, 102) ]));
                   Chr 59 ];
            Grp 4 (Chr 38) ])
    false true.

(** EVIL_URI_RE, with the i flag: group 1 is [^], [\s] or [\*\/] and then
    [\s*]; group 2 is [javascript|vbscript]; group 3 is [[^\w]|$]. *)
Definition EVIL_URI_RE : RegExp :=
  mkRegExp
    (seqs [ Grp 1 (alts [ Bol; Cls false cs_s;
                          Seq (Lit "*/") (Star (Cls false cs_s)) ]);
            Grp 2 (Alt (Lit "javascript") (Lit "vbscript"));
            Grp 3 (Alt (Cls true cs_w) Eol) ])
    true false.

(** [/^xmlns:[:A-Z_a-z-.0-9]+$/] *)
Definition XMLNS_ATTRIBUTE_RE : RegExp :=
  mkRegExp
    (seqs [ Bol; Lit "xmlns:";
            Plus (Cls false [ c1 58; (65, 90); c1 95; (97, 122); c1 45; c1 46;
                              (48, 57) ]);
            Eol ])
    false false.

(** IDN_RE_G: tab and space, then the invisible characters, one alternative
    each, in the order of the source. *)
Definition IDN_RE_G : RegExp :=
  mkRegExp
    (alts [ Cls false [ c1 9; c1 32 ];  (* general whitespace *)
            Chr 173;     (* 00ad SOFT HYPHEN *)
            Chr 6150;    (* 1806 MONGOLIAN TODO SOFT HYPHEN *)
            Chr 8203;    (* 200b ZERO WIDTH SPACE *)
            Chr 8288;    (* 2060 WORD JOINER *)
            Chr 65279;   (* feff ZERO WIDTH NO-BREAK SPACE *)
            Chr 847;     (* 034f COMBINING GRAPHEME JOINER *)
            Chr 6155;    (* 180b MONGOLIAN FREE VARIATION SELECTOR ONE *)
            Chr 6156;    (* 180c MONGOLIAN FREE VARIATION SELECTOR TWO *)
            Chr 6157;    (* 180d MONGOLIAN FREE VARIATION SELECTOR THREE *)
            Chr 8204;    (* 200c ZERO WIDTH NON-JOINER *)
            Chr 8205;    (* 200d ZERO WIDTH JOINER *)
            Cls false [ (65024, 65039) ] ])  (* fe00-fe0f VARIATION SELECTOR-1-16 *)
    false true.

(** computeCSSDecodeRegexp: a backslash, then one of
    1. a line continuation, 2. a character number and an optional blank,
    3. any character, 4. the end of the string.  No g flag. *)
Definition cssDecodeRE : RegExp :=
  let space := Cls false [ c1 32; c1 9; c1 13; c1 10; c1 12 ] in
  let nl := alts [ Chr 10; lit [ 13; 10 ]; Chr 13; Chr 12 ] in
  mkRegExp
    (Seq (Chr 92)
         (alts [ Grp 1 nl;
                 Seq (Grp 2 (Rep 1 (Some 6%nat) true
                               (Cls false [ (48, 57); (65, 70); (97, 102) ])))
                     (Opt space);
                 Grp 3 Dot;
                 Seq (Grp 4 Eps) Eol ]))
    false false.

(** computeAttrWhiteList. *)
Definition computeAttrWhiteList (config : GlobalConfig) : obj (list jsstring) :=
  let common := [ js "id"; js "class"; js "lang"; js "dir"; js "title";
                  js "style" ] in
  (* WAI-ARIA *)
  let common := common ++ [ js "aria-describedby"; js "aria-flowto";
                            js "aria-label"; js "aria-labelledby";
                            js "aria-owns"; js "role" ] in
  (* RDFa attributes *)
  let rdfa := [ js "about"; js "property"; js "resource"; js "datatype";
                js "typeof" ] in
  let common := if allowRdfaAttrs config then common ++ rdfa else common in
  (* Microdata *)
  let mda := [ js "itemid"; js "itemprop"; js "itemref"; js "itemscope";
               js "itemtype" ] in
  let common := if allowMicrodataAttrs config then common ++ mda else common in
  let block := common ++ [ js "align" ] in
  let tablealign := [ js "align"; js "valign" ] in
  let tablecell := [ js "abbr"; js "axis"; js "headers"; js "scope";
                     js "rowspan"; js "colspan";
                     js "nowrap"; js "width"; js "height"; js "bgcolor" ] in
  [ (js "div", block);
    (js "center", common);
    (js "span", common);
    (js "h1", block); (js "h2", block); (js "h3", block);
    (js "h4", block); (js "h5", block); (js "h6", block);
    (js "bdo", common);
    (js "em", common); (js "strong", common); (js "cite", common);
    (js "dfn", common); (js "code", common); (js "samp", common);
    (js "kbd", common); (js "var", common); (js "abbr", common);
    (js "blockquote", common ++ [ js "cite" ]);
    (js "q", common ++ [ js "cite" ]);
    (js "sub", common); (js "sup", common);
    (js "p", block);
    (js "br", common ++ [ js "clear" ]);
    (js "wbr", common);
    (js "pre", common ++ [ js "width" ]);
    (js "ins", common ++ [ js "cite"; js "datetime" ]);
    (js "del", common ++ [ js "cite"; js "datetime" ]);
    (js "ul", common ++ [ js "type" ]);
    (js "ol", common ++ [ js "type"; js "start"; js "reversed" ]);
    (js "li", common ++ [ js "type"; js "value" ]);
    (js "dl", common); (js "dd", common); (js "dt", common);
    (js "table", common ++ [ js "summary"; js "width"; js "border";
                             js "frame"; js "rules"; js "cellspacing";
                             js "cellpadding"; js "align"; js "bgcolor" ]);
    (js "caption", block);
    (js "thead", common); (js "tfoot", common); (js "tbody", common);
    (js "colgroup", common ++ [ js "span" ]);
    (js "col", common ++ [ js "span" ]);
    (js "tr", (common ++ [ js "bgcolor" ]) ++ tablealign);
    (js "td", common ++ tablecell ++ tablealign);
    (js "th", common ++ tablecell ++ tablealign);
    (js "a", common ++ [ js "href"; js "rel"; js "rev" ]);
    (js "img", common ++ [ js "alt"; js "src"; js "width"; js "height";
                           js "srcset" ]);
    (js "audio", common ++ [ js "controls"; js "preload"; js "width";
                             js "height" ]);
    (js "video", common ++ [ js "poster"; js "controls"; js "preload";
                             js "width"; js "height" ]);
    (js "source", common ++ [ js "type"; js "src" ]);
    (js "track", common ++ [ js "type"; js "src"; js "srclang"; js "kind";
                             js "label" ]);
    (js "tt", common); (js "b", common); (js "i", common);
    (js "big", common); (js "small", common); (js "strike", common);
    (js "s", common); (js "u", common);
    (js "font", common ++ [ js "size"; js "color"; js "face" ]);
    (js "hr", common ++ [ js "width" ]);
    (js "ruby", common); (js "rb", common); (js "rp", common);
    (js "rt", common); (js "rtc", common);
    (js "math", [ js "class"; js "style"; js "id"; js "title" ]);
    (js "figure", common); (js "figure-inline", common);
    (js "figcaption", common);
    (js "bdi", common);
    (js "data", common ++ [ js "value" ]);
    (js "time", common ++ [ js "datetime" ]);
    (js "mark", common);
    (js "meta", [ js "itemprop"; js "content" ]);
    (js "link", [ js "itemprop"; js "href"; js "title" ]) ].

(** Tags whose end tags are not accepted. *)
Definition noEndTagSet : list jsstring := [ js "br" ].

(** [new Set(...).has(x)]. *)
Definition setHas (s : list jsstring) (x : jsstring) : bool :=
  existsb (streq x) s.

(* ================================================================== *)
(** * lib/TokenSanitizer.js: module-level helpers *)

(** [arguments[n]] of a replacer, [m[n]] of a match: group [n], or
    [undefined] when it took no part in the match. *)
Definition arg (n : nat) (m : matchResult) : jsval :=
  match group n (groups m) with
  | Some s => VStr s
  | None => VUndefined
  end.

(** Truthiness. *)
Definition truthy (x : jsval) : bool :=
  match x with
  | VStr (_ :: _) => true
  | _ => false
  end.

(** removeMismatchedQuoteChar: if the quote character occurs an odd number
    of times, the last one, when only characters other than quotes and line
    ends follow it, becomes a space. *)
Definition removeMismatchedQuoteChar (str quoteChar : jsstring) : jsstring :=
  let q := if streq quoteChar (js "'") then 39 else 34 in
  let re1 := mkRegExp (Chr q) false true in
  let re2 := mkRegExp (seqs [ Chr q;
                              Grp 1 (Star (Cls true [ c1 q; c1 10; c1 13; c1 12 ]));
                              Eol ]) false false in
  let mismatch := Nat.eqb (Nat.modulo (countMatches re1 str) 2) 1 in
  if mismatch
  then replaceFn re2 (fun m => js " " ++ ToString (arg 1 m)) str
  else str.

(** ieReplace: a Map from one character to its ASCII look-alike. *)
Definition ieReplace : list (Z * jsstring) :=
  [ (640, js "r"); (628, js "n"); (8319, js "n"); (671, js "l");
    (618, js "i"); (8317, js "("); (8333, js "(") ].

Fixpoint ieReplace_get (u : jsstring) (m : list (Z * jsstring)) : option jsstring :=
  match m with
  | [] => None
  | (c, r) :: m' => if streq u [c] then Some r else ieReplace_get u m'
  end.

(** insecureRE, with the i flag: the alternatives [expression],
    [filter\s*:], [accelerator\s*:], [-o-link\s*:], [-o-link-source\s*:],
    [-o-replace\s*:], [url\s*\(], [image\s*\(], [image-set\s*\(] and
    [attr\s*\([^)]+[\s,]+url]. *)
Definition insecureRE : RegExp :=
  let ws := Star (Cls false cs_s) in
  mkRegExp
    (alts [ Lit "expression";
            seqs [ Lit "filter"; ws; Chr 58 ];
            seqs [ Lit "accelerator"; ws; Chr 58 ];
            seqs [ Lit "-o-link"; ws; Chr 58 ];
            seqs [ Lit "-o-link-source"; ws; Chr 58 ];
            seqs [ Lit "-o-replace"; ws; Chr 58 ];
            seqs [ Lit "url"; ws; Chr 40 ];
            seqs [ Lit "image"; ws; Chr 40 ];
            seqs [ Lit "image-set"; ws; Chr 40 ];
            seqs [ Lit "attr"; ws; Chr 40; Plus (Cls true [ c1 41 ]);
                   Plus (Cls false (cs_s ++ [ c1 44 ])); Lit "url" ] ])
    true false.

(** RDFa and microdata properties allow URLs, URIs and/or CURIs. *)
Definition microData : list jsstring :=
  [ js "rel"; js "rev"; js "about"; js "property"; js "resource";
    js "datatype"; js "typeof";
    js "itemid"; js "itemprop"; js "itemref"; js "itemscope"; js "itemtype" ].

(** getAttribsRegex, from [/^[:_\p{L}\p{N}][:_\.\-\p{L}\p{N}]*$/u] as
    transpiled for Unicode 10: a first character, then any number of further
    ones.  A character is a code unit of the BMP class or one of the
    surrogate pairs listed (lead class, trail class). *)
Definition attribStartBMP : charset :=
  [ (48, 58); (65, 90); (95, 95); (97, 122); (170, 170); (178, 178);
    (179, 179); (181, 181); (185, 185); (186, 186); (188, 190); (192, 214);
    (216, 246); (248, 705); (710, 721); (736, 740); (748, 748); (750, 750);
    (880, 884); (886, 886); (887, 887); (890, 893); (895, 895); (902, 902);
    (904, 906); (908, 908); (910, 929); (931, 1013); (1015, 1153);
    (1162, 1327); (1329, 1366); (1369, 1369); (1377, 1415); (1488, 1514);
    (1520, 1522); (1568, 1610); (1632, 1641); (1646, 1646); (1647, 1647);
    (1649, 1747); (1749, 1749); (1765, 1765); (1766, 1766); (1774, 1788);
    (1791, 1791); (1808, 1808); (1810, 1839); (1869, 1957); (1969, 1969);
    (1984, 2026); (2036, 2036); (2037, 2037); (2042, 2042); (2048, 2069);
    (2074, 2074); (2084, 2084); (2088, 2088); (2112, 2136); (2144, 2154);
    (2208, 2228); (2230, 2237); (2308, 2361); (2365, 2365); (2384, 2384);
    (2392, 2401); (2406, 2415); (2417, 2432); (2437, 2444); (2447, 2447);
    (2448, 2448); (2451, 2472); (2474, 2480); (2482, 2482); (2486, 2489);
    (2493, 2493); (2510, 2510); (2524, 2524); (2525, 2525); (2527, 2529);
    (2534, 2545); (2548, 2553); (2556, 2556); (2565, 2570); (2575, 2575);
    (2576, 2576); (2579, 2600); (2602, 2608); (2610, 2610); (2611, 2611);
    (2613, 2613); (2614, 2614); (2616, 2616); (2617, 2617); (2649, 2652);
    (2654, 2654); (2662, 2671); (2674, 2676); (2693, 2701); (2703, 2705);
    (2707, 2728); (2730, 2736); (2738, 2738); (2739, 2739); (2741, 2745);
    (2749, 2749); (2768, 2768); (2784, 2784); (2785, 2785); (2790, 2799);
    (2809, 2809); (2821, 2828); (2831, 2831); (2832, 2832); (2835, 2856);
    (2858, 2864); (2866, 2866); (2867, 2867); (2869, 2873); (2877, 2877);
    (2908, 2908); (2909, 2909); (2911, 2913); (2918, 2927); (2929, 2935);
    (2947, 2947); (2949, 2954); (2958, 2960); (2962, 2965); (2969, 2969);
    (2970, 2970); (2972, 2972); (2974, 2974); (2975, 2975); (2979, 2979);
    (2980, 2980); (2984, 2986); (2990, 3001); (3024, 3024); (3046, 3058);
    (3077, 3084); (3086, 3088); (3090, 3112); (3114, 3129); (3133, 3133);
    (3160, 3162); (3168, 3168); (3169, 3169); (3174, 3183); (3192, 3198);
    (3200, 3200); (3205, 3212); (3214, 3216); (3218, 3240); (3242, 3251);
    (3253, 3257); (3261, 3261); (3294, 3294); (3296, 3296); (3297, 3297);
    (3302, 3311); (3313, 3313); (3314, 3314); (3333, 3340); (3342, 3344);
    (3346, 3386); (3389, 3389); (3406, 3406); (3412, 3414); (3416, 3425);
    (3430, 3448); (3450, 3455); (3461, 3478); (3482, 3505); (3507, 3515);
    (3517, 3517); (3520, 3526); (3558, 3567); (3585, 3632); (3634, 3634);
    (3635, 3635); (3648, 3654); (3664, 3673); (3713, 3713); (3714, 3714);
    (3716, 3716); (3719, 3719); (3720, 3720); (3722, 3722); (3725, 3725);
    (3732, 3735); (3737, 3743); (3745, 3747); (3749, 3749); (3751, 3751);
    (3754, 3754); (3755, 3755); (3757, 3760); (3762, 3762); (3763, 3763);
    (3773, 3773); (3776, 3780); (3782, 3782); (3792, 3801); (3804, 3807);
    (3840, 3840); (3872, 3891); (3904, 3911); (3913, 3948); (3976, 3980);
    (4096, 4138); (4159, 4169); (4176, 4181); (4186, 4189); (4193, 4193);
    (4197, 4197); (4198, 4198); (4206, 4208); (4213, 4225); (4238, 4238);
    (4240, 4249); (4256, 4293); (4295, 4295); (4301, 4301); (4304, 4346);
    (4348, 4680); (4682, 4685); (4688, 4694); (4696, 4696); (4698, 4701);
    (4704, 4744); (4746, 4749); (4752, 4784); (4786, 4789); (4792, 4798);
    (4800, 4800); (4802, 4805); (4808, 4822); (4824, 4880); (4882, 4885);
    (4888, 4954); (4969, 4988); (4992, 5007); (5024, 5109); (5112, 5117);
    (5121, 5740); (5743, 5759); (5761, 5786); (5792, 5866); (5870, 5880);
    (5888, 5900); (5902, 5905); (5920, 5937); (5952, 5969); (5984, 5996);
    (5998, 6000); (6016, 6067); (6103, 6103); (6108, 6108); (6112, 6121);
    (6128, 6137); (6160, 6169); (6176, 6263); (6272, 6276); (6279, 6312);
    (6314, 6314); (6320, 6389); (6400, 6430); (6470, 6509); (6512, 6516);
    (6528, 6571); (6576, 6601); (6608, 6618); (6656, 6678); (6688, 6740);
    (6784, 6793); (6800, 6809); (6823, 6823); (6917, 6963); (6981, 6987);
    (6992, 7001); (7043, 7072); (7086, 7141); (7168, 7203); (7232, 7241);
    (7245, 7293); (7296, 7304); (7401, 7404); (7406, 7409); (7413, 7413);
    (7414, 7414); (7424, 7615); (7680, 7957); (7960, 7965); (7968, 8005);
    (8008, 8013); (8016, 8023); (8025, 8025); (8027, 8027); (8029, 8029);
    (8031, 8061); (8064, 8116); (8118, 8124); (8126, 8126); (8130, 8132);
    (8134, 8140); (8144, 8147); (8150, 8155); (8160, 8172); (8178, 8180);
    (8182, 8188); (8304, 8304); (8305, 8305); (8308, 8313); (8319, 8329);
    (8336, 8348); (8450, 8450); (8455, 8455); (8458, 8467); (8469, 8469);
    (8473, 8477); (8484, 8484); (8486, 8486); (8488, 8488); (8490, 8493);
    (8495, 8505); (8508, 8511); (8517, 8521); (8526, 8526); (8528, 8585);
    (9312, 9371); (9450, 9471); (10102, 10131); (11264, 11310);
    (11312, 11358); (11360, 11492); (11499, 11502); (11506, 11506);
    (11507, 11507); (11517, 11517); (11520, 11557); (11559, 11559);
    (11565, 11565); (11568, 11623); (11631, 11631); (11648, 11670);
    (11680, 11686); (11688, 11694); (11696, 11702); (11704, 11710);
    (11712, 11718); (11720, 11726); (11728, 11734); (11736, 11742);
    (11823, 11823); (12293, 12295); (12321, 12329); (12337, 12341);
    (12344, 12348); (12353, 12438); (12445, 12447); (12449, 12538);
    (12540, 12543); (12549, 12590); (12593, 12686); (12690, 12693);
    (12704, 12730); (12784, 12799); (12832, 12841); (12872, 12879);
    (12881, 12895); (12928, 12937); (12977, 12991); (13312, 19893);
    (19968, 40938); (40960, 42124); (42192, 42237); (42240, 42508);
    (42512, 42539); (42560, 42606); (42623, 42653); (42656, 42735);
    (42775, 42783); (42786, 42888); (42891, 42926); (42928, 42935);
    (42999, 43009); (43011, 43013); (43015, 43018); (43020, 43042);
    (43056, 43061); (43072, 43123); (43138, 43187); (43216, 43225);
    (43250, 43255); (43259, 43259); (43261, 43261); (43264, 43301);
    (43312, 43334); (43360, 43388); (43396, 43442); (43471, 43481);
    (43488, 43492); (43494, 43518); (43520, 43560); (43584, 43586);
    (43588, 43595); (43600, 43609); (43616, 43638); (43642, 43642);
    (43646, 43695); (43697, 43697); (43701, 43701); (43702, 43702);
    (43705, 43709); (43712, 43712); (43714, 43714); (43739, 43741);
    (43744, 43754); (43762, 43764); (43777, 43782); (43785, 43790);
    (43793, 43798); (43808, 43814); (43816, 43822); (43824, 43866);
    (43868, 43877); (43888, 44002); (44016, 44025); (44032, 55203);
    (55216, 55238); (55243, 55291); (63744, 64109); (64112, 64217);
    (64256, 64262); (64275, 64279); (64285, 64285); (64287, 64296);
    (64298, 64310); (64312, 64316); (64318, 64318); (64320, 64320);
    (64321, 64321); (64323, 64323); (64324, 64324); (64326, 64433);
    (64467, 64829); (64848, 64911); (64914, 64967); (65008, 65019);
    (65136, 65140); (65142, 65276); (65296, 65305); (65313, 65338);
    (65345, 65370); (65382, 65470); (65474, 65479); (65482, 65487);
    (65490, 65495); (65498, 65500) ].

Definition attribAstral : list (charset * charset) :=
  [
    ( [ (55296, 55296) ], [ (56320, 56331); (56333, 56358); (56360, 56378);
      (56380, 56380);   (56381, 56381); (56383, 56397); (56400, 56413);
      (56448, 56570);   (56583, 56627); (56640, 56696); (56714, 56714);
      (56715, 56715);   (56960, 56988); (56992, 57040); (57057, 57083);
      (57088, 57123);   (57133, 57162); (57168, 57205); (57216, 57245);
      (57248, 57283);   (57288, 57295); (57297, 57301) ] );
    ( [ (55297, 55297) ], [ (56320, 56477); (56480, 56489); (56496, 56531);
      (56536, 56571);   (56576, 56615); (56624, 56675); (56832, 57142);
      (57152, 57173);   (57184, 57191) ] );
    ( [ (55298, 55298) ], [ (56320, 56325); (56328, 56328); (56330, 56373);
      (56375, 56375);   (56376, 56376); (56380, 56380); (56383, 56405);
      (56408, 56438);   (56441, 56478); (56487, 56495); (56544, 56562);
      (56564, 56564);   (56565, 56565); (56571, 56603); (56608, 56633);
      (56704, 56759);   (56764, 56783); (56786, 56832); (56848, 56851);
      (56853, 56855);   (56857, 56883); (56896, 56903); (56928, 56958);
      (56960, 56991);   (57024, 57031); (57033, 57060); (57067, 57071);
      (57088, 57141);   (57152, 57173); (57176, 57202); (57208, 57233);
      (57257, 57263) ] );
    ( [ (55299, 55299) ], [ (56320, 56392); (56448, 56498); (56512, 56562);
      (56570, 56575);   (56928, 56958) ] );
    ( [ (55300, 55300) ], [ (56323, 56375); (56402, 56431); (56451, 56495);
      (56528, 56552);   (56560, 56569); (56579, 56614); (56630, 56639);
      (56656, 56690);   (56694, 56694); (56707, 56754); (56769, 56772);
      (56784, 56794);   (56796, 56796); (56801, 56820); (56832, 56849);
      (56851, 56875);   (56960, 56966); (56968, 56968); (56970, 56973);
      (56975, 56989);   (56991, 57000); (57008, 57054); (57072, 57081);
      (57093, 57100);   (57103, 57103); (57104, 57104); (57107, 57128);
      (57130, 57136);   (57138, 57138); (57139, 57139); (57141, 57145);
      (57149, 57149);   (57168, 57168); (57181, 57185) ] );
    ( [ (55301, 55301) ], [ (56320, 56372); (56391, 56394); (56400, 56409);
      (56448, 56495);   (56516, 56516); (56517, 56517); (56519, 56519);
      (56528, 56537);   (56704, 56750); (56792, 56795); (56832, 56879);
      (56900, 56900);   (56912, 56921); (56960, 57002); (57024, 57033);
      (57088, 57113);   (57136, 57147) ] );
    ( [ (55302, 55302) ], [ (56480, 56562); (56575, 56575); (56832, 56832);
      (56843, 56882);   (56890, 56890); (56912, 56912); (56924, 56963);
      (56966, 56969);   (57024, 57080) ] );
    ( [ (55303, 55303) ], [ (56320, 56328); (56330, 56366); (56384, 56384);
      (56400, 56428);   (56434, 56463); (56576, 56582); (56584, 56584);
      (56585, 56585);   (56587, 56624); (56646, 56646); (56656, 56665) ] );
    ( [ (55304, 55304) ], [ (56320, 57241) ] );
    ( [ (55305, 55305) ], [ (56320, 56430); (56448, 56643) ] );
    ( [ (55308, 55308); (55324, 55328); (55360, 55400); (55402, 55404);
      (55407, 55410); (55412, 55417) ], [ (56320, 57343) ] );
    ( [ (55309, 55309) ], [ (56320, 56366) ] );
    ( [ (55313, 55313) ], [ (56320, 56902) ] );
    ( [ (55322, 55322) ], [ (56320, 56888); (56896, 56926); (56928, 56937);
      (57040, 57069);   (57088, 57135); (57152, 57155); (57168, 57177);
      (57179, 57185);   (57187, 57207); (57213, 57231) ] );
    ( [ (55323, 55323) ], [ (57088, 57156); (57168, 57168); (57235, 57247);
      (57312, 57312);   (57313, 57313) ] );
    ( [ (55329, 55329) ], [ (56320, 57324) ] );
    ( [ (55330, 55330) ], [ (56320, 57074) ] );
    ( [ (55340, 55340) ], [ (56320, 56606); (56688, 57083) ] );
    ( [ (55343, 55343) ], [ (56320, 56426); (56432, 56444); (56448, 56456);
      (56464, 56473) ] );
    ( [ (55348, 55348) ], [ (57184, 57201) ] );
    ( [ (55349, 55349) ], [ (56320, 56404); (56406, 56476); (56478, 56478);
      (56479, 56479);   (56482, 56482); (56485, 56485); (56486, 56486);
      (56489, 56492);   (56494, 56505); (56507, 56507); (56509, 56515);
      (56517, 56581);   (56583, 56586); (56589, 56596); (56598, 56604);
      (56606, 56633);   (56635, 56638); (56640, 56644); (56646, 56646);
      (56650, 56656);   (56658, 56997); (57000, 57024); (57026, 57050);
      (57052, 57082);   (57084, 57108); (57110, 57140); (57142, 57166);
      (57168, 57198);   (57200, 57224); (57226, 57256); (57258, 57282);
      (57284, 57291);   (57294, 57343) ] );
    ( [ (55354, 55354) ], [ (56320, 56516); (56519, 56527); (56576, 56643);
      (56656, 56665) ] );
    ( [ (55355, 55355) ], [ (56832, 56835); (56837, 56863); (56865, 56865);
      (56866, 56866);   (56868, 56868); (56871, 56871); (56873, 56882);
      (56884, 56887);   (56889, 56889); (56891, 56891); (56898, 56898);
      (56903, 56903);   (56905, 56905); (56907, 56907); (56909, 56911);
      (56913, 56913);   (56914, 56914); (56916, 56916); (56919, 56919);
      (56921, 56921);   (56923, 56923); (56925, 56925); (56927, 56927);
      (56929, 56929);   (56930, 56930); (56932, 56932); (56935, 56938);
      (56940, 56946);   (56948, 56951); (56953, 56956); (56958, 56958);
      (56960, 56969);   (56971, 56987); (56993, 56995); (56997, 57001);
      (57003, 57019) ] );
    ( [ (55356, 55356) ], [ (56576, 56588) ] );
    ( [ (55401, 55401) ], [ (56320, 57046); (57088, 57343) ] );
    ( [ (55405, 55405) ], [ (56320, 57140); (57152, 57343) ] );
    ( [ (55406, 55406) ], [ (56320, 56349); (56352, 57343) ] );
    ( [ (55411, 55411) ], [ (56320, 56993); (57008, 57343) ] );
    ( [ (55418, 55418) ], [ (56320, 57312) ] );
    ( [ (55422, 55422) ], [ (56320, 56861) ] ) ].

Definition attribAstralPairs : list regex :=
  map (fun p => Seq (Cls false (fst p)) (Cls false (snd p))) attribAstral.

(** The class of the further characters is that of the first one with [-]
    and [.] in front; the surrogate pairs are the same. *)
Definition getAttribsRegex : RegExp :=
  mkRegExp
    (seqs [ Bol;
            alts (Cls false attribStartBMP :: attribAstralPairs);
            Star (alts (Cls false (c1 45 :: c1 46 :: attribStartBMP)
                        :: attribAstralPairs));
            Eol ])
    false false.

(* ================================================================== *)
(** * lib/TokenSanitizer.js: the TokenSanitizer class *)

(** What is in the cache or what a tag resolves to: a Set of attribute
    names, or, for a tag named like a member of [Object.prototype], that
    member, which [attrWhiteListCache], created as [{}], inherits. *)
Inductive whitelist :=
| WSet (s : list jsstring)
| WMember (key : jsstring).

(** TokenSanitizer.attrWhiteListCache. *)
Definition awlCache := obj (list jsstring).

(** [wlist.has(k)]; an inherited member has no method [has]. *)
Definition wlistHas (wlist : whitelist) (key : jsstring) : result bool :=
  match wlist with
  | WSet s => Ok (setHas s key)
  | WMember _ => Throw TypeError
  end.

(** The proposal for one attribute: [[newValue, origValue, origKey]]. *)
Definition proposal := (option jsstring * jsval * jsstring)%type.

(** How one round of the loop of sanitizeTagAttrs ends: it goes on with the
    next attribute, or the function returns. *)
Inductive outcome :=
| Continue (newAttrs : obj (option proposal))
| Return (newAttrs : obj (option proposal)).

(** The configuration object passed around as [conf]:
    [conf.wiki.hasValidProtocol]. *)
Record Conf := mkConf {
  hasValidProtocol : jsstring -> bool
}.

(** The receiver of a static call: the class itself, whose property [conf]
    nobody sets ([None] is [undefined]). *)
Record Receiver := mkReceiver {
  this_conf : option Env
}.

Definition TokenSanitizerClass : Receiver := mkReceiver None.

(** [a || b] on strings. *)
Definition orString (x : option jsstring) (y : jsstring) : jsstring :=
  match x with
  | Some (c :: s) => c :: s
  | _ => y
  end.

(** An array index as a property key: a canonical decimal numeral below
    2^32 - 1. *)
Definition arrayIndex (key : jsstring) : option Z :=
  match key with
  | [] => None
  | c :: s =>
      if forallb (fun d => (48 <=? d) && (d <=? 57)) key
         && ((c =? 48) && Nat.eqb (length s) 0 || negb (c =? 48))
         && (parseDigits decDigit 10 0 key <? 4294967295)
      then Some (parseDigits decDigit 10 0 key)
      else None
  end.

Fixpoint insertByIndex {V : Type} (i : Z) (e : jsstring * V)
    (l : list (Z * (jsstring * V))) : list (Z * (jsstring * V)) :=
  match l with
  | [] => [(i, e)]
  | (j, f) :: l' => if i <? j then (i, e) :: l else (j, f) :: insertByIndex i e l'
  end.

Fixpoint indexedEntries {V : Type} (o : obj V) : list (Z * (jsstring * V)) :=
  match o with
  | [] => []
  | (key, x) :: o' =>
      match arrayIndex key with
      | Some i => insertByIndex i (key, x) (indexedEntries o')
      | None => indexedEntries o'
      end
  end.

(** The own properties in the order of [Object.keys]: array indices in
    ascending order, then the other keys in creation order. *)
Definition obj_entries {V : Type} (o : obj V) : list (jsstring * V) :=
  map snd (indexedEntries o) ++
  filter (fun e => match arrayIndex (fst e) with
                   | Some _ => false
                   | None => true
                   end) o.

(** Characters cleanUrl escapes outside wikilinks: the brackets, angle
    brackets, the double quote, 0x00 to 0x20, 0x7F and the bar. *)
Definition reUrlEscape : RegExp :=
  mkRegExp (Grp 1 (Cls false [ c1 93; c1 91; c1 60; c1 62; c1 34; (0, 32);
                               c1 127; c1 124 ]))
           false true.

(** The pattern of cleanUrl, anchored at the start: group 1 is
    [(?:[a-zA-Z][^:/]*:)?(?:\/\/)?], group 2 is [[^/]+], group 3 is [\/?.*]. *)
Definition reUrlBits : RegExp :=
  mkRegExp
    (seqs [ Bol;
            Grp 1 (Seq (Opt (seqs [ Cls false [ (97, 122); (65, 90) ];
                                    Star (Cls true [ c1 58; c1 47 ]);
                                    Chr 58 ]))
                       (Opt (Lit "//")));
            Grp 2 (Plus (Cls true [ c1 47 ]));
            Grp 3 (Seq (Opt (Chr 47)) (Star Dot)) ])
    false false.

(** [/^%5B([0-9A-Fa-f:.]+)%5D((:\d+)?)$/] *)
Definition reIPv6Host : RegExp :=
  mkRegExp
    (seqs [ Bol; Lit "%5B";
            Grp 1 (Plus (Cls false [ (48, 57); (65, 70); (97, 102); c1 58;
                                     c1 46 ]));
            Lit "%5D";
            Grp 2 (Opt (Grp 3 (Seq (Chr 58) (Plus (Cls false cs_d)))));
            Eol ])
    false false.

(** [/[\uFF00-\uFFEF]/g] and [/\uFF3c/] *)
Definition reFullwidth : RegExp := mkRegExp (Cls false [ (65280, 65519) ]) false true.
Definition reFullwidthBackslash : RegExp := mkRegExp (Chr 65340) false false.

(** [/\u0280|\u0274|\u207F|\u029F|\u026A|\u207D|\u208D/g] *)
Definition reIEChars : RegExp :=
  mkRegExp (alts [ Chr 640; Chr 628; Chr 8319; Chr 671; Chr 618; Chr 8317;
                   Chr 8333 ])
           false true.

(** A comment on one line: [/\/\*(.*?)\*\//g]. *)
Definition reCssComment : RegExp :=
  mkRegExp (seqs [ Lit "/*"; Grp 1 (StarLazy Dot); Lit "*/" ]) false true.

(** [/s(?:\u3031|\u309D|\u30FC|\u30FD|\uFE7C|\uFE7D|\uFF70)/ig] *)
Definition reSoundMarks : RegExp :=
  mkRegExp (Seq (Chr 115)
                (alts [ Chr 12337; Chr 12445; Chr 12540; Chr 12541; Chr 65148;
                        Chr 65149; Chr 65392 ]))
           true true.

(** [/[\u0000-\u0008\u000B\u000E-\u001F\u007F]/] *)
Definition reControlChars : RegExp :=
  mkRegExp (Cls false [ (0, 8); c1 11; (14, 31); c1 127 ]) false false.

(** [/ /g], [/%3A/g] and [/%/g] *)
Definition reSpace : RegExp := mkRegExp (Chr 32) false true.
Definition rePercent3A : RegExp := mkRegExp (Lit "%3A") false true.
Definition rePercent : RegExp := mkRegExp (Chr 37) false true.

(** [/^(?:typeof|property|rel)$/] *)
Definition reParsoidKeys : RegExp :=
  mkRegExp (seqs [ Bol; alts [ Lit "typeof"; Lit "property"; Lit "rel" ]; Eol ])
           false false.

(** [/(?:^|\s)mw:.+?(?=$|\s)/] *)
Definition reMwType : RegExp :=
  mkRegExp (seqs [ Alt Bol (Cls false cs_s); Lit "mw:"; PlusLazy Dot;
                   Look true (Alt Eol (Cls false cs_s)) ])
           false false.

(** [/^#mwt\d+$/] *)
Definition reAboutId : RegExp :=
  mkRegExp (seqs [ Bol; Lit "#mwt"; Plus (Cls false cs_d); Eol ]) false false.

(** [/^data-(?!ooui)[^:]*$/i] *)
Definition reDataAttr : RegExp :=
  mkRegExp (seqs [ Bol; Lit "data-"; Look false (Lit "ooui");
                   Star (Cls true [ c1 58 ]); Eol ])
           true false.

(** [/(?:^|\s)(?!mw:\w)[^\s]*/g] *)
Definition reNonParsoidTypes : RegExp :=
  mkRegExp (seqs [ Alt Bol (Cls false cs_s);
                   Look false (Seq (Lit "mw:") (Cls false cs_w));
                   Star (Cls true cs_s) ])
           false true.

(** [/^mw:WikiLink(\/Interwiki)?$/] *)
Definition reWikiLink : RegExp :=
  mkRegExp (seqs [ Bol; Lit "mw:WikiLink"; Opt (Grp 1 (Lit "/Interwiki")); Eol ])
           false false.

(** ASCII case mappings, which the built-in ones extend. *)
Definition asciiLower (s : jsstring) : jsstring :=
  map (fun c => if (65 <=? c) && (c <=? 90) then c + 32 else c) s.
Definition asciiUpper (s : jsstring) : jsstring :=
  map (fun c => if (97 <=? c) && (c <=? 122) then c - 32 else c) s.

Section TokenSanitizer.

(** [String.prototype.toLowerCase] and [toUpperCase], built-ins that rest on
    the Unicode case tables of the engine. *)
Variable toLowerCase : jsstring -> jsstring.
Variable toUpperCase : jsstring -> jsstring.

(** [WikitextConstants.Sanitizer.TagWhiteList.has], from
    lib/config/WikitextConstants, on which the sources depend. *)
Variable TagWhiteList : jsstring -> bool.

(** [SanitizerConstants.globalConfig]; the source sets the three flags. *)
Variable config : GlobalConfig.

(** The [attrWhiteList] that setDerivedConstants computes. *)
Definition attrWhiteList : obj (list jsstring) := computeAttrWhiteList config.

(** getAttrWhiteList: the cached Set for [tag], made on first use from the
    static table, or from nothing for a tag the table does not have. *)
Definition getAttrWhiteList (cache : awlCache) (tag : jsstring)
  : result whitelist * awlCache :=
  match obj_lookup cache tag with
  | Own s => (Ok (WSet s), cache)
  | Inherited => (Ok (WMember tag), cache)
  | Absent =>
      match obj_lookup attrWhiteList tag with
      | Inherited => (Throw TypeError, cache)  (* new Set of a function *)
      | found =>
          let cache' := obj_set tag (match found with Own l => l | _ => [] end)
                                cache in
          (match obj_lookup cache' tag with
           | Own s => Ok (WSet s)
           | _ => Ok (WMember tag)
           end, cache')
      end
  end.

Definition stripIDNs (host : jsstring) : jsstring :=
  replace IDN_RE_G [] host.

(** cleanUrl; [None] is [null]. *)
Definition cleanUrl (conf : Conf) (href mode : jsstring)
  : result (option jsstring) :=
  href <- (if negb (streq mode (js "wikilink"))
           then replaceWith reUrlEscape (fun m => phpURLEncode (matched m)) href
           else Ok href) ;;
  match exec reUrlBits href with
  | Some bits =>
      let proto := arg 1 bits in
      if truthy proto && negb (hasValidProtocol conf (ToString proto)) then
        (* invalid proto, disallow URL *)
        Ok None
      else
        let host := stripIDNs (ToString (arg 2 bits)) in
        let host :=
          match exec reIPv6Host host with
          | Some m =>
              (* IPv6 host names *)
              js "[" ++ ToString (arg 1 m) ++ js "]" ++ ToString (arg 2 m)
          | None => host
          end in
        let path := arg 3 bits in
        Ok (Some (ToString proto ++ host ++ ToString path))
  | None => Ok (Some ([] ++ [] ++ href))
  end.

(** decodeEntity: the character of a named entity, or the pseudo-entity
    source.  Both tables are object literals, so that a name like
    [toString] finds an inherited member in them. *)
Definition decodeEntity (nm : jsstring) : result jsstring :=
  let nm :=
    match obj_lookup htmlEntityAliases nm with
    | Own alias => orString (Some alias) nm
    | Inherited => inheritedToString nm
    | Absent => nm
    end in
  match obj_lookup htmlEntities nm with
  | Own e => if e =? 0 then Ok (js "&" ++ nm ++ js ";") else codepointToUtf8 e
  | Inherited => Throw RangeError  (* String.fromCodePoint of a function *)
  | Absent => Ok (js "&" ++ nm ++ js ";")
  end.

(** decodeChar: the string for a code point if that is a valid character
    reference, otherwise the replacement text. *)
Definition decodeChar (codepoint : Z) : result jsstring :=
  if validateCodepoint codepoint
  then codepointToUtf8 codepoint
  else Ok UTF8_REPLACEMENT.

(** [decodeChar(parseInt(digits, radix))]; NaN is no valid code point. *)
Definition decodeCharDigits (radix : Z) (digits : jsval) : result jsstring :=
  match parseInt radix (ToString digits) with
  | Some cp => decodeChar cp
  | None => Ok UTF8_REPLACEMENT
  end.

Definition decodeCharReferences (text : jsstring) : result jsstring :=
  replaceWith CHAR_REFS_RE_G (fun m =>
    if truthy (arg 1 m) then decodeEntity (ToString (arg 1 m))
    else if truthy (arg 2 m) then decodeCharDigits 10 (arg 2 m)
    else if truthy (arg 3 m) then decodeCharDigits 16 (arg 3 m)
    else Ok (ToString (arg 4 m))) text.

Definition cssDecodeCallback (m : matchResult) : result jsstring :=
  match arg 1 m with
  | VStr _ | VNull => Ok []  (* Line continuation *)
  | VUndefined =>
      c <- match arg 2 m with
           | VStr hex =>
               match parseInt 16 hex with
               | Some cp => codepointToUtf8 cp
               | None => Throw RangeError
               end
           | VNull => Throw RangeError
           | VUndefined =>
               match arg 3 m with
               | VUndefined => Ok (js "\")
               | x => Ok (ToString x)
               end
           end ;;
      if streq c [10] || streq c [34] || streq c [39] || streq c [92] then
        (* These characters need to be escaped in strings *)
        Ok (js "\" ++ toString16 (hd 0 c) ++ js " ")
      else
        (* Decode unnecessary escape *)
        Ok c
  end.

Definition normalizeCss (text : jsstring) : result jsstring :=
  (* Decode character references like &#123; *)
  text <- decodeCharReferences text ;;
  text <- replaceWith cssDecodeRE cssDecodeCallback text ;;
  (* Normalize Halfwidth and Fullwidth Unicode block *)
  text <- replaceWith reFullwidth (fun m =>
            let u := matched m in
            if test reFullwidthBackslash u then Ok u
            else match utf8ToCodepoint u with
                 | Some cp => fromCodePoint (cp - 65248)
                 | None => Throw RangeError
                 end) text ;;
  (* Convert more characters IE6 might treat as ascii *)
  let text := replaceFn reIEChars (fun m =>
                orString (ieReplace_get (matched m) ieReplace) (matched m)) text in
  (* Remove any comments *)
  let text := replace reCssComment (js " ") text in
  (* Fix up unmatched double-quote and single-quote chars *)
  let text := removeMismatchedQuoteChar text (js "'") in
  let text := removeMismatchedQuoteChar text [34] in
  (* Remove anything after a comment-start token *)
  let text := match indexOf (js "/*") text with
              | Some commentPos => firstn commentPos text
              | None => text
              end in
  (* S followed by repeat, iteration, or prolonged sound marks *)
  let text := replace reSoundMarks (js "ss") text in
  Ok text.

Definition checkCss (text : jsstring) : result jsstring :=
  text <- normalizeCss text ;;
  if test reControlChars text ||
     (match indexOf UTF8_REPLACEMENT text with Some _ => true | None => false end)
  then Ok (js "/* invalid control char */")
  else if test insecureRE text then Ok (js "/* insecure input */")
  else Ok text.

(** escapeIdInternal: [mode] is ['html5'] or ['legacy']. *)
Definition escapeIdInternal (id mode : jsstring) : result jsstring :=
  if streq mode (js "html5") then
    Ok (replace reSpace (js "_") id)
  else if streq mode (js "legacy") then
    let id := replace reSpace (js "_") id in
    id <- phpURLEncode id ;;
    let id := replace rePercent3A (js ":") id in
    let id := replace rePercent (js ".") id in
    Ok id
  else Throw (Error (js "Invalid mode: " ++ mode)).

(** escapeIdForAttribute; [fallback] is [options && options.fallback]. *)
Definition escapeIdForAttribute (id : jsstring) (fallback : bool) : result jsstring :=
  let mode := if fallback then js "legacy" else js "html5" in
  escapeIdInternal id mode.

Definition escapeIdForLink (id : jsstring) : result jsstring :=
  escapeIdInternal id (js "html5").

Definition escapeIdForExternalInterwiki (id : jsstring) : result jsstring :=
  escapeIdInternal id (js "legacy").

Definition isParsoidAttr (key val : jsstring) (attrs : list KV) : bool :=
  test reParsoidKeys key && test reMwType val ||
  streq key (js "about") && test reAboutId val ||
  streq key (js "content") &&
    test reMwType (ToString (of_nullable (lookup attrs (js "property")))).

(** One round of the loop of sanitizeTagAttrs, for the attribute [attr] of
    [attrs]. *)
Definition sanitizeAttr (conf : Conf) (wlist : whitelist)
    (token : option TagToken) (attrs : list KV) (attr : KV)
    (newAttrs : obj (option proposal)) : result outcome :=
  let allowRdfa := allowRdfaAttrs config in
  let allowMda := allowMicrodataAttrs config in
  let html5 := html5Mode config in
  let origK := orString (ksrc attr) (k attr) in
  let key := toLowerCase (k attr) in
  let val := v attr in
  let origV := VStr (orString (vsrc attr) val) in
  let psdAttr := isParsoidAttr key val attrs in
  let put (newV : option jsstring) (orig : jsval) :=
    obj_set key (Some (newV, orig, origK)) newAttrs in
  (* Bypass RDFa/whitelisting checks for Parsoid-inserted attrs *)
  verdict <-
    (if negb psdAttr then
       if negb (test getAttribsRegex key) then
         Ok (Some (put None origV))
       else if allowRdfa && test XMLNS_ATTRIBUTE_RE key then
         (* If RDFa is enabled, don't block XML namespace declaration *)
         if negb (test EVIL_URI_RE val)
         then Ok (Some (put (Some val) origV))
         else Ok (Some (put None origV))
       else if negb (html5 && test reDataAttr key) then
         (* If in HTML5 mode, don't block data-* attributes *)
         listed <- wlistHas wlist key ;;
         if negb listed then Ok (Some (put None origV)) else Ok None
       else Ok None
     else Ok None) ;;
  match verdict with
  | Some newAttrs' => Ok (Continue newAttrs')
  | None =>
      (* Strip javascript "expression" from stylesheets. *)
      val <- (if streq key (js "style") then checkCss val else Ok val) ;;
      val <- (if streq key (js "id") then escapeIdForAttribute val false
              else Ok val) ;;
      (* RDFa and microdata properties: allow "simple" values but suppress
         javascript *)
      if setHas microData key && test EVIL_URI_RE val then
        (* Retain the Parsoid typeofs for Parsoid attrs *)
        let newV :=
          if psdAttr
          then Some (trim (replace reNonParsoidTypes [] (ToString origV)))
          else None in
        Ok (Continue (put newV origV))
      else
        urlDone <-
          match token with
          | Some tk =>
              if streq key (js "href") || streq key (js "src")
                 || streq key (js "poster")
              then
                let rel := getAttributeShadowInfo tk (js "rel") in
                let mode :=
                  if streq key (js "href") && test reWikiLink (ToString rel)
                  then js "wikilink" else js "external" in
                let origHref := getAttributeShadowInfo tk key in
                newHref <- cleanUrl conf val mode ;;
                if negb (strict_eq (of_nullable newHref) (VStr val))
                then Ok (Some (put newHref origHref))
                else Ok None
              else Ok None
          | None => Ok None
          end ;;
        match urlDone with
        | Some newAttrs' => Ok (Continue newAttrs')
        | None =>
            match token with
            | None => Ok (Return newAttrs)
            | Some _ =>
                (* If this attribute was previously set, override it. *)
                let newAttrs := put (Some val) origV in
                if negb allowMda then
                  (* itemtype, itemid, itemref don't make sense without
                     itemscope *)
                  match obj_get newAttrs (js "itemscope") with
                  | None | Some None =>
                      Ok (Continue (obj_set (js "itemid") None
                                     (obj_set (js "itemtype") None newAttrs)))
                  | Some (Some _) => Ok (Continue newAttrs)
                  end
                else Ok (Continue newAttrs)
            end
        end
  end.

Fixpoint sanitizeAttrs (conf : Conf) (wlist : whitelist)
    (token : option TagToken) (attrs todo : list KV)
    (newAttrs : obj (option proposal)) : result (obj (option proposal)) :=
  match todo with
  | [] => Ok newAttrs
  | attr :: todo' =>
      o <- sanitizeAttr conf wlist token attrs attr newAttrs ;;
      match o with
      | Continue newAttrs' => sanitizeAttrs conf wlist token attrs todo' newAttrs'
      | Return newAttrs' => Ok newAttrs'
      end
  end.

(** sanitizeTagAttrs; [tagName] and [token] may be [null]. *)
Definition sanitizeTagAttrs (conf : Conf) (tagName : option jsstring)
    (token : option TagToken) (attrs : list KV) (cache : awlCache)
  : result (obj (option proposal)) * awlCache :=
  match (match tagName with
         | Some (c :: s) => Ok (c :: s)
         | _ => match token with
                | Some tk => Ok (name tk)
                | None => Throw TypeError
                end
         end) with
  | Throw e => (Throw e, cache)
  | Ok tag =>
      let (wlist, cache') := getAttrWhiteList cache tag in
      (wl <- wlist ;; sanitizeAttrs conf wl token attrs attrs [], cache')
  end.

(** The callback sanitizeToken runs on each key of the proposals. *)
Definition applyProposal (token : TagToken) (e : jsstring * option proposal)
  : result TagToken :=
  match snd e with
  | None => Throw TypeError  (* vs[0] of undefined *)
  | Some (newV, origV, origK) =>
      match newV with
      | Some val =>
          (* explicit check against null to prevent discarding empty strings *)
          Ok (addNormalizedAttribute (fst e) val origV token)
      | None => Ok (setShadowInfo origK VNull origV token)
      end
  end.

Fixpoint applyProposals (token : TagToken)
    (es : list (jsstring * option proposal)) : result TagToken :=
  match es with
  | [] => Ok token
  | e :: es' => token' <- applyProposal token e ;; applyProposals token' es'
  end.

Definition withAttribs (t : TagToken) (l : list KV) : TagToken :=
  mkTag (constructorName t) (name t) l (dataAttribs t).

(** The text a disallowed tag without usable source range is turned into. *)
Definition tagSource (t : TagToken) : jsstring :=
  let buf := js "<" ++ name t in
  let buf := fold_left (fun buf kv => buf ++ js " " ++ k kv ++ js "='" ++ v kv ++ js "'")
                       (attribs t) buf in
  let buf := match constructorName t with
             | SelfclosingTagTk => buf ++ js " /"
             | _ => buf
             end in
  buf ++ js ">".

Definition isEndTag (t : TagToken) : bool :=
  match constructorName t with EndTagTk => true | _ => false end.

(** sanitizeToken, called on the receiver [this]: the sanitized token, or
    the text that replaces it. *)
Definition sanitizeToken (this : Receiver) (conf : Conf) (token : Token)
    (inTemplate : bool) (cache : awlCache)
  : result (Token + jsstring) * awlCache :=
  match token with
  | Tag t =>
      if isHTMLTag token &&
         (negb (TagWhiteList (toUpperCase (name t))) ||
          (isEndTag t && setHas noEndTagSet (name t)))
      then (* unknown tag -- convert to plain text *)
        if negb inTemplate &&
           (match tsr (dataAttribs t) with Some _ => true | None => false end)
        then
          (* Just get the original token source *)
          (src <- getWTSource t (this_conf this) ;; Ok (inr src), cache)
        else if negb (isEndTag t) then
          (* Handle things without a TSR *)
          (Ok (inr (tagSource t)), cache)
        else
          (Ok (inr (js "</" ++ name t ++ js ">")), cache)
      else
        match attribs t with
        | [] => (Ok (inl token), cache)
        | _ :: _ =>
            if isEndTag t then
              (* EndTagTk, drop attributes *)
              (Ok (inl (Tag (withAttribs t []))), cache)
            else
              (* Sanitize attributes *)
              let (newAttrs, cache') :=
                sanitizeTagAttrs conf None (Some t) (attribs t) cache in
              (newAttrs <- newAttrs ;;
               (* Reset token attribs and rebuild *)
               t' <- applyProposals (withAttribs t []) (obj_entries newAttrs) ;;
               Ok (inl (Tag t')),
               cache')
        end
  | CommentTk _ | NlTk | EOFTk => (Ok (inl token), cache)
  end.

(** ** More of lib/parser.defines.js: the attribute accessors of a token *)

(** The loop of setAttribute over the attributes from the last to the
    first: the value of the first one found whose lower-cased key is [nm] is
    replaced.  [None]: nothing found. *)
Fixpoint setLastMatch (nm value : jsstring) (reversed : list KV)
  : option (list KV) :=
  match reversed with
  | [] => None
  | kv :: l =>
      if streq (toLowerCase (k kv)) nm
      then Some (mkKV (k kv) value (ksrc kv) (vsrc kv) :: l)
      else match setLastMatch nm value l with
           | Some l' => Some (kv :: l')
           | None => None
           end
  end.

(** setAttribute: set an unshadowed attribute. *)
Definition setAttribute (nm value : jsstring) (t : TagToken) : TagToken :=
  (* First look for the attribute and change the last match if found. *)
  match setLastMatch nm value (rev (attribs t)) with
  | Some l => mkTag (constructorName t) (name t) (rev l) (dataAttribs t)
  | None =>
      (* Nothing found, just add the attribute *)
      addAttribute nm value t
  end.

(** removeAttribute: completely remove all attributes with this name. *)
Definition removeAttribute (nm : jsstring) (t : TagToken) : TagToken :=
  mkTag (constructorName t) (name t)
        (filter (fun kv => negb (streq (toLowerCase (k kv)) nm)) (attribs t))
        (dataAttribs t).

(** Util.lookupValue: the first pair whose value is [key]. *)
Fixpoint lookupValue (kvs : list KV) (key : jsstring) : option KV :=
  match kvs with
  | [] => None
  | kv :: kvs' => if streq (v kv) key then Some kv else lookupValue kvs' key
  end.

(** ** More of lib/utils/Util.js *)

(** [s.replace(p, t)] with a string pattern: the first occurrence only.
    ([t] is free of [$].) *)
Definition replaceString (p t s : jsstring) : jsstring :=
  match indexOf p s with
  | Some i => firstn i s ++ t ++ skipn (i + length p) s
  | None => s
  end.

(** Util.stripSuffix: strip a string suffix if it matches.
    [text.substr(-sLen)] is the last [sLen] code units, all of [text] if it
    has fewer. *)
Definition stripSuffix (text suffix : jsstring) : jsstring :=
  let sLen := length suffix in
  if negb (Nat.eqb sLen 0) && streq (skipn (length text - sLen) text) suffix
  then firstn (length text - sLen) text
  else text.
(** Util.normalizeNamespaceName: [name.toLowerCase().replace(' ', '_')]. *)
Definition normalizeNamespaceName (nm : jsstring) : jsstring :=
  replaceString (js " ") (js "_") (toLowerCase nm).

(* ================================================================== *)
(** * Definitions used to state the properties *)

(** What stripIDNs removes, character by character. *)
Definition idnChar (c : Z) : bool :=
  (c =? 9) || (c =? 32)            (* tab, space *)
  || (c =? 173)                    (* soft hyphen *)
  || (c =? 6150)                   (* Mongolian todo soft hyphen *)
  || (c =? 8203)                   (* zero width space *)
  || (c =? 8288)                   (* word joiner *)
  || (c =? 65279)                  (* zero width no-break space *)
  || (c =? 847)                    (* combining grapheme joiner *)
  || (c =? 6155) || (c =? 6156) || (c =? 6157) (* Mongolian variation selectors *)
  || (c =? 8204) || (c =? 8205)    (* zero width non-joiner, joiner *)
  || ((65024 <=? c) && (c <=? 65039)). (* variation selectors 1 to 16 *)

(** The control characters checkCss refuses. *)
Definition cssControlChar (c : Z) : bool :=
  ((0 <=? c) && (c <=? 8)) || (c =? 11) || ((14 <=? c) && (c <=? 31))
  || (c =? 127).

(** [t] occurs in [s]. *)
Definition occursIn (t s : jsstring) : Prop :=
  exists pre post, s = pre ++ t ++ post.

(** A pattern that takes exactly one code unit, those that satisfy [P], and
    captures the groups [g] of it. *)
Definition unitPatternG (ic : bool) (r : regex) (P : Z -> bool)
    (g : Z -> list (nat * jsstring)) : Prop :=
  forall st cont,
    rmatch ic r st cont =
    match rest st with
    | x :: s' =>
        if P x then cont (MState (S (pos st)) s' (g x ++ caps st)) else None
    | [] => None
    end.

(** The same without groups. *)
Definition unitPattern (ic : bool) (r : regex) (P : Z -> bool) : Prop :=
  unitPatternG ic r P (fun _ => []).

(** The pieces a one-unit pattern cuts a string into. *)
Fixpoint unitPieces (P : Z -> bool) (g : Z -> list (nat * jsstring)) (p : nat)
    (s : jsstring) : list piece :=
  match s with
  | [] => []
  | c :: s' =>
      (if P c then Hit (Match p [c] (g c ++ [])) else Keep c)
      :: unitPieces P g (S p) s'
  end.

(** Every code unit left to match, and every code unit captured, is [P]. *)
Definition allChars (P : Z -> Prop) (st : mstate) : Prop :=
  Forall P (rest st) /\ Forall (fun c => Forall P (snd c)) (caps st).

(** The UTF-16 form of a code point: itself, or a surrogate pair. *)
Definition utf16 (cp : Z) : jsstring :=
  if cp <? 65536 then [cp]
  else [55296 + (cp - 65536) / 1024; 56320 + (cp - 65536) mod 1024].

(** Every space turned into an underscore, nothing else changed. *)
Definition spacesToUnderscores (id : jsstring) : jsstring :=
  map (fun c => if c =? 32 then 95 else c) id.

(** Every [%] turned into a dot. *)
Definition percentsToDots (id : jsstring) : jsstring :=
  map (fun c => if c =? 37 then 46 else c) id.

(** The characters cleanUrl escapes outside wikilinks. *)
Definition urlEscapedChar (c : Z) : bool :=
  (c =? 93) || (c =? 91) || (c =? 60) || (c =? 62) || (c =? 34)
  || ((0 <=? c) && (c <=? 32)) || (c =? 127) || (c =? 124).

(** The string cleanUrl parses: outside wikilinks each such character is
    replaced by its phpURLEncode. *)
Definition escapedHref (mode href : jsstring) : result jsstring :=
  if negb (streq mode (js "wikilink")) then
    parts <- mapM (fun c => if urlEscapedChar c then phpURLEncode [c]
                            else Ok [c]) href ;;
    Ok (concat parts)
  else Ok href.

(** The protocol prefix cleanUrl finds in a string, [''] if there is none;
    [None] if the pattern does not match at all. *)
Definition parsedProtocol (href : jsstring) : option jsstring :=
  match exec reUrlBits href with
  | Some bits => Some (ToString (arg 1 bits))
  | None => None
  end.

(** A protocol whitelist that accepts http and https only. *)
Definition httpOnly : Conf :=
  mkConf (fun proto =>
    existsb (streq (asciiLower proto))
            [ js "http://"; js "https://"; js "http:"; js "https:" ]).

(** Turns a goal on comparisons of code units into linear arithmetic. *)
Ltac charclass :=
  rewrite ?orb_false_r;
  apply eq_true_iff_eq;
  rewrite ?orb_true_iff, ?andb_true_iff, ?negb_true_iff, ?orb_false_iff,
    ?andb_false_iff, ?Z.eqb_eq, ?Z.leb_le, ?Z.eqb_neq, ?Z.leb_gt;
  lia.

(** The normalized text is one that checkCss refuses. *)
Definition cssRejected (n : jsstring) : Prop :=
  Exists (fun c => cssControlChar c = true) n \/
  occursIn UTF8_REPLACEMENT n \/
  test insecureRE n = true.

(** The three parts cleanUrl cuts a string into: protocol, host and path. *)
Definition parsedUrl (href : jsstring) : option (jsstring * jsstring * jsstring) :=
  match exec reUrlBits href with
  | Some bits =>
      Some (ToString (arg 1 bits), ToString (arg 2 bits), ToString (arg 3 bits))
  | None => None
  end.

(** Neither a tab nor a space. *)
Definition notBlank (c : Z) : Prop := c <> 9 /\ c <> 32.

(** ** Attributes that may stay on a tag *)

(** The key is that of an attribute of [attrs] which isParsoidAttr
    recognizes as inserted by Parsoid itself. *)
Definition internallyGenerated (attrs : list KV) (key : jsstring) : Prop :=
  exists attr, In attr attrs /\ toLowerCase (k attr) = key /\
               isParsoidAttr key (v attr) attrs = true.

(** An XML namespace declaration, RDFa being enabled. *)
Definition xmlnsException (key : jsstring) : Prop :=
  allowRdfaAttrs config = true /\ test XMLNS_ATTRIBUTE_RE key = true.

(** A data attribute other than data-ooui, in HTML5 mode. *)
Definition dataException (key : jsstring) : Prop :=
  html5Mode config = true /\ test reDataAttr key = true.

(** The key has the syntax of an attribute name and the whitelist has it. *)
Definition validAndListed (wlist : whitelist) (key : jsstring) : Prop :=
  test getAttribsRegex key = true /\ wlistHas wlist key = Ok true.

(** Why a key may be proposed with a value: Parsoid inserted it, or it has
    the syntax of an attribute name and is an XML namespace declaration, a
    data attribute, or on the whitelist. *)
Definition mayStay (wlist : whitelist) (attrs : list KV) (key : jsstring) : Prop :=
  internallyGenerated attrs key \/
  (test getAttribsRegex key = true /\
   (xmlnsException key \/ dataException key \/ wlistHas wlist key = Ok true)).

(** Every proposal that carries a value is for such a key. *)
Definition proposalsOK (wlist : whitelist) (attrs : list KV)
    (newAttrs : obj (option proposal)) : Prop :=
  forall key val orig origK,
    In (key, Some (Some val, orig, origK)) newAttrs -> mayStay wlist attrs key.

Definition outcomeAttrs (o : outcome) : obj (option proposal) :=
  match o with
  | Continue n => n
  | Return n => n
  end.

(** The text of a tag rebuilt from its raw attributes. *)
Definition rawTagText (t : TagToken) : jsstring :=
  js "<" ++ name t ++
  flat_map (fun kv => js " " ++ k kv ++ js "='" ++ v kv ++ js "'") (attribs t) ++
  (match constructorName t with SelfclosingTagTk => js " /" | _ => [] end) ++
  js ">".

(** The shadow entries of a token for a key: the normalized value [a] and
    the original value [sa]. *)
Definition shadowA (t : TagToken) (key : jsstring) : option jsval :=
  obj_get (orEmpty (a (dataAttribs t))) key.
Definition shadowSA (t : TagToken) (key : jsstring) : option jsval :=
  obj_get (orEmpty (sa (dataAttribs t))) key.

(** A key whose value sanitizeTagAttrs passes on as it is: not [style],
    [id], an RDFa or microdata property, or a URL attribute. *)
Definition plainKey (key : jsstring) : bool :=
  negb (streq key (js "style")) && negb (streq key (js "id")) &&
  negb (setHas microData key) &&
  negb (streq key (js "href") || streq key (js "src") || streq key (js "poster")).

(** A key that is syntactically valid and no privileged exception for any
    value. *)
Definition ordinaryKey (key : jsstring) : bool :=
  test getAttribsRegex key && negb (test XMLNS_ATTRIBUTE_RE key) &&
  negb (test reDataAttr key) &&
  negb (test reParsoidKeys key) && negb (streq key (js "about")) &&
  negb (streq key (js "content")).

(** The tag of the test: [foo=bar] and [bar=foo]. *)
Definition fooBarTag (tagName : jsstring) : TagToken :=
  mkTag TagTk tagName [ newKV (js "foo") (js "bar"); newKV (js "bar") (js "foo") ]
        noDataAttribs.

(** An HTML-origin tag that sanitizeToken turns into text: its name is not in
    the tag whitelist, or it is an end tag that must not occur. *)
Definition disallowedTag (t : TagToken) : Prop :=
  isHTMLTag (Tag t) = true /\
  (TagWhiteList (toUpperCase (name t)) = false \/
   (constructorName t = EndTagTk /\ setHas noEndTagSet (name t) = true)).

(** [</br>] written as HTML, at the first five characters of the source. *)
Definition brEndTag : TagToken :=
  mkTag EndTagTk (js "br") []
        (mkDataAttribs (Some (0, 5)) (Some (js "html")) None None).

(** [<constructor foo="bar">], as the SAX driver builds it. *)
Definition constructorTag : TagToken :=
  mkTag TagTk (js "constructor") [ newKV (js "foo") (js "bar") ] noDataAttribs.

(** [<span title="T" bar="baz">] where the tokenizer recorded [title] as
    the source of the key [bar]. *)
Definition shadowClashTag : TagToken :=
  mkTag TagTk (js "span")
        [ newKV (js "title") (js "T");
          mkKV (js "bar") (js "baz") (Some (js "title")) None ]
        noDataAttribs.

(** [<span title="T">]. *)
Definition titleTag : TagToken :=
  mkTag TagTk (js "span") [ newKV (js "title") (js "T") ] noDataAttribs.

(** The same with shadow entries for the title already. *)
Definition shadowedTitleTag : TagToken :=
  mkTag TagTk (js "span") [ newKV (js "title") (js "T") ]
        (mkDataAttribs None None (Some [ (js "title", VStr (js "T")) ])
                       (Some [ (js "title", VStr (js "T")) ])).

(** A cache in which the tag of the test has the whitelist [{foo}]. *)
Definition testCache : awlCache := [ (js "testelement", [ js "foo" ]) ].

(** Every occurrence of the text [p], found from left to right without
    overlap, replaced by [t]; [skip] code units still belong to the
    occurrence found last. *)
Fixpoint replaceText (p t : jsstring) (skip : nat) (s : jsstring) : jsstring :=
  match skip with
  | S n =>
      match s with
      | [] => []
      | _ :: s' => replaceText p t n s'
      end
  | O =>
      match s with
      | [] => []
      | c :: s' =>
          if startsWith p s then t ++ replaceText p t (length p - 1) s'
          else c :: replaceText p t O s'
      end
  end.

Definition replaceEvery (p t s : jsstring) : jsstring := replaceText p t O s.

(** The characters cleanUrl leaves in no URL outside wikilinks: the angle
    brackets, the double quote, 0x00 to 0x20, 0x7F and the bar. *)
Definition urlUnsafeChar (c : Z) : bool :=
  (c =? 60) || (c =? 62) || (c =? 34) || ((0 <=? c) && (c <=? 32))
  || (c =? 127) || (c =? 124).

(** The code units cleanUrl escapes, listed. *)
Definition urlEscapedChars : list Z :=
  [ 0; 1; 2; 3; 4; 5; 6; 7; 8; 9; 10; 11; 12; 13; 14; 15; 16; 17; 18; 19; 20;
    21; 22; 23; 24; 25; 26; 27; 28; 29; 30; 31; 32; 34; 60; 62; 91; 93; 124;
    127 ].

(** ** Values proposed for an attribute *)

(** The keys whose value is a URL that sanitizeTagAttrs cleans. *)
Definition isUrlKey (key : jsstring) : bool :=
  streq key (js "href") || streq key (js "src") || streq key (js "poster").

(** The mode in which the URL of [key] on the token [tk] is cleaned:
    wikilink for the href of a tag whose rel is that of a wiki link. *)
Definition urlMode (tk : TagToken) (key : jsstring) : jsstring :=
  if streq key (js "href") &&
     test reWikiLink (ToString (getAttributeShadowInfo tk (js "rel")))
  then js "wikilink" else js "external".

(** What one round of sanitizeTagAttrs can propose for the attribute [attr]:
    nothing; the value as it is, for an XML namespace declaration; or, the
    value being passed through checkCss for [style] and escapeIdForAttribute
    for [id], the Parsoid types of an RDFa or microdata value that looks
    like a script, else the cleaned URL for a URL key, else the value. *)
Definition proposedBy (conf : Conf) (token : option TagToken) (attr : KV)
    (newV : option jsstring) : Prop :=
  let key := toLowerCase (k attr) in
  newV = None \/
  (test XMLNS_ATTRIBUTE_RE key = true /\ newV = Some (v attr)) \/
  exists val1 val2,
    (if streq key (js "style") then checkCss (v attr) else Ok (v attr)) = Ok val1 /\
    (if streq key (js "id") then escapeIdForAttribute val1 false else Ok val1)
    = Ok val2 /\
    ((setHas microData key = true /\ test EVIL_URI_RE val2 = true /\
      newV = Some (trim (replace reNonParsoidTypes []
                           (orString (vsrc attr) (v attr))))) \/
     (setHas microData key && test EVIL_URI_RE val2 = false /\
      exists tk, token = Some tk /\
        if isUrlKey key then cleanUrl conf val2 (urlMode tk key) = Ok newV
        else newV = Some val2)).

(** Every proposal comes from an attribute of [attrs] in this way. *)
Definition proposalsFrom (conf : Conf) (token : option TagToken)
    (attrs : list KV) (newAttrs : obj (option proposal)) : Prop :=
  forall key newV orig origK,
    In (key, Some (newV, orig, origK)) newAttrs ->
    exists attr, In attr attrs /\ toLowerCase (k attr) = key /\
                 proposedBy conf token attr newV.

(** [<a STYLE="color: expression(alert(1))" Id="a b" href="http://example.com/a b"
    Title="x">]. *)
Definition linkTag : TagToken :=
  mkTag TagTk (js "a")
        [ newKV (js "STYLE") (js "color: expression(alert(1))");
          newKV (js "Id") (js "a b");
          newKV (js "href") (js "http://example.com/a b");
          newKV (js "Title") (js "x") ]
        noDataAttribs.

(** What becomes of it: the style refused, the id escaped, the URL cleaned,
    all keys in lower case, and the three original values kept as shadow
    information. *)
Definition linkTagSanitized : TagToken :=
  mkTag TagTk (js "a")
        [ newKV (js "style") (js "/* insecure input */");
          newKV (js "id") (js "a_b");
          newKV (js "href") (js "http://example.com/a+b");
          newKV (js "title") (js "x") ]
        (mkDataAttribs None None
           (Some [ (js "style", VStr (js "/* insecure input */"));
                   (js "id", VStr (js "a_b"));
                   (js "href", VStr (js "http://example.com/a+b")) ])
           (Some [ (js "style", VStr (js "color: expression(alert(1))"));
                   (js "id", VStr (js "a b"));
                   (js "href", VStr (js "http://example.com/a b")) ])).

(** [o] is [base] after some assignments [o[key] = x]. *)
Inductive assignedFrom {V : Type} (base : obj V) : obj V -> Prop :=
| assigned_none : assignedFrom base base
| assigned_set (key : jsstring) (x : V) (o : obj V) :
    assignedFrom base o -> assignedFrom base (obj_set key x o).

(** ** First characters of a match *)

(** The code units with which every match of [r] begins, when [r] cannot
    match without taking one. *)
Fixpoint firstOf (ic : bool) (r : regex) : option (Z -> bool) :=
  match r with
  | Chr c => Some (chrMatches ic c)
  | Cls negated cs => Some (clsMatches ic negated cs)
  | Seq r1 _ => firstOf ic r1
  | Alt r1 r2 =>
      match firstOf ic r1, firstOf ic r2 with
      | Some F1, Some F2 => Some (fun x => F1 x || F2 x)
      | _, _ => None
      end
  | Grp _ r1 => firstOf ic r1
  | Eps | Rep _ _ _ _ | Bol | Eol | Look _ _ => None
  end.

(** ** The whitelist cache *)

(** What the static table resolves a tag to. *)
Definition tableEntry (tag : jsstring) : list jsstring :=
  match obj_get attrWhiteList tag with
  | Some l => l
  | None => []
  end.

(** A cache that holds only what getAttrWhiteList puts into it. *)
Definition cacheFromTable (cache : awlCache) : Prop :=
  forall tag s, obj_get cache tag = Some s -> s = tableEntry tag.

(** The name of an event handler attribute begins with [on]. *)
Definition eventHandlerKey (key : jsstring) : bool := startsWith (js "on") key.

(** [<img onclick="evil()" src="http://ok.test/x.png">]. *)
Definition imgTag : TagToken :=
  mkTag SelfclosingTagTk (js "img")
        [ newKV (js "onclick") (js "evil()");
          newKV (js "src") (js "http://ok.test/x.png") ]
        (mkDataAttribs None None None None).

(** What becomes of it: the event handler is gone from the attributes and
    kept as shadow information only. *)
Definition imgTagSanitized : TagToken :=
  mkTag SelfclosingTagTk (js "img")
        [ newKV (js "src") (js "http://ok.test/x.png") ]
        (mkDataAttribs None None
           (Some [ (js "onclick", VNull) ])
           (Some [ (js "onclick", VStr (js "evil()")) ])).

(** ** Percent-encoded texts *)

(** A JavaScript string: every code unit is below 2^16. *)
Definition codeUnits (s : jsstring) : Prop :=
  Forall (fun c => 0 <= c <= 65535) s.

(** ASCII letters and digits. *)
Definition alnum (c : Z) : bool :=
  ((48 <=? c) && (c <=? 57)) || ((65 <=? c) && (c <=? 90))
  || ((97 <=? c) && (c <=? 122)).

(** What phpURLEncode writes: letters, digits, [-], [_], [.], [%] and [+]. *)
Definition urlencodedChar (c : Z) : bool :=
  alnum c || (c =? 45) || (c =? 95) || (c =? 46) || (c =? 37) || (c =? 43).

(** What a legacy id consists of: letters, digits, [-], [_], [.] and [:]. *)
Definition legacyIdChar (c : Z) : bool :=
  alnum c || (c =? 45) || (c =? 95) || (c =? 46) || (c =? 58).

(** A text made of single characters that satisfy [P], none of them [%],
    and of percent-escapes of bytes that satisfy [B]. *)
Inductive escaped (P B : Z -> Prop) : jsstring -> Prop :=
| escaped_nil : escaped P B []
| escaped_chr (c : Z) (s : jsstring) :
    P c -> c <> 37 -> escaped P B s -> escaped P B (c :: s)
| escaped_pct (b : Z) (s : jsstring) :
    0 <= b <= 255 -> B b -> escaped P B s ->
    escaped P B (37 :: hexChar false (b / 16) :: hexChar false (b mod 16) :: s).

(** [<span style="\110000">]. *)
Definition badEscapeTag : TagToken :=
  mkTag TagTk (js "span") [ newKV (js "style") (js "\110000") ] noDataAttribs.

(** ** Attribute keys in normal form *)

(** The keys are trimmed and in lower case, as the tokenizer and the
    sanitizer leave them, and no key occurs twice. *)
Definition canonicalKeys (kvs : list KV) : Prop :=
  Forall (fun kv => toLowerCase (k kv) = k kv /\ trim (k kv) = k kv) kvs /\
  NoDup (map k kvs).

(** ** Plain style texts *)

(** The code units normalizeCss gives a meaning or rewrites: the ampersand,
    the backslash, the halfwidth and fullwidth block, the look-alikes of
    ASCII letters, and the sound marks. *)
Definition cssSpecialChar (c : Z) : bool :=
  (c =? 38) || (c =? 92) || ((65280 <=? c) && (c <=? 65519))
  || (c =? 640) || (c =? 628) || (c =? 8319) || (c =? 671) || (c =? 618)
  || (c =? 8317) || (c =? 8333)
  || (c =? 12337) || (c =? 12445) || (c =? 12540) || (c =? 12541)
  || (c =? 65148) || (c =? 65149).

(** How often a code unit occurs. *)
Definition countChar (c : Z) (s : jsstring) : nat :=
  length (filter (Z.eqb c) s).

(** [font: 12px/1.5 "Arial"; color: red]. *)
Definition plainStyle : jsstring :=
  js "font: 12px/1.5 " ++ [34] ++ js "Arial" ++ [34] ++ js "; color: red".

(** ** Sound marks *)

(** The repeat, iteration and prolonged sound marks, and the letter s in
    either case. *)
Definition soundMark (c : Z) : bool :=
  existsb (Z.eqb c) [ 12337; 12445; 12540; 12541; 65148; 65149; 65392 ].

Definition letterS (c : Z) : bool := (c =? 115) || (c =? 83).

(** What [text.replace(/s(?:…)/ig, 'ss')] returns. *)
Definition soundMarksReplaced (p : nat) (s : jsstring) : jsstring :=
  flat_map (fun pc => match pc with Keep c => [c] | Hit _ => js "ss" end)
           (scanAll reSoundMarks p O s).

(** [a /* b */ c /* d] and what normalizeCss returns for it. *)
Definition commentedStyle : jsstring := js "a /* b */ c /* d".
Definition commentedStyleNormalized : jsstring := js "a   c ".

(** ** RDFa and microdata values *)

(** [<span typeof="mw:Foo javascript:alert(1)" property="dc:title">]. *)
Definition rdfaTag : TagToken :=
  mkTag TagTk (js "span")
        [ newKV (js "typeof") (js "mw:Foo javascript:alert(1)");
          newKV (js "property") (js "dc:title") ]
        noDataAttribs.

(** What becomes of it: of the types only the Parsoid type is left. *)
Definition rdfaTagSanitized : TagToken :=
  mkTag TagTk (js "span")
        [ newKV (js "typeof") (js "mw:Foo");
          newKV (js "property") (js "dc:title") ]
        (mkDataAttribs None None
           (Some [ (js "typeof", VStr (js "mw:Foo")) ])
           (Some [ (js "typeof", VStr (js "mw:Foo javascript:alert(1)")) ])).

(** ** Greedy runs *)

(** What a greedy [r*] or [r+] over a one-unit pattern does: it takes units
    that satisfy [P] while it can, and then gives them back one at a time
    until the continuation succeeds. *)
Fixpoint runThen (P : Z -> bool) (min i p : nat) (s : jsstring)
    (cs : list (nat * jsstring)) (cont : mstate -> option mstate)
    : option mstate :=
  let stop := fun _ : unit =>
    if Nat.leb min i then cont (MState p s cs) else None in
  match s with
  | x :: s' =>
      if P x then orElse (runThen P min (S i) (S p) s' cs cont) stop
      else stop tt
  | [] => stop tt
  end.

(** The code unit of the quote character removeMismatchedQuoteChar works
    on, and the line ends that stop it. *)
Definition quoteUnit (quoteChar : jsstring) : Z :=
  if streq quoteChar (js "'") then 39 else 34.

Definition lineEnd (c : Z) : bool := (c =? 10) || (c =? 13) || (c =? 12).

(** [content: "a" 'b] *)
Definition openQuoteStyle : jsstring :=
  js "content: " ++ [34] ++ js "a" ++ [34] ++ js " 'b".

(* ================================================================== *)
(** * Strings and objects *)

Lemma streq_spec (s t : jsstring) : streq s t = true <-> s = t.
Proof.
  revert t; induction s as [|x s IH]; intros [|y t]; simpl; split;
    try congruence; try reflexivity.
  - intros H. apply andb_true_iff in H as [Hx Hs].
    apply Z.eqb_eq in Hx. apply IH in Hs. congruence.
  - intros H. injection H as -> ->. rewrite Z.eqb_refl. simpl.
    now apply IH.
Qed.

Lemma streq_refl (s : jsstring) : streq s s = true.
Proof. now apply streq_spec. Qed.

Lemma streq_neq (s t : jsstring) : streq s t = false <-> s <> t.
Proof.
  split.
  - intros H E. apply streq_spec in E. congruence.
  - intros H. destruct (streq s t) eqn:E; [|reflexivity].
    apply streq_spec in E. contradiction.
Qed.

Lemma obj_update_In {V : Type} (key q : jsstring) (x e : V) (o : obj V) :
  In (q, e) (obj_update key x o) -> (q = key /\ e = x) \/ In (q, e) o.
Proof.
  induction o as [|[k0 w] o IH]; simpl.
  - intros [H|[]]. left. now inversion H.
  - destruct (streq k0 key) eqn:E; simpl.
    + apply streq_spec in E. subst k0.
      intros [H|H]; [left; now inversion H | right; now right].
    + intros [H|H]; [right; now left|].
      destruct (IH H) as [?|?]; [now left | right; now right].
Qed.

Lemma obj_set_In {V : Type} (key q : jsstring) (x e : V) (o : obj V) :
  In (q, e) (obj_set key x o) -> (q = key /\ e = x) \/ In (q, e) o.
Proof.
  unfold obj_set. destruct (streq key (js "__proto__")).
  - now right.
  - apply obj_update_In.
Qed.

Lemma obj_get_update_other {V : Type} (key q : jsstring) (x : V) (o : obj V) :
  q <> key -> obj_get (obj_update key x o) q = obj_get o q.
Proof.
  intros Hne. induction o as [|[k0 w] o IH]; simpl.
  - destruct (streq key q) eqn:E; [|reflexivity].
    apply streq_spec in E. congruence.
  - destruct (streq k0 key) eqn:E; simpl.
    + apply streq_spec in E. subst k0.
      destruct (streq key q) eqn:E2; [|reflexivity].
      apply streq_spec in E2. congruence.
    + now rewrite IH.
Qed.

Lemma obj_get_set_other {V : Type} (key q : jsstring) (x : V) (o : obj V) :
  q <> key -> obj_get (obj_set key x o) q = obj_get o q.
Proof.
  intros Hne. unfold obj_set. destruct (streq key (js "__proto__")).
  - reflexivity.
  - now apply obj_get_update_other.
Qed.

Lemma insertByIndex_In {V : Type} (i : Z) (e x : jsstring * V)
    (l : list (Z * (jsstring * V))) :
  In x (map snd (insertByIndex i e l)) -> x = e \/ In x (map snd l).
Proof.
  induction l as [|[j f] l IH]; simpl.
  - intros [H|[]]. now left.
  - destruct (i <? j); simpl.
    + intros [H|H]; [now left | now right].
    + intros [H|H]; [right; now left|].
      destruct (IH H) as [?|?]; [now left | right; now right].
Qed.

Lemma indexedEntries_In {V : Type} (o : obj V) (x : jsstring * V) :
  In x (map snd (indexedEntries o)) -> In x o.
Proof.
  induction o as [|[key y] o IH]; simpl; [tauto|].
  destruct (arrayIndex key).
  - intros H. apply insertByIndex_In in H as [H|H]; [now left | right; auto].
  - intros H. right; auto.
Qed.

(** [Object.keys] lists own properties only. *)
Lemma obj_entries_In {V : Type} (o : obj V) (x : jsstring * V) :
  In x (obj_entries o) -> In x o.
Proof.
  unfold obj_entries. intros H. apply in_app_or in H as [H|H].
  - now apply indexedEntries_In.
  - now apply filter_In in H as [H _].
Qed.

(* ================================================================== *)
(** * The matcher *)

Lemma unit_Chr (ic : bool) (c : Z) : unitPattern ic (Chr c) (chrMatches ic c).
Proof. intros st cont. reflexivity. Qed.

Lemma unit_Cls (ic negated : bool) (cs : charset) :
  unitPattern ic (Cls negated cs) (clsMatches ic negated cs).
Proof. intros st cont. reflexivity. Qed.

Lemma unit_Alt (ic : bool) (r1 r2 : regex) (P1 P2 : Z -> bool) :
  unitPattern ic r1 P1 -> unitPattern ic r2 P2 ->
  unitPattern ic (Alt r1 r2) (fun x => P1 x || P2 x).
Proof.
  intros H1 H2 st cont. simpl. rewrite H1, H2.
  destruct (rest st) as [|x s']; [reflexivity|].
  destruct (P1 x), (P2 x); simpl; try reflexivity;
    destruct (cont _); reflexivity.
Qed.

Lemma unit_Grp (ic : bool) (n : nat) (r : regex) (P : Z -> bool)
    (g : Z -> list (nat * jsstring)) :
  unitPatternG ic r P g ->
  unitPatternG ic (Grp n r) P (fun x => (n, [x]) :: g x).
Proof.
  intros H st cont. simpl. rewrite H.
  destruct (rest st) as [|x s']; [reflexivity|].
  destruct (P x); [|reflexivity]. cbn [pos rest caps].
  replace (S (pos st) - pos st)%nat with 1%nat by lia. reflexivity.
Qed.

Lemma unitPattern_ext (ic : bool) (r : regex) (P Q : Z -> bool)
    (g : Z -> list (nat * jsstring)) :
  (forall x, P x = Q x) -> unitPatternG ic r P g -> unitPatternG ic r Q g.
Proof.
  intros E H st cont. rewrite H. destruct (rest st); [reflexivity|].
  now rewrite E.
Qed.

Lemma matchAt_unit (re : RegExp) (P : Z -> bool)
    (g : Z -> list (nat * jsstring)) (p : nat) (s : jsstring) :
  unitPatternG (ignoreCase re) (source re) P g ->
  matchAt re p s =
  match s with
  | x :: _ => if P x then Some (Match p [x] (g x ++ [])) else None
  | [] => None
  end.
Proof.
  intros H. unfold matchAt. rewrite H. cbn [rest].
  destruct s as [|x s']; [reflexivity|].
  destruct (P x); [|reflexivity]. cbn [pos caps].
  replace (S p - p)%nat with 1%nat by lia. reflexivity.
Qed.

Lemma scanAll_unit (re : RegExp) (P : Z -> bool)
    (g : Z -> list (nat * jsstring)) :
  unitPatternG (ignoreCase re) (source re) P g ->
  forall s p, scanAll re p O s = unitPieces P g p s.
Proof.
  intros H. induction s as [|c s IH]; intros p.
  - simpl. now rewrite (matchAt_unit re P g p [] H).
  - simpl. rewrite (matchAt_unit re P g p (c :: s) H).
    destruct (P c); simpl; now rewrite IH.
Qed.

(** Replacing a one-unit pattern with the g flag works unit by unit. *)
Lemma replace_unit (re : RegExp) (P : Z -> bool)
    (g : Z -> list (nat * jsstring)) (t s : jsstring) :
  global re = true ->
  unitPatternG (ignoreCase re) (source re) P g ->
  replace re t s = flat_map (fun c => if P c then t else [c]) s.
Proof.
  intros G H. unfold replace, replaceFn, scan. rewrite G.
  rewrite (scanAll_unit re P g H). generalize O.
  induction s as [|c s IH]; intros p; [reflexivity|].
  simpl. rewrite IH. now destruct (P c).
Qed.

(** The same with a replacer that only looks at the text of the match. *)
Lemma replaceWith_unit (re : RegExp) (P : Z -> bool)
    (g : Z -> list (nat * jsstring))
    (f : matchResult -> result jsstring) (h : jsstring -> result jsstring)
    (s : jsstring) :
  global re = true ->
  unitPatternG (ignoreCase re) (source re) P g ->
  (forall m, f m = h (matched m)) ->
  replaceWith re f s =
  (parts <- mapM (fun c => if P c then h [c] else Ok [c]) s ;;
   Ok (concat parts)).
Proof.
  intros G H Hf. unfold replaceWith, scan. rewrite G.
  rewrite (scanAll_unit re P g H).
  assert (E : forall p,
             mapM (fun pc => match pc with
                             | Keep c => Ok [c]
                             | Hit m => f m
                             end) (unitPieces P g p s)
             = mapM (fun c => if P c then h [c] else Ok [c]) s).
  { induction s as [|c s IH]; intros p; [reflexivity|]. simpl. rewrite IH.
    destruct (P c); [rewrite Hf|]; reflexivity. }
  now rewrite E.
Qed.

Lemma searchFrom_unit (re : RegExp) (P : Z -> bool)
    (g : Z -> list (nat * jsstring)) :
  unitPatternG (ignoreCase re) (source re) P g ->
  forall s p, (match searchFrom re p s with Some _ => true | None => false end)
              = existsb P s.
Proof.
  intros H. induction s as [|c s IH]; intros p.
  - simpl. now rewrite (matchAt_unit re P g p [] H).
  - simpl. rewrite (matchAt_unit re P g p (c :: s) H).
    destruct (P c); [reflexivity|]. simpl. apply IH.
Qed.

(** Testing a one-unit pattern looks for one such unit. *)
Lemma test_unit (re : RegExp) (P : Z -> bool)
    (g : Z -> list (nat * jsstring)) (s : jsstring) :
  unitPatternG (ignoreCase re) (source re) P g ->
  test re s = existsb P s.
Proof. intros H. unfold test, exec. now apply (searchFrom_unit re P g). Qed.

Lemma Forall_firstn {A : Type} (P : A -> Prop) (n : nat) (l : list A) :
  Forall P l -> Forall P (firstn n l).
Proof.
  intros H. revert n. induction H as [|x l Hx Hl IH]; intros [|n]; simpl;
    constructor; auto.
Qed.

(** How the matcher moves from one position to the next: it takes a code
    unit, it records a group that starts where the group was entered, or it
    comes back from a lookahead with the groups found there.  A property of
    positions that these three steps keep holds wherever the continuation is
    entered. *)
Lemma rmatch_invariant (I : mstate -> Prop) (ic : bool) :
  (forall st x s', rest st = x :: s' -> I st -> I (advance st s')) ->
  (forall st st' n, I st -> I st' ->
     I (MState (pos st') (rest st')
          ((n, firstn (pos st' - pos st) (rest st)) :: caps st'))) ->
  (forall st st', I st -> I st' -> I (MState (pos st) (rest st) (caps st'))) ->
  forall r st cont res,
    I st -> rmatch ic r st cont = Some res ->
    exists st', I st' /\ cont st' = Some res.
Proof.
  intros Hadv Hgrp Hlook.
  induction r as [ | c | negated cs | r1 IH1 r2 IH2 | r1 IH1 r2 IH2
                 | min max greedy r1 IH1 | n r1 IH1 | | | positive r1 IH1 ];
    intros st cont res Hst Hm.
  - exists st. auto.
  - simpl in Hm.
    destruct (rest st) as [|x s'] eqn:E; [discriminate|].
    destruct (chrMatches ic c x); [|discriminate].
    exists (advance st s'). split; [|assumption]. now apply (Hadv st x).
  - simpl in Hm.
    destruct (rest st) as [|x s'] eqn:E; [discriminate|].
    destruct (clsMatches ic negated cs x); [|discriminate].
    exists (advance st s'). split; [|assumption]. now apply (Hadv st x).
  - simpl in Hm. apply IH1 in Hm as (st1 & H1 & Hm); [|assumption].
    now apply IH2 in Hm.
  - simpl in Hm. unfold orElse in Hm.
    destruct (rmatch ic r1 st cont) eqn:E1.
    + injection Hm as <-. now apply IH1 in E1.
    + now apply IH2 in Hm.
  - simpl in Hm. revert Hm.
    generalize (min + length (rest st) + 1)%nat as rounds.
    generalize O as i. intros i rounds. revert i st Hst.
    induction rounds as [|rounds IHr]; intros i st Hst Hm; [discriminate|].
    assert (Hmore :
      (if belowMax i max
       then rmatch ic r1 st (fun st' =>
              if Nat.leb min i &&
                 Nat.eqb (length (rest st')) (length (rest st))
              then None
              else (fix loop (rounds : nat) (i : nat) (st : mstate)
                      {struct rounds} : option mstate :=
                      match rounds with
                      | O => None
                      | S rounds' =>
                          let more := fun _ : unit =>
                            if belowMax i max then
                              rmatch ic r1 st (fun st' =>
                                if Nat.leb min i &&
                                   Nat.eqb (length (rest st')) (length (rest st))
                                then None
                                else loop rounds' (S i) st')
                            else None in
                          let stop := fun _ : unit =>
                            if Nat.leb min i then cont st else None in
                          if greedy then orElse (more tt) stop
                          else orElse (stop tt) more
                      end) rounds (S i) st')
       else None) = Some res ->
      exists st', I st' /\ cont st' = Some res).
    { destruct (belowMax i max); [|discriminate]. intros Hx.
      apply IH1 in Hx as (st1 & H1 & Hx); [|assumption].
      destruct (Nat.leb min i && Nat.eqb (length (rest st1)) (length (rest st)));
        [discriminate|].
      now apply IHr in Hx. }
    assert (Hstop : (if Nat.leb min i then cont st else None) = Some res ->
                    exists st', I st' /\ cont st' = Some res).
    { destruct (Nat.leb min i); [|discriminate]. intros Hx. now exists st. }
    cbn beta iota zeta in Hm. unfold orElse in Hm.
    destruct greedy.
    + match type of Hm with
      | match ?x with _ => _ end = _ => destruct x eqn:E
      end.
      * injection Hm as <-. now apply Hmore.
      * now apply Hstop.
    + match type of Hm with
      | match ?x with _ => _ end = _ => destruct x eqn:E
      end.
      * injection Hm as <-. now apply Hstop.
      * now apply Hmore.
  - simpl in Hm. apply IH1 in Hm as (st1 & H1 & Hm); [|assumption].
    eexists. split; [|exact Hm]. now apply Hgrp.
  - simpl in Hm. destruct (Nat.eqb (pos st) O); [|discriminate]. now exists st.
  - simpl in Hm. destruct (rest st); [|discriminate]. now exists st.
  - simpl in Hm.
    destruct (rmatch ic r1 st (fun st' => Some st')) as [st1|] eqn:E1.
    + destruct positive; [|discriminate].
      apply IH1 in E1 as (st2 & H2 & E2); [|assumption].
      injection E2 as ->.
      eexists. split; [|exact Hm]. now apply Hlook.
    + destruct positive; [discriminate|]. now exists st.
Qed.

(** Matching only moves forward in the subject and only captures parts of
    it: a property of all code units of the subject holds of what is left
    and of every group. *)
Lemma rmatch_allChars (P : Z -> Prop) (ic : bool) (r : regex) :
  forall st cont res,
    allChars P st -> rmatch ic r st cont = Some res ->
    exists st', allChars P st' /\ cont st' = Some res.
Proof.
  apply rmatch_invariant.
  - intros st x s' E [Hr Hc]. split; simpl; [|assumption].
    rewrite E in Hr. now inversion Hr.
  - intros st st' n [Hr Hc] [Hr' Hc']. split; simpl; [assumption|].
    constructor; [|assumption]. simpl. now apply Forall_firstn.
  - intros st st' [Hr Hc] [Hr' Hc']. split; simpl; assumption.
Qed.

(** Success means that the continuation succeeded somewhere. *)
Lemma rmatch_continues (ic : bool) (r : regex) :
  forall st cont res,
    rmatch ic r st cont = Some res -> exists st', cont st' = Some res.
Proof.
  intros st cont res H.
  destruct (rmatch_invariant (fun _ => True) ic) with (4 := I) (5 := H)
    as (st' & _ & H'); auto. now exists st'.
Qed.

Lemma matchAt_allChars (P : Z -> Prop) (re : RegExp) (p : nat) (s : jsstring)
    (m : matchResult) :
  Forall P s -> matchAt re p s = Some m ->
  Forall P (matched m) /\ Forall (fun c => Forall P (snd c)) (groups m).
Proof.
  intros Hs. unfold matchAt.
  destruct (rmatch _ _ _ _) as [st|] eqn:E; [|discriminate].
  intros H. injection H as <-. simpl.
  apply (rmatch_allChars P) in E as (st' & [Hr Hc] & E).
  - injection E as ->. split; [now apply Forall_firstn | assumption].
  - split; simpl; [assumption | constructor].
Qed.

Lemma searchFrom_allChars (P : Z -> Prop) (re : RegExp) (s : jsstring) :
  Forall P s -> forall p m, searchFrom re p s = Some m ->
  Forall P (matched m) /\ Forall (fun c => Forall P (snd c)) (groups m).
Proof.
  induction 1 as [|x s Hx Hs IH]; intros p m; simpl.
  - destruct (matchAt re p []) eqn:E; [|discriminate].
    intros H. injection H as <-.
    apply (matchAt_allChars P) in E; [assumption | constructor].
  - destruct (matchAt re p (x :: s)) eqn:E.
    + intros H. injection H as <-.
      apply (matchAt_allChars P) in E; [assumption | now constructor].
    + apply IH.
Qed.

(** The groups of a match are made of code units of the subject. *)
Lemma exec_allChars (P : Z -> Prop) (re : RegExp) (s : jsstring) (m : matchResult) :
  Forall P s -> exec re s = Some m ->
  Forall P (matched m) /\ Forall (fun c => Forall P (snd c)) (groups m).
Proof. intros Hs. now apply searchFrom_allChars. Qed.

Lemma group_allChars (P : Z -> Prop) (n : nat) (gs : list (nat * jsstring))
    (s : jsstring) :
  Forall (fun c => Forall P (snd c)) gs -> group n gs = Some s -> Forall P s.
Proof.
  induction 1 as [|[i t] gs Ht Hgs IH]; simpl; [discriminate|].
  destruct (Nat.eqb i n); [|assumption].
  intros H. now injection H as <-.
Qed.

(* ================================================================== *)
(** * Code points and character references *)

Lemma validateCodepoint_spec (cp : Z) :
  validateCodepoint cp = true <->
  cp = 9 \/ cp = 10 \/ cp = 13 \/ (32 <= cp <= 55295) \/
  (57344 <= cp <= 65533) \/ (65536 <= cp <= 1114111).
Proof.
  unfold validateCodepoint.
  rewrite !orb_true_iff, !andb_true_iff, !Z.eqb_eq, !Z.leb_le. tauto.
Qed.

(** C7.  validateCodepoint accepts exactly 0x9, 0xA, 0xD and the ranges
    [0x20, 0xD7FF], [0xE000, 0xFFFD] and [0x10000, 0x10FFFF]; it accepts 0x41
    and 0x10FFFF and rejects 0xD800 and 0x110000; decodeChar returns the
    character of an accepted code point and the three code units
    0xEF 0xBF 0xBD for a rejected one. *)
Theorem validateCodepoint_decodeChar :
  (forall cp : Z,
     validateCodepoint cp = true <->
     cp = 9 \/ cp = 10 \/ cp = 13 \/ (32 <= cp <= 55295) \/
     (57344 <= cp <= 65533) \/ (65536 <= cp <= 1114111)) /\
  validateCodepoint 65 = true /\
  validateCodepoint 1114111 = true /\
  validateCodepoint 55296 = false /\
  validateCodepoint 1114112 = false /\
  (forall cp : Z, validateCodepoint cp = true -> decodeChar cp = Ok (utf16 cp)) /\
  (forall cp : Z, validateCodepoint cp = false ->
                  decodeChar cp = Ok [239; 191; 189]).
Proof.
  split; [exact validateCodepoint_spec|].
  repeat split; try reflexivity.
  - intros cp H. unfold decodeChar. rewrite H.
    apply validateCodepoint_spec in H.
    unfold codepointToUtf8, fromCodePoint, utf16.
    destruct (cp <? 0) eqn:E0; [apply Z.ltb_lt in E0; lia|].
    destruct (1114111 <? cp) eqn:E1; [apply Z.ltb_lt in E1; lia|].
    simpl. now destruct (cp <? 65536).
  - intros cp H. unfold decodeChar. now rewrite H.
Qed.

(* ================================================================== *)
(** * Ids *)

Lemma flat_map_single (f : Z -> Z) (P : Z -> bool) (t : Z) (s : jsstring) :
  (forall c, f c = if P c then t else c) ->
  flat_map (fun c => if P c then [t] else [c]) s = map f s.
Proof.
  intros H. induction s as [|c s IH]; [reflexivity|].
  simpl. rewrite IH, H. now destruct (P c).
Qed.

Lemma replace_reSpace (id : jsstring) :
  replace reSpace (js "_") id = spacesToUnderscores id.
Proof.
  rewrite (replace_unit reSpace (chrMatches false 32) (fun _ => []));
    [|reflexivity|apply unit_Chr].
  apply flat_map_single. intros c. unfold chrMatches.
  rewrite orb_false_r, Z.eqb_sym. reflexivity.
Qed.

Lemma replace_rePercent (id : jsstring) :
  replace rePercent (js ".") id = percentsToDots id.
Proof.
  rewrite (replace_unit rePercent (chrMatches false 37) (fun _ => []));
    [|reflexivity|apply unit_Chr].
  apply flat_map_single. intros c. unfold chrMatches.
  rewrite orb_false_r, Z.eqb_sym. reflexivity.
Qed.

Lemma startsWith_length (p s : jsstring) :
  startsWith p s = true -> firstn (length p) s = p.
Proof.
  revert s. induction p as [|x p IH]; intros [|y s]; simpl; try discriminate;
    try reflexivity.
  rewrite andb_true_iff, Z.eqb_eq. intros [-> H]. now rewrite IH.
Qed.

(** A literal text matches where the subject starts with it. *)
Lemma rmatch_lit (p : jsstring) :
  p <> [] ->
  forall st cont,
    rmatch false (lit p) st cont =
    if startsWith p (rest st)
    then cont (MState (pos st + length p) (skipn (length p) (rest st)) (caps st))
    else None.
Proof.
  induction p as [|c p IH]; [congruence|]. intros _ st cont.
  destruct p as [|d p].
  - simpl. destruct (rest st) as [|x s']; [reflexivity|].
    unfold chrMatches. rewrite andb_true_r, orb_false_r.
    destruct (c =? x); [|reflexivity].
    unfold advance. now rewrite Nat.add_1_r.
  - change (lit (c :: d :: p)) with (Seq (Chr c) (lit (d :: p))).
    cbn [rmatch]. destruct (rest st) as [|x s'] eqn:E; [reflexivity|].
    change (startsWith (c :: d :: p) (x :: s'))
      with ((c =? x) && startsWith (d :: p) s').
    unfold chrMatches. rewrite orb_false_r. destruct (c =? x); [|reflexivity].
    rewrite IH by discriminate. unfold advance. cbn [rest pos caps andb].
    destruct (startsWith (d :: p) s'); [|reflexivity].
    f_equal. f_equal. simpl. lia.
Qed.

Lemma matchAt_lit (p : jsstring) (g : bool) (i : nat) (s : jsstring) :
  p <> [] ->
  matchAt (mkRegExp (lit p) false g) i s =
  if startsWith p s then Some (Match i p []) else None.
Proof.
  intros Hp. unfold matchAt. cbn [source ignoreCase]. rewrite rmatch_lit by assumption.
  cbn [rest pos caps]. destruct (startsWith p s) eqn:E; [|reflexivity].
  cbn [pos caps].
  replace (i + length p - i)%nat with (length p) by lia.
  now rewrite (startsWith_length p s E).
Qed.

(** Replacing a literal text with the g flag replaces its occurrences from
    left to right. *)
Lemma replace_lit (p t s : jsstring) :
  p <> [] ->
  replace (mkRegExp (lit p) false true) t s = replaceEvery p t s.
Proof.
  intros Hp. unfold replace, replaceFn, scan, replaceEvery. cbn [global].
  generalize O at 1 as i. generalize O as skip.
  induction s as [|c s IH]; intros skip i.
  - destruct skip; simpl; [|reflexivity].
    rewrite matchAt_lit by assumption.
    destruct p; [congruence | reflexivity].
  - destruct skip as [|skip]; simpl; [|apply IH].
    rewrite matchAt_lit by assumption.
    destruct (startsWith p (c :: s)) eqn:E.
    + cbn [matched flat_map]. destruct p as [|x p]; [congruence|].
      replace (length (x :: p) - 1)%nat with (length p) by (simpl; lia).
      cbn [length]. now rewrite IH.
    + simpl. now rewrite IH.
Qed.

Lemma replace_rePercent3A (e : jsstring) :
  replace rePercent3A (js ":") e = replaceEvery (js "%3A") (js ":") e.
Proof. apply (replace_lit (js "%3A")). discriminate. Qed.

(** C6.  In mode html5 escapeIdInternal turns every space into an underscore
    and changes nothing else; in mode legacy it does the same, applies
    phpURLEncode, turns every %3A into a colon and then every % into a dot;
    for any other mode it throws. *)
Theorem escapeIdInternal_modes :
  (forall id, escapeIdInternal id (js "html5") = Ok (spacesToUnderscores id)) /\
  escapeIdInternal (js " a b") (js "html5") = Ok (js "_a_b") /\
  (forall id,
     escapeIdInternal id (js "legacy") =
     (e <- phpURLEncode (spacesToUnderscores id) ;;
      Ok (percentsToDots (replaceEvery (js "%3A") (js ":") e)))) /\
  escapeIdInternal (js " a:b") (js "legacy") = Ok (js "_a:b") /\
  escapeIdInternal (js "a/b") (js "legacy") = Ok (js "a.2Fb") /\
  (forall id mode, mode <> js "html5" -> mode <> js "legacy" ->
     escapeIdInternal id mode = Throw (Error (js "Invalid mode: " ++ mode))).
Proof.
  repeat split.
  - intros id. unfold escapeIdInternal. simpl. now rewrite replace_reSpace.
  - intros id. unfold escapeIdInternal. simpl. rewrite replace_reSpace.
    destruct (phpURLEncode (spacesToUnderscores id)); cbn [bind]; [|reflexivity].
    now rewrite replace_rePercent3A, replace_rePercent.
  - intros id mode H5 HL. unfold escapeIdInternal.
    apply streq_neq in H5, HL. now rewrite H5, HL.
Qed.

(* ================================================================== *)
(** * CSS *)

(** C8.  normalizeCss is not idempotent: normalizing [&amp;amp;] gives
    [&amp;], and normalizing that gives [&]. *)
Theorem normalizeCss_not_idempotent :
  exists x y z : jsstring,
    normalizeCss x = Ok y /\ normalizeCss y = Ok z /\ z <> y.
Proof.
  exists (js "&amp;amp;"), (js "&amp;"), (js "&").
  repeat split; try reflexivity. discriminate.
Qed.

Lemma startsWith_spec (p s : jsstring) :
  startsWith p s = true <-> exists post, s = p ++ post.
Proof.
  revert s. induction p as [|x p IH]; intros s; simpl.
  - split; [intros _; now exists s | reflexivity].
  - destruct s as [|y s].
    + split; [discriminate | intros [post H]; discriminate].
    + rewrite andb_true_iff, Z.eqb_eq, IH. split.
      * intros [-> [post ->]]. now exists post.
      * intros [post H]. injection H as -> ->. split; [reflexivity | now exists post].
Qed.

Lemma indexOf_unfold (p s : jsstring) :
  indexOf p s =
  if startsWith p s then Some O
  else match s with
       | [] => None
       | _ :: s' => option_map S (indexOf p s')
       end.
Proof. destruct s; reflexivity. Qed.

(** [indexOf] finds exactly the texts that occur. *)
Lemma indexOf_occursIn (p s : jsstring) :
  (exists i, indexOf p s = Some i) <-> occursIn p s.
Proof.
  split.
  - intros [i H]. revert i H. induction s as [|c s IH]; intros i;
      rewrite indexOf_unfold.
    + destruct (startsWith p []) eqn:E; [|discriminate].
      intros _. apply startsWith_spec in E as [post E].
      exists [], post. assumption.
    + destruct (startsWith p (c :: s)) eqn:E.
      * intros _. apply startsWith_spec in E as [post E].
        exists [], post. assumption.
      * destruct (indexOf p s) as [j|] eqn:Ej; [|discriminate].
        intros _. destruct (IH j eq_refl) as (pre & post & ->).
        exists (c :: pre), post. reflexivity.
  - intros (pre & post & ->). induction pre as [|c pre IH];
      rewrite indexOf_unfold.
    + assert (E : startsWith p (p ++ post) = true)
        by (apply startsWith_spec; now exists post).
      simpl app. rewrite E. eauto.
    + simpl app. destruct (startsWith p (c :: pre ++ p ++ post)); [eauto|].
      destruct IH as [i ->]. simpl. eauto.
Qed.

Lemma test_reControlChars (s : jsstring) :
  test reControlChars s = existsb cssControlChar s.
Proof.
  rewrite (test_unit reControlChars
             (clsMatches false false [ (0, 8); c1 11; (14, 31); c1 127 ])
             (fun _ => [])); [|apply unit_Cls].
  induction s as [|c s IH]; [reflexivity|]. simpl existsb. rewrite IH.
  f_equal. unfold clsMatches, cssControlChar, inRanges, c1. simpl.
  charclass.
Qed.

Lemma existsb_Exists (P : Z -> bool) (s : jsstring) :
  existsb P s = true <-> Exists (fun c => P c = true) s.
Proof.
  rewrite existsb_exists, Exists_exists. reflexivity.
Qed.

(** What checkCss does with the normalized text. *)
Lemma checkCss_cases (t n : jsstring) :
  normalizeCss t = Ok n ->
  ((Exists (fun c => cssControlChar c = true) n \/ occursIn UTF8_REPLACEMENT n) ->
   checkCss t = Ok (js "/* invalid control char */")) /\
  (~ (Exists (fun c => cssControlChar c = true) n \/ occursIn UTF8_REPLACEMENT n) ->
   test insecureRE n = true ->
   checkCss t = Ok (js "/* insecure input */")) /\
  (~ (Exists (fun c => cssControlChar c = true) n \/ occursIn UTF8_REPLACEMENT n) ->
   test insecureRE n = false ->
   checkCss t = Ok n).
Proof.
  intros Hn. unfold checkCss. rewrite Hn. simpl bind.
  rewrite test_reControlChars.
  assert (Hbad :
    existsb cssControlChar n
    || match indexOf UTF8_REPLACEMENT n with Some _ => true | None => false end
    = true <->
    Exists (fun c => cssControlChar c = true) n \/ occursIn UTF8_REPLACEMENT n).
  { rewrite orb_true_iff, existsb_Exists, <- indexOf_occursIn.
    destruct (indexOf UTF8_REPLACEMENT n) as [i|].
    - split; intros _; right; eauto.
    - split; (intros [H|H]; [now left|]); [discriminate | now destruct H]. }
  destruct (existsb cssControlChar n
            || match indexOf UTF8_REPLACEMENT n with
               | Some _ => true
               | None => false
               end) eqn:E.
  - repeat split; intros; try reflexivity; exfalso; tauto.
  - assert (Hno : ~ (Exists (fun c => cssControlChar c = true) n
                     \/ occursIn UTF8_REPLACEMENT n))
      by (intros H; apply Hbad in H; discriminate).
    repeat split; intros; try tauto.
    + now rewrite H0.
    + now rewrite H0.
Qed.

(** C3, as amended.  Whenever normalizeCss returns a text, checkCss returns
    ['/* invalid control char */'] if that text contains a control character
    of [0x00-0x08], 0x0B, [0x0E-0x1F], 0x7F or the replacement text,
    otherwise ['/* insecure input */'] if it matches insecureRE, otherwise
    the text itself.  For ['color: expression(alert(1))'] the result is
    ['/* insecure input */']. *)
Theorem checkCss_spec :
  (forall t n : jsstring,
     normalizeCss t = Ok n ->
     ((Exists (fun c => cssControlChar c = true) n \/
       occursIn UTF8_REPLACEMENT n) ->
      checkCss t = Ok (js "/* invalid control char */")) /\
     (~ (Exists (fun c => cssControlChar c = true) n \/
         occursIn UTF8_REPLACEMENT n) ->
      test insecureRE n = true ->
      checkCss t = Ok (js "/* insecure input */")) /\
     (~ cssRejected n -> checkCss t = Ok n)) /\
  normalizeCss (js "color: expression(alert(1))")
  = Ok (js "color: expression(alert(1))") /\
  checkCss (js "color: expression(alert(1))") = Ok (js "/* insecure input */").
Proof.
  split; [|split; reflexivity].
  intros t n Hn. destruct (checkCss_cases t n Hn) as (H1 & H2 & H3).
  split; [assumption|]. split; [assumption|].
  intros Hno. apply H3.
  - unfold cssRejected in Hno. tauto.
  - destruct (test insecureRE n) eqn:E; [|reflexivity].
    exfalso. apply Hno. unfold cssRejected. tauto.
Qed.

(** An exception of normalizeCss, such as the RangeError of
    [String.fromCodePoint] for the escape [\110000], goes through checkCss. *)
Lemma checkCss_propagates (t : jsstring) (e : JSError) :
  normalizeCss t = Throw e -> checkCss t = Throw e.
Proof. intros He. unfold checkCss. now rewrite He. Qed.

(** C3, as stated: there is no single placeholder that checkCss returns for
    every refused text; a control character and [expression] give two
    different ones. *)
Lemma checkCss_two_placeholders :
  ~ exists placeholder : jsstring,
      forall t n : jsstring,
        normalizeCss t = Ok n -> cssRejected n ->
        checkCss t = Ok placeholder.
Proof.
  intros [p H].
  assert (H1 := H [1] [1] eq_refl).
  assert (H2 := H (js "expression") (js "expression") eq_refl).
  assert (R1 : cssRejected [1]) by (left; now constructor).
  assert (R2 : cssRejected (js "expression")) by (right; right; reflexivity).
  specialize (H1 R1). specialize (H2 R2).
  vm_compute in H1, H2. congruence.
Qed.

(* ================================================================== *)
(** * URLs *)

Lemma rmatch_Seq (ic : bool) (r1 r2 : regex) (st : mstate)
    (cont : mstate -> option mstate) :
  rmatch ic (Seq r1 r2) st cont =
  rmatch ic r1 st (fun st1 => rmatch ic r2 st1 cont).
Proof. reflexivity. Qed.

Lemma rmatch_Grp (ic : bool) (n : nat) (r : regex) (st : mstate)
    (cont : mstate -> option mstate) :
  rmatch ic (Grp n r) st cont =
  rmatch ic r st (fun st' =>
    cont (MState (pos st') (rest st')
            ((n, firstn (pos st' - pos st) (rest st)) :: caps st'))).
Proof. reflexivity. Qed.

Lemma rmatch_Bol (ic : bool) (st : mstate) (cont : mstate -> option mstate) :
  rmatch ic Bol st cont = if Nat.eqb (pos st) O then cont st else None.
Proof. reflexivity. Qed.

(** Groups that are set stay set. *)
Lemma rmatch_groups_kept (gs : list nat) (ic : bool) (r : regex) :
  forall st cont res,
    Forall (fun g => group g (caps st) <> None) gs ->
    rmatch ic r st cont = Some res ->
    exists st', Forall (fun g => group g (caps st') <> None) gs /\
                cont st' = Some res.
Proof.
  apply (rmatch_invariant
           (fun st => Forall (fun g => group g (caps st) <> None) gs)).
  - intros st x s' _ H. exact H.
  - intros st st' n _ H. simpl. eapply Forall_impl; [|exact H].
    intros g Hg. simpl. now destruct (Nat.eqb n g).
  - intros st st' _ H. exact H.
Qed.

Lemma arg_defined (n : nat) (m : matchResult) :
  group n (groups m) <> None -> exists s, arg n m = VStr s.
Proof.
  unfold arg. destruct (group n (groups m)) as [s|]; [eauto | congruence].
Qed.

(** A match of a pattern made of three groups in a row, anchored at the
    start, sets all three. *)
Lemma three_groups (ic : bool) (r1 r2 r3 : regex) (st res : mstate) :
  rmatch ic (seqs [ Bol; Grp 1 r1; Grp 2 r2; Grp 3 r3 ]) st
         (fun st' => Some st') = Some res ->
  Forall (fun g => group g (caps res) <> None) [ 1%nat; 2%nat; 3%nat ].
Proof.
  cbn [seqs]. rewrite rmatch_Seq, rmatch_Bol.
  destruct (Nat.eqb (pos st) O); [|discriminate].
  rewrite rmatch_Seq, rmatch_Grp. intros H.
  apply rmatch_continues in H as [st1 H].
  rewrite rmatch_Seq, rmatch_Grp in H.
  apply (rmatch_groups_kept [ 1%nat ]) in H as (st2 & H2 & H).
  2:{ constructor; [|constructor]. simpl. discriminate. }
  rewrite rmatch_Grp in H.
  apply (rmatch_groups_kept [ 1%nat; 2%nat ]) in H as (st3 & H3 & H).
  2:{ inversion H2; subst. repeat constructor; simpl; [assumption|discriminate]. }
  injection H as <-. simpl.
  inversion H3 as [|? ? Ha Hb]; subst. inversion Hb as [|? ? Hc _]; subst.
  repeat constructor; simpl; auto. discriminate.
Qed.

Lemma searchFrom_matchAt (re : RegExp) (s : jsstring) :
  forall p m, searchFrom re p s = Some m ->
  exists p' s', matchAt re p' s' = Some m.
Proof.
  induction s as [|c s IH]; intros p m; simpl.
  - destruct (matchAt re p []) eqn:E; [|discriminate].
    intros H. injection H as <-. eauto.
  - destruct (matchAt re p (c :: s)) eqn:E.
    + intros H. injection H as <-. eauto.
    + apply IH.
Qed.

(** The three parts cleanUrl takes from a match are strings. *)
Lemma reUrlBits_groups (href : jsstring) (bits : matchResult) :
  exec reUrlBits href = Some bits ->
  exists proto host path,
    arg 1 bits = VStr proto /\ arg 2 bits = VStr host /\ arg 3 bits = VStr path.
Proof.
  intros H. apply searchFrom_matchAt in H as (p & s & H).
  unfold matchAt in H.
  destruct (rmatch _ _ _ _) as [st|] eqn:E; [|discriminate].
  injection H as <-.
  unfold reUrlBits in E. cbn [source ignoreCase] in E.
  apply three_groups in E.
  inversion E as [|? ? H1 E']; subst. inversion E' as [|? ? H2 E'']; subst.
  inversion E'' as [|? ? H3 _]; subst.
  destruct (arg_defined 1 (Match p (firstn (pos st - p) s) (caps st)) H1) as [a1 ->].
  destruct (arg_defined 2 (Match p (firstn (pos st - p) s) (caps st)) H2) as [a2 ->].
  destruct (arg_defined 3 (Match p (firstn (pos st - p) s) (caps st)) H3) as [a3 ->].
  eauto 6.
Qed.

Lemma unit_reUrlEscape :
  unitPatternG false (source reUrlEscape) urlEscapedChar (fun x => [ (1%nat, [x]) ]).
Proof.
  apply unitPattern_ext with
    (P := clsMatches false false [ c1 93; c1 91; c1 60; c1 62; c1 34; (0, 32);
                                   c1 127; c1 124 ]).
  - intros c. unfold clsMatches, urlEscapedChar, inRanges, c1. simpl.
    charclass.
  - apply (unit_Grp false 1 _ _ (fun _ => [])). apply unit_Cls.
Qed.

(** The first step of cleanUrl. *)
Lemma cleanUrl_escape (mode href : jsstring) :
  (if negb (streq mode (js "wikilink"))
   then replaceWith reUrlEscape (fun m => phpURLEncode (matched m)) href
   else Ok href) = escapedHref mode href.
Proof.
  unfold escapedHref. destruct (negb (streq mode (js "wikilink"))); [|reflexivity].
  apply (replaceWith_unit reUrlEscape urlEscapedChar (fun x => [ (1%nat, [x]) ]));
    [reflexivity | apply unit_reUrlEscape | reflexivity].
Qed.

Lemma phpURLEncode_escaped (c : Z) :
  urlEscapedChar c = true -> exists r, phpURLEncode [c] = Ok r.
Proof.
  intros H. unfold phpURLEncode. cbn [encodeURIComponent].
  assert (Hc : 0 <= c <= 127).
  { unfold urlEscapedChar in H.
    rewrite !orb_true_iff, !andb_true_iff, !Z.eqb_eq, !Z.leb_le in H. lia. }
  destruct (uriUnreserved c); [simpl; eauto|].
  assert (HL : isLowSurrogate c = false) by (unfold isLowSurrogate; charclass).
  assert (HH : isHighSurrogate c = false) by (unfold isHighSurrogate; charclass).
  rewrite HL, HH. simpl. eauto.
Qed.

(** The escaping of cleanUrl never raises. *)
Lemma escapedHref_total (mode href : jsstring) :
  exists href', escapedHref mode href = Ok href'.
Proof.
  unfold escapedHref. destruct (negb (streq mode (js "wikilink"))); [|eauto].
  assert (H : exists parts,
             mapM (fun c => if urlEscapedChar c then phpURLEncode [c] else Ok [c])
                  href = Ok parts).
  { induction href as [|c href [parts IH]]; simpl; [eauto|].
    rewrite IH. destruct (urlEscapedChar c) eqn:E.
    - destruct (phpURLEncode_escaped c E) as [r ->]. simpl. eauto.
    - simpl. eauto. }
  destruct H as [parts ->]. simpl. eauto.
Qed.

Lemma cleanUrl_rejects (conf : Conf) (href mode href' proto : jsstring) :
  escapedHref mode href = Ok href' ->
  parsedProtocol href' = Some proto ->
  proto <> [] ->
  hasValidProtocol conf proto = false ->
  cleanUrl conf href mode = Ok None.
Proof.
  intros He Hp Hne Hv. unfold cleanUrl. rewrite cleanUrl_escape, He.
  simpl bind. unfold parsedProtocol in Hp.
  destruct (exec reUrlBits href') as [bits|] eqn:E; [|discriminate].
  injection Hp as Hp.
  destruct (reUrlBits_groups href' bits E) as (p & h & q & H1 & H2 & H3).
  rewrite H1 in *. simpl in Hp. subst p.
  destruct proto as [|c proto]; [congruence|].
  simpl. now rewrite Hv.
Qed.

(** C2, as amended.  cleanUrl returns null whenever the protocol prefix it
    parses is non-empty and the validator of the caller rejects it (the
    string it parses is the input, with the characters of the escape set
    percent-encoded by phpURLEncode outside wikilinks, which never fails).
    With a validator for http and https, ['javascript:alert(1)'] gives
    null, and ['http://example.com/a b'] gives the URL with the space
    encoded as [+]. *)
Theorem cleanUrl_protocol :
  (forall (conf : Conf) (href mode : jsstring),
     exists href' : jsstring,
       escapedHref mode href = Ok href' /\
       forall proto : jsstring,
         parsedProtocol href' = Some proto ->
         proto <> [] ->
         hasValidProtocol conf proto = false ->
         cleanUrl conf href mode = Ok None) /\
  parsedProtocol (js "javascript:alert(1)") = Some (js "javascript:") /\
  cleanUrl httpOnly (js "javascript:alert(1)") (js "external") = Ok None /\
  cleanUrl httpOnly (js "http://example.com/a b") (js "external")
  = Ok (Some (js "http://example.com/a+b")).
Proof.
  split; [|repeat split].
  intros conf href mode.
  destruct (escapedHref_total mode href) as [href' He].
  exists href'. split; [assumption|].
  intros proto. now apply cleanUrl_rejects.
Qed.

(** C2, as stated: the space of ['http://example.com/a b'] does not come
    back as [%20]. *)
Lemma cleanUrl_space_is_plus :
  cleanUrl httpOnly (js "http://example.com/a b") (js "external")
  = Ok (Some (js "http://example.com/a+b")) /\
  cleanUrl httpOnly (js "http://example.com/a b") (js "external")
  <> Ok (Some (js "http://example.com/a%20b")).
Proof. split; [reflexivity | discriminate]. Qed.

Lemma unit_IDN : unitPattern false (source IDN_RE_G) idnChar.
Proof.
  unfold unitPattern. eapply unitPattern_ext; cycle 1.
  - unfold IDN_RE_G. cbn [source alts].
    repeat (apply unit_Alt; [first [apply unit_Chr | apply unit_Cls]|]).
    apply unit_Cls.
  - intros c. unfold idnChar, chrMatches, clsMatches, inRanges, c1.
    cbn [existsb fst snd xorb andb orb]. charclass.
Qed.

Lemma flat_map_filter (P : Z -> bool) (s : jsstring) :
  flat_map (fun c => if P c then [] else [c]) s = filter (fun c => negb (P c)) s.
Proof.
  induction s as [|c s IH]; [reflexivity|]. simpl. rewrite IH.
  now destruct (P c).
Qed.

(** stripIDNs deletes the characters of [idnChar], tab and space among
    them, and keeps the others. *)
Lemma stripIDNs_filter (host : jsstring) :
  stripIDNs host = filter (fun c => negb (idnChar c)) host.
Proof.
  unfold stripIDNs.
  rewrite (replace_unit IDN_RE_G idnChar (fun _ => []));
    [apply flat_map_filter | reflexivity | apply unit_IDN].
Qed.

Lemma stripIDNs_notBlank (host : jsstring) : Forall notBlank (stripIDNs host).
Proof.
  rewrite stripIDNs_filter. apply Forall_forall. intros c Hc.
  apply filter_In in Hc as [_ Hc]. apply negb_true_iff in Hc.
  unfold idnChar in Hc. rewrite !orb_false_iff, !Z.eqb_neq in Hc.
  unfold notBlank. tauto.
Qed.

Lemma ToString_arg_allChars (P : Z -> Prop) (n : nat) (m : matchResult) :
  Forall P (js "undefined") ->
  Forall (fun c => Forall P (snd c)) (groups m) ->
  Forall P (ToString (arg n m)).
Proof.
  intros Hu Hg. unfold arg. destruct (group n (groups m)) as [s|] eqn:E.
  - simpl. now apply (group_allChars P n (groups m)).
  - exact Hu.
Qed.

Lemma notBlank_In (s : jsstring) : Forall notBlank s -> ~ In 9 s /\ ~ In 32 s.
Proof.
  intros H. rewrite Forall_forall in H. split; intros Hin;
    apply H in Hin; unfold notBlank in Hin; lia.
Qed.

(** cleanUrl on a wikilink whose protocol is empty or accepted. *)
Lemma cleanUrl_wikilink (conf : Conf) (href proto host path : jsstring) :
  parsedUrl href = Some (proto, host, path) ->
  (proto <> [] -> hasValidProtocol conf proto = true) ->
  exists host',
    cleanUrl conf href (js "wikilink") = Ok (Some (proto ++ host' ++ path)) /\
    Forall notBlank host' /\
    (exec reIPv6Host (stripIDNs host) = None -> host' = stripIDNs host).
Proof.
  intros Hp Hv. unfold parsedUrl in Hp.
  destruct (exec reUrlBits href) as [bits|] eqn:E; [|discriminate].
  injection Hp as H1 H2 H3.
  destruct (reUrlBits_groups href bits E) as (p & h & q & A1 & A2 & A3).
  rewrite A1 in H1. rewrite A2 in H2. rewrite A3 in H3.
  simpl in H1, H2, H3. subst p h q.
  unfold cleanUrl. rewrite cleanUrl_escape. unfold escapedHref.
  replace (negb (streq (js "wikilink") (js "wikilink"))) with false by reflexivity.
  cbn [bind]. rewrite E, A1, A2, A3. cbn [ToString].
  assert (Hc : truthy (VStr proto) && negb (hasValidProtocol conf proto) = false).
  { destruct proto as [|c proto]; [reflexivity|].
    simpl. rewrite Hv; [reflexivity | discriminate]. }
  rewrite Hc.
  destruct (exec reIPv6Host (stripIDNs host)) as [m|] eqn:E6.
  - eexists. split; [reflexivity|]. split; [|discriminate].
    destruct (exec_allChars notBlank reIPv6Host (stripIDNs host) m
                (stripIDNs_notBlank host) E6) as [_ Hg].
    assert (Hu : Forall notBlank (js "undefined"))
      by (repeat constructor; discriminate).
    repeat (apply Forall_app; split);
      try (now apply ToString_arg_allChars);
      repeat constructor; discriminate.
  - exists (stripIDNs host). split; [reflexivity|].
    split; [apply stripIDNs_notBlank | reflexivity].
Qed.

(** C10.  stripIDNs deletes tabs and spaces along with the invisible
    characters; so the host of a wikilink that cleanUrl returns (its
    protocol being empty or accepted) has no tab and no space: it is the
    host of the input with those characters deleted, or its IPv6 form. *)
Theorem stripIDNs_whitespace :
  (forall host : jsstring,
     stripIDNs host = filter (fun c => negb (idnChar c)) host) /\
  idnChar 9 = true /\ idnChar 32 = true /\
  (forall host : jsstring, ~ In 9 (stripIDNs host) /\ ~ In 32 (stripIDNs host)) /\
  (forall (conf : Conf) (href proto host path : jsstring),
     parsedUrl href = Some (proto, host, path) ->
     (proto <> [] -> hasValidProtocol conf proto = true) ->
     exists host' : jsstring,
       cleanUrl conf href (js "wikilink") = Ok (Some (proto ++ host' ++ path)) /\
       ~ In 9 host' /\ ~ In 32 host' /\
       (exec reIPv6Host (stripIDNs host) = None -> host' = stripIDNs host)) /\
  parsedUrl (js "http://exa mple.com/a b")
  = Some (js "http://", js "exa mple.com", js "/a b") /\
  cleanUrl httpOnly (js "http://exa mple.com/a b") (js "wikilink")
  = Ok (Some (js "http://example.com/a b")).
Proof.
  split; [exact stripIDNs_filter|].
  split; [reflexivity|]. split; [reflexivity|].
  split; [intros host; apply notBlank_In, stripIDNs_notBlank|].
  split; [|split; reflexivity].
  intros conf href proto host path Hp Hv.
  destruct (cleanUrl_wikilink conf href proto host path Hp Hv)
    as (host' & H1 & H2 & H3).
  exists host'. apply notBlank_In in H2 as [Ha Hb]. auto.
Qed.

(* ================================================================== *)
(** * Attribute sanitization *)

Lemma proposalsOK_put (wlist : whitelist) (attrs : list KV)
    (newAttrs : obj (option proposal)) (key : jsstring)
    (newV : option jsstring) (orig : jsval) (origK : jsstring) :
  proposalsOK wlist attrs newAttrs ->
  (newV <> None -> mayStay wlist attrs key) ->
  proposalsOK wlist attrs (obj_set key (Some (newV, orig, origK)) newAttrs).
Proof.
  intros H Hk q val o ok Hin. apply obj_set_In in Hin as [[-> E]|Hin].
  - injection E as <- _ _. apply Hk. discriminate.
  - eapply H; eassumption.
Qed.

Lemma proposalsOK_undefined (wlist : whitelist) (attrs : list KV)
    (newAttrs : obj (option proposal)) (key : jsstring) :
  proposalsOK wlist attrs newAttrs ->
  proposalsOK wlist attrs (obj_set key None newAttrs).
Proof.
  intros H q val o ok Hin. apply obj_set_In in Hin as [[_ E]|Hin].
  - discriminate.
  - eapply H; eassumption.
Qed.

(** One round of the loop keeps the proposals in order. *)
Lemma sanitizeAttr_proposalsOK (conf : Conf) (wlist : whitelist)
    (token : option TagToken) (attrs : list KV) (attr : KV)
    (newAttrs : obj (option proposal)) (o : outcome) :
  In attr attrs ->
  proposalsOK wlist attrs newAttrs ->
  sanitizeAttr conf wlist token attrs attr newAttrs = Ok o ->
  proposalsOK wlist attrs (outcomeAttrs o).
Proof.
  intros Hin Hok. unfold sanitizeAttr. cbv zeta.
  set (key := toLowerCase (k attr)).
  set (origV := VStr (orString (vsrc attr) (v attr))).
  set (origK := orString (ksrc attr) (k attr)).
  (* the first checks: either the attribute is refused, or its key may stay *)
  match goal with
  | |- bind ?m _ = _ -> _ =>
      assert (Hv : forall r, m = Ok r ->
                match r with
                | Some n => proposalsOK wlist attrs n
                | None => mayStay wlist attrs key
                end);
      [| destruct m as [[n|]|e] eqn:Ev; cbn [bind];
         [ specialize (Hv _ eq_refl) | specialize (Hv _ eq_refl) | discriminate ] ]
  end.
  { destruct (isParsoidAttr key (v attr) attrs) eqn:Epsd; cbn [negb].
    - intros r E. injection E as <-. left. exists attr. auto.
    - destruct (test getAttribsRegex key) eqn:Ereg; cbn [negb].
      + destruct (allowRdfaAttrs config && test XMLNS_ATTRIBUTE_RE key) eqn:Ex.
        * apply andb_true_iff in Ex as [Ex1 Ex2].
          destruct (negb (test EVIL_URI_RE (v attr)));
            intros r E; injection E as <-; apply proposalsOK_put; auto;
            try congruence.
          intros _. right. split; [assumption|]. left. now split.
        * destruct (html5Mode config && test reDataAttr key) eqn:Ed; cbn [negb].
          -- intros r E. injection E as <-.
             apply andb_true_iff in Ed as [Ed1 Ed2].
             right. split; [assumption|]. right. left. now split.
          -- destruct (wlistHas wlist key) as [listed|] eqn:Ew; cbn [bind];
               [|discriminate].
             destruct listed; cbn [negb]; intros r E; injection E as <-.
             ++ right. split; [assumption|]. right. now right.
             ++ apply proposalsOK_put; auto. congruence.
      + intros r E. injection E as <-. apply proposalsOK_put; auto. congruence. }
  - (* refused or settled by the first checks *)
    intros E. injection E as <-. exact Hv.
  - (* the key may stay: whatever is proposed for it is in order *)
    assert (Hput : forall newV orig,
               proposalsOK wlist attrs (obj_set key (Some (newV, orig, origK)) newAttrs))
      by (intros; apply proposalsOK_put; auto).
    destruct (if streq key (js "style") then checkCss (v attr) else Ok (v attr))
      as [val1|]; cbn [bind]; [|discriminate].
    destruct (if streq key (js "id") then escapeIdForAttribute val1 false else Ok val1)
      as [val2|]; cbn [bind]; [|discriminate].
    destruct (setHas microData key && test EVIL_URI_RE val2).
    + intros E. injection E as <-. apply Hput.
    + match goal with
      | |- bind ?m _ = _ -> _ => destruct m as [[n|]|e] eqn:Eu; cbn [bind];
                                 [| |discriminate]
      end.
      * intros E. injection E as <-. cbn [outcomeAttrs].
        destruct token as [tk|]; [|discriminate].
        destruct (streq key (js "href") || streq key (js "src")
                  || streq key (js "poster")); [|discriminate].
        destruct (cleanUrl conf val2 _) as [newHref|]; cbn [bind] in Eu;
          [|discriminate].
        destruct (negb (strict_eq (of_nullable newHref) (VStr val2)));
          [|discriminate].
        injection Eu as <-. apply Hput.
      * destruct token as [tk|].
        -- destruct (negb (allowMicrodataAttrs config)).
           ++ destruct (obj_get _ (js "itemscope")) as [[p|]|];
                intros E; injection E as <-; cbn [outcomeAttrs];
                try apply Hput;
                repeat apply proposalsOK_undefined; apply Hput.
           ++ intros E. injection E as <-. apply Hput.
        -- intros E. injection E as <-. exact Hok.
Qed.

Lemma sanitizeAttrs_proposalsOK (conf : Conf) (wlist : whitelist)
    (token : option TagToken) (attrs : list KV) :
  forall todo newAttrs result,
    incl todo attrs ->
    proposalsOK wlist attrs newAttrs ->
    sanitizeAttrs conf wlist token attrs todo newAttrs = Ok result ->
    proposalsOK wlist attrs result.
Proof.
  induction todo as [|attr todo IH]; intros newAttrs result Hincl Hok; simpl.
  - intros E. now injection E as <-.
  - destruct (sanitizeAttr conf wlist token attrs attr newAttrs) as [o|] eqn:Eo;
      cbn [bind]; [|discriminate].
    apply sanitizeAttr_proposalsOK in Eo; [|apply Hincl; now left|assumption].
    destruct o as [n|n]; cbn [outcomeAttrs] in Eo.
    + apply IH; [|assumption]. intros x Hx. apply Hincl. now right.
    + intros E. now injection E as <-.
Qed.

Lemma attribs_setShadowInfo (nm : jsstring) (value orig : jsval) (t : TagToken) :
  attribs (setShadowInfo nm value orig t) = attribs t.
Proof. unfold setShadowInfo. now destruct (_ && _). Qed.

(** The attributes of the rebuilt token: those it had, then one for each
    proposal that carries a value. *)
Lemma applyProposals_attribs (es : list (jsstring * option proposal)) :
  forall t t', applyProposals t es = Ok t' ->
  forall kv, In kv (attribs t') ->
    In kv (attribs t) \/
    exists orig origK, In (k kv, Some (Some (v kv), orig, origK)) es.
Proof.
  induction es as [|[key p] es IH]; intros t t'; simpl.
  - intros E. injection E as <-. auto.
  - unfold applyProposal. cbn [fst snd].
    destruct p as [[[newV orig] origK]|]; cbn [bind]; [|discriminate].
    destruct newV as [val|]; cbn [bind]; intros E kv Hkv;
      destruct (IH _ _ E kv Hkv) as [Hin|(o & ok & Hin)]; eauto.
    + unfold addNormalizedAttribute in Hin.
      rewrite attribs_setShadowInfo in Hin. simpl in Hin.
      apply in_app_or in Hin as [Hin|[<-|[]]]; [now left|].
      right. simpl. eauto.
    + rewrite attribs_setShadowInfo in Hin. now left.
Qed.

(** The keys of the sanitized token. *)
Lemma sanitizeToken_mayStay (this : Receiver) (conf : Conf) (t : TagToken)
    (inTemplate : bool) (cache cache' : awlCache) (t' : TagToken) :
  constructorName t <> EndTagTk ->
  sanitizeToken this conf (Tag t) inTemplate cache = (Ok (inl (Tag t')), cache') ->
  forall kv, In kv (attribs t') ->
  exists wlist, fst (getAttrWhiteList cache (name t)) = Ok wlist /\
                mayStay wlist (attribs t) (k kv).
Proof.
  intros Hkind. unfold sanitizeToken.
  destruct (isHTMLTag (Tag t) && _).
  - (* the tag is turned into text *)
    destruct (negb inTemplate && _).
    + destruct (getWTSource t (this_conf this)); cbn [bind]; discriminate.
    + destruct (negb (isEndTag t)); discriminate.
  - destruct (attribs t) as [|a0 attrs0] eqn:Ea.
    + intros E. injection E as <- _. rewrite Ea. intros kv [].
    + assert (Hend : isEndTag t = false)
        by (unfold isEndTag; destruct (constructorName t); congruence).
      rewrite Hend. unfold sanitizeTagAttrs.
      destruct (getAttrWhiteList cache (name t)) as [wl c1] eqn:Ew.
      destruct wl as [wlist|e]; cbn [bind]; [|discriminate].
      destruct (sanitizeAttrs conf wlist (Some t) (a0 :: attrs0) (a0 :: attrs0) [])
        as [newAttrs|] eqn:Es; cbn [bind]; [|discriminate].
      destruct (applyProposals (withAttribs t []) (obj_entries newAttrs))
        as [t1|] eqn:Ep; cbn [bind]; [|discriminate].
      intros E. injection E as <- _. intros kv Hkv.
      exists wlist. split; [reflexivity|].
      destruct (applyProposals_attribs _ _ _ Ep kv Hkv) as [[]|(o & ok & Hin)].
      apply obj_entries_In in Hin.
      apply sanitizeAttrs_proposalsOK in Es.
      * eapply Es. eassumption.
      * apply incl_refl.
      * intros ? ? ? ? [].
Qed.

Lemma isParsoidAttr_ordinary (key val : jsstring) (attrs : list KV) :
  ordinaryKey key = true -> isParsoidAttr key val attrs = false.
Proof.
  unfold ordinaryKey, isParsoidAttr.
  rewrite !andb_true_iff, !negb_true_iff. intros (((((_ & _) & _) & H1) & H2) & H3).
  now rewrite H1, H2, H3.
Qed.

(** The checks an ordinary key goes through come down to the whitelist. *)
Lemma sanitizeAttr_ordinary (conf : Conf) (wlist : whitelist)
    (token : option TagToken) (attrs : list KV) (attr : KV)
    (newAttrs : obj (option proposal)) (key : jsstring) :
  toLowerCase (k attr) = key ->
  ordinaryKey key = true ->
  (forall e, wlistHas wlist key = Throw e ->
     sanitizeAttr conf wlist token attrs attr newAttrs = Throw e) /\
  (wlistHas wlist key = Ok false ->
     sanitizeAttr conf wlist token attrs attr newAttrs =
     Ok (Continue (obj_set key
           (Some (None, VStr (orString (vsrc attr) (v attr)),
                  orString (ksrc attr) (k attr))) newAttrs))) /\
  (wlistHas wlist key = Ok true -> plainKey key = true ->
   allowMicrodataAttrs config = true -> token <> None ->
     sanitizeAttr conf wlist token attrs attr newAttrs =
     Ok (Continue (obj_set key
           (Some (Some (v attr), VStr (orString (vsrc attr) (v attr)),
                  orString (ksrc attr) (k attr))) newAttrs))).
Proof.
  intros Hk Hord. unfold sanitizeAttr. cbv zeta. rewrite Hk.
  rewrite (isParsoidAttr_ordinary key (v attr) attrs Hord).
  unfold ordinaryKey in Hord.
  rewrite !andb_true_iff, !negb_true_iff in Hord.
  destruct Hord as (((((Hreg & Hx) & Hd) & _) & _) & _).
  rewrite Hreg, Hx, Hd, !andb_false_r. cbn [negb].
  split; [|split].
  - intros e ->. reflexivity.
  - intros ->. reflexivity.
  - intros -> Hplain Hmda Htok. cbn [bind negb].
    unfold plainKey in Hplain.
    rewrite !andb_true_iff, !negb_true_iff in Hplain.
    destruct Hplain as (((Hs & Hi) & Hm) & Hu).
    rewrite Hs, Hi. cbn [bind]. rewrite Hm. cbn [andb].
    destruct token as [tk|]; [|congruence].
    rewrite Hu. cbn [bind]. rewrite Hmda. reflexivity.
Qed.

(** The test of the sources: on a tag whose whitelist is [{foo}], [foo=bar]
    stays and [bar=foo] goes, leaving its trace in the shadow maps. *)
Lemma sanitizeToken_fooBar (this : Receiver) (conf : Conf) (tagName : jsstring)
    (inTemplate : bool) (cache cache' : awlCache) :
  toLowerCase (js "foo") = js "foo" ->
  toLowerCase (js "bar") = js "bar" ->
  allowMicrodataAttrs config = true ->
  getAttrWhiteList cache tagName = (Ok (WSet [ js "foo" ]), cache') ->
  sanitizeToken this conf (Tag (fooBarTag tagName)) inTemplate cache =
  (Ok (inl (Tag (mkTag TagTk tagName [ newKV (js "foo") (js "bar") ]
                   (mkDataAttribs None None
                      (Some [ (js "bar", VNull) ])
                      (Some [ (js "bar", VStr (js "foo")) ]))))),
   cache').
Proof.
  intros Hfoo Hbar Hmda Hwl. unfold sanitizeToken, fooBarTag.
  cbn [isHTMLTag dataAttribs stx noDataAttribs andb attribs isEndTag
       constructorName name].
  unfold sanitizeTagAttrs. cbn [name]. rewrite Hwl. cbn [bind sanitizeAttrs].
  set (t := mkTag TagTk tagName _ noDataAttribs).
  destruct (sanitizeAttr_ordinary conf (WSet [ js "foo" ]) (Some t)
              (attribs t) (newKV (js "foo") (js "bar")) [] (js "foo")
              Hfoo eq_refl) as (_ & _ & H1).
  specialize (H1 eq_refl eq_refl Hmda ltac:(discriminate)).
  unfold t in H1 at 2. cbn [attribs] in H1. rewrite H1. cbn [bind].
  match goal with
  | |- context [sanitizeAttr conf ?w ?tk ?as_ ?at_ ?n] =>
      destruct (sanitizeAttr_ordinary conf w tk as_ at_ n (js "bar")
                  Hbar eq_refl) as (_ & H2 & _)
  end.
  rewrite (H2 eq_refl). reflexivity.
Qed.

Lemma mayStay_cases (wlist : whitelist) (attrs : list KV) (key : jsstring) :
  mayStay wlist attrs key ->
  validAndListed wlist key \/ xmlnsException key \/ dataException key \/
  internallyGenerated attrs key.
Proof.
  unfold mayStay, validAndListed. tauto.
Qed.

(** C1.  A tag or self-closing tag that sanitizeToken returns as a token
    only carries attribute keys that pass getAttribsRegex and are in the
    whitelist resolved for the tag, or are an xmlns declaration with RDFa
    enabled, a data attribute (not data-ooui) in HTML5 mode, or the key of
    an attribute recognized as inserted by Parsoid.  On a tag whose
    whitelist is [{foo}], with [foo=bar] and [bar=foo], the result has
    [foo] equal to [bar] and no [bar]. *)
Theorem sanitized_attribute_keys :
  (forall (this : Receiver) (conf : Conf) (t : TagToken) (inTemplate : bool)
          (cache cache' : awlCache) (token' : Token),
     constructorName t = TagTk \/ constructorName t = SelfclosingTagTk ->
     sanitizeToken this conf (Tag t) inTemplate cache = (Ok (inl token'), cache') ->
     exists t' : TagToken,
       token' = Tag t' /\
       forall kv : KV, In kv (attribs t') ->
         exists wlist : whitelist,
           fst (getAttrWhiteList cache (name t)) = Ok wlist /\
           (validAndListed wlist (k kv) \/ xmlnsException (k kv) \/
            dataException (k kv) \/ internallyGenerated (attribs t) (k kv))) /\
  (toLowerCase (js "foo") = js "foo" ->
   toLowerCase (js "bar") = js "bar" ->
   allowMicrodataAttrs config = true ->
   forall (this : Receiver) (conf : Conf) (tagName : jsstring)
          (inTemplate : bool) (cache cache' : awlCache),
     getAttrWhiteList cache tagName = (Ok (WSet [ js "foo" ]), cache') ->
     exists t' : TagToken,
       sanitizeToken this conf (Tag (fooBarTag tagName)) inTemplate cache
       = (Ok (inl (Tag t')), cache') /\
       getAttribute t' (js "foo") = Some (js "bar") /\
       getAttribute t' (js "bar") = None).
Proof.
  split.
  - intros this conf t inTemplate cache cache' token' Hkind Hs.
    assert (Hne : constructorName t <> EndTagTk)
      by (destruct Hkind as [-> | ->]; discriminate).
    assert (Ht : exists t', token' = Tag t').
    { revert Hs. unfold sanitizeToken.
      destruct (isHTMLTag (Tag t) && _).
      - destruct (negb inTemplate && _).
        + destruct (getWTSource t (this_conf this)); cbn [bind]; discriminate.
        + destruct (negb (isEndTag t)); discriminate.
      - destruct (attribs t).
        + intros E. injection E as <- _. eauto.
        + destruct (isEndTag t).
          * intros E. injection E as <- _. eauto.
          * destruct (sanitizeTagAttrs _ _ _ _ _) as [[newAttrs|] c1];
              cbn [bind]; [|discriminate].
            destruct (applyProposals _ _); cbn [bind]; [|discriminate].
            intros E. injection E as <- _. eauto. }
    destruct Ht as [t' ->]. exists t'. split; [reflexivity|].
    intros kv Hkv.
    destruct (sanitizeToken_mayStay this conf t inTemplate cache cache' t'
                Hne Hs kv Hkv) as (wlist & Hw & Hm).
    exists wlist. split; [assumption|]. now apply mayStay_cases.
  - intros Hfoo Hbar Hmda this conf tagName inTemplate cache cache' Hwl.
    eexists. split.
    + now apply sanitizeToken_fooBar.
    + split; reflexivity.
Qed.

(* ================================================================== *)
(** * Tags *)

Lemma tagSource_fold (l : list KV) (buf : jsstring) :
  fold_left (fun buf kv => buf ++ js " " ++ k kv ++ js "='" ++ v kv ++ js "'") l buf
  = buf ++ flat_map (fun kv => js " " ++ k kv ++ js "='" ++ v kv ++ js "'") l.
Proof.
  revert buf. induction l as [|kv l IH]; intros buf.
  - simpl. now rewrite app_nil_r.
  - cbn [fold_left flat_map]. rewrite IH. now rewrite <- !app_assoc.
Qed.

(** The text built for a tag: [<], the name, then for each attribute in
    order a space, the raw key, [='], the raw value and ['], then [ /] for a
    self-closing tag, then [>]. *)
Lemma tagSource_rawTagText (t : TagToken) : tagSource t = rawTagText t.
Proof.
  unfold tagSource, rawTagText. rewrite tagSource_fold.
  destruct (constructorName t); rewrite <- ?app_assoc; reflexivity.
Qed.

(** What sanitizeToken does with a disallowed tag. *)
Lemma sanitizeToken_disallowed (this : Receiver) (conf : Conf) (t : TagToken)
    (inTemplate : bool) (cache : awlCache) :
  disallowedTag t ->
  sanitizeToken this conf (Tag t) inTemplate cache =
  (if negb inTemplate &&
      (match tsr (dataAttribs t) with Some _ => true | None => false end)
   then src <- getWTSource t (this_conf this) ;; Ok (inr src)
   else if negb (isEndTag t) then Ok (inr (rawTagText t))
   else Ok (inr (js "</" ++ name t ++ js ">")),
   cache).
Proof.
  intros [Hh Hd]. unfold sanitizeToken. rewrite Hh.
  assert (E : negb (TagWhiteList (toUpperCase (name t)))
              || isEndTag t && setHas noEndTagSet (name t) = true).
  { destruct Hd as [-> | [Hk ->]]; [reflexivity|].
    unfold isEndTag. rewrite Hk. apply orb_true_r. }
  rewrite E. cbn [andb].
  destruct (negb inTemplate && _); [reflexivity|].
  destruct (negb (isEndTag t)); [|reflexivity].
  now rewrite tagSource_rawTagText.
Qed.

(** The parts of C4 that the code does: outside a template, with a source
    range and a receiver that carries the environment, the result is the
    source text of the range; without a source range, or in a template, a
    tag other than an end tag becomes its raw text and an end tag becomes
    [</name>]. *)
Lemma sanitizeToken_disallowed_text (this : Receiver) (conf : Conf)
    (t : TagToken) (inTemplate : bool) (cache : awlCache) :
  disallowedTag t ->
  (forall env start stop,
     inTemplate = false -> tsr (dataAttribs t) = Some (start, stop) ->
     this_conf this = Some env ->
     sanitizeToken this conf (Tag t) inTemplate cache
     = (Ok (inr (substring start stop (page_src env))), cache)) /\
  (inTemplate = true \/ tsr (dataAttribs t) = None ->
   constructorName t <> EndTagTk ->
   sanitizeToken this conf (Tag t) inTemplate cache
   = (Ok (inr (rawTagText t)), cache)) /\
  (inTemplate = true \/ tsr (dataAttribs t) = None ->
   constructorName t = EndTagTk ->
   sanitizeToken this conf (Tag t) inTemplate cache
   = (Ok (inr (js "</" ++ name t ++ js ">")), cache)).
Proof.
  intros Hd. rewrite (sanitizeToken_disallowed this conf t inTemplate cache Hd).
  split; [|split].
  - intros env start stop -> Ht He. rewrite Ht. cbn [negb andb].
    unfold getWTSource. now rewrite He, Ht.
  - intros Hno Hk.
    assert (E : negb inTemplate &&
                (match tsr (dataAttribs t) with Some _ => true | None => false end)
                = false) by (destruct Hno as [-> | ->]; [reflexivity | apply andb_false_r]).
    rewrite E. unfold isEndTag.
    destruct (constructorName t); [reflexivity | congruence | reflexivity].
  - intros Hno Hk.
    assert (E : negb inTemplate &&
                (match tsr (dataAttribs t) with Some _ => true | None => false end)
                = false) by (destruct Hno as [-> | ->]; [reflexivity | apply andb_false_r]).
    rewrite E. unfold isEndTag. now rewrite Hk.
Qed.

(** C4, where the code departs from it.  Called on the class, as the
    sources do, sanitizeToken passes [this.conf], which is undefined, to
    getWTSource: for a disallowed tag with a source range, outside a
    template, it throws a TypeError instead of returning the source text. *)
Theorem sanitizeToken_source_range_throws (conf : Conf) (t : TagToken)
    (cache : awlCache) :
  disallowedTag t ->
  tsr (dataAttribs t) <> None ->
  sanitizeToken TokenSanitizerClass conf (Tag t) false cache
  = (Throw TypeError, cache).
Proof.
  intros Hd Ht. rewrite (sanitizeToken_disallowed _ conf t false cache Hd).
  destruct (tsr (dataAttribs t)); [reflexivity | congruence].
Qed.

(** The whitelist of a tag that neither the cache nor the static table has
    and that is no inherited member: the empty Set, which is cached. *)
Lemma getAttrWhiteList_unknown (cache : awlCache) (tag : jsstring) :
  obj_lookup cache tag = Absent ->
  obj_lookup attrWhiteList tag = Absent ->
  getAttrWhiteList cache tag = (Ok (WSet []), obj_set tag [] cache).
Proof.
  intros Hc Ht. unfold getAttrWhiteList. rewrite Hc, Ht.
  assert (Hp : streq tag (js "__proto__") = false).
  { destruct (streq tag (js "__proto__")) eqn:E; [|reflexivity].
    apply streq_spec in E. subst tag. unfold obj_lookup in Hc.
    destruct (obj_get cache (js "__proto__")); discriminate. }
  unfold obj_set. rewrite Hp. unfold obj_lookup.
  assert (Hg : forall o : awlCache, obj_get (obj_update tag [] o) tag = Some []).
  { induction o as [|[k0 w] o IH]; simpl.
    - now rewrite streq_refl.
    - destruct (streq k0 tag) eqn:E; simpl; rewrite E; [reflexivity | exact IH]. }
  now rewrite Hg.
Qed.

(** C9, where the code departs from it.  For the tag name [constructor],
    which the static table does not have, getAttrWhiteList returns the
    member of that name that the cache object inherits, not an empty Set;
    sanitizeTagAttrs then fails on [wlist.has] with a TypeError for an
    ordinary attribute such as [foo]. *)
Theorem getAttrWhiteList_inherited_member (this : Receiver) (conf : Conf)
    (inTemplate : bool) (cache : awlCache) :
  toLowerCase (js "foo") = js "foo" ->
  obj_get cache (js "constructor") = None ->
  obj_get attrWhiteList (js "constructor") = None /\
  getAttrWhiteList cache (js "constructor")
  = (Ok (WMember (js "constructor")), cache) /\
  sanitizeTagAttrs conf None (Some constructorTag) (attribs constructorTag) cache
  = (Throw TypeError, cache) /\
  sanitizeToken this conf (Tag constructorTag) inTemplate cache
  = (Throw TypeError, cache).
Proof.
  intros Hfoo Hc.
  assert (Hw : getAttrWhiteList cache (js "constructor")
               = (Ok (WMember (js "constructor")), cache)).
  { unfold getAttrWhiteList, obj_lookup. now rewrite Hc. }
  assert (Ha : forall token attrs n,
             sanitizeAttr conf (WMember (js "constructor")) token attrs
               (newKV (js "foo") (js "bar")) n = Throw TypeError).
  { intros token attrs n.
    now destruct (sanitizeAttr_ordinary conf (WMember (js "constructor")) token
                    attrs (newKV (js "foo") (js "bar")) n (js "foo") Hfoo eq_refl)
      as (H & _ & _); rewrite (H TypeError eq_refl). }
  split; [|split; [exact Hw|split]].
  - unfold attrWhiteList, computeAttrWhiteList.
    destruct (allowRdfaAttrs config), (allowMicrodataAttrs config); reflexivity.
  - unfold sanitizeTagAttrs, constructorTag. cbn [name attribs]. rewrite Hw.
    cbn [bind sanitizeAttrs]. now rewrite Ha.
  - unfold sanitizeToken, constructorTag.
    cbn [isHTMLTag dataAttribs stx noDataAttribs andb attribs isEndTag
         constructorName name].
    unfold sanitizeTagAttrs. cbn [name]. rewrite Hw. cbn [bind sanitizeAttrs].
    now rewrite Ha.
Qed.

(* ================================================================== *)
(** * Shadow information *)

Lemma strict_eq_spec (x y : jsval) : strict_eq x y = true <-> x = y.
Proof.
  destruct x, y; simpl; split; try congruence; try reflexivity.
  - intros H. apply streq_spec in H. congruence.
  - intros H. injection H as ->. apply streq_refl.
Qed.

Lemma obj_get_update (key q : jsstring) (x y : jsval) (o : obj jsval) :
  obj_get (obj_update key x o) q = Some y -> y = x \/ obj_get o q = Some y.
Proof.
  induction o as [|[k0 w] o IH]; simpl.
  - destruct (streq key q); [|discriminate]. intros H. left. congruence.
  - destruct (streq k0 key) eqn:E; simpl.
    + destruct (streq k0 q); [|now right]. intros H. left. congruence.
    + destruct (streq k0 q); [now right | exact IH].
Qed.

Lemma obj_get_set (key q : jsstring) (x y : jsval) (o : obj jsval) :
  obj_get (obj_set key x o) q = Some y -> y = x \/ obj_get o q = Some y.
Proof.
  unfold obj_set. destruct (streq key (js "__proto__")); [now right|].
  apply obj_get_update.
Qed.

(** setShadowInfo leaves the token alone if the value is the same or the
    original is null. *)
Lemma setShadowInfo_unchanged (nm : jsstring) (value orig : jsval) (t : TagToken) :
  value = orig \/ orig = VNull -> setShadowInfo nm value orig t = t.
Proof.
  intros H. unfold setShadowInfo.
  assert (E : negb (strict_eq value orig) && negb (strict_eq orig VNull) = false).
  { destruct H as [-> | ->].
    - assert (Hr : strict_eq orig orig = true) by now apply strict_eq_spec.
      now rewrite Hr.
    - apply andb_false_r. }
  now rewrite E.
Qed.

(** Otherwise it records the value and, unless it is undefined, the
    original. *)
Lemma setShadowInfo_records (nm : jsstring) (value orig : jsval) (t : TagToken) :
  value <> orig -> orig <> VNull ->
  dataAttribs (setShadowInfo nm value orig t) =
  mkDataAttribs (tsr (dataAttribs t)) (stx (dataAttribs t))
    (Some (obj_set nm value (orEmpty (a (dataAttribs t)))))
    (Some (match orig with
           | VUndefined => orEmpty (sa (dataAttribs t))
           | _ => obj_set nm orig (orEmpty (sa (dataAttribs t)))
           end)).
Proof.
  intros H1 H2. unfold setShadowInfo.
  assert (E1 : strict_eq value orig = false).
  { destruct (strict_eq value orig) eqn:E; [|reflexivity].
    apply strict_eq_spec in E. contradiction. }
  assert (E2 : strict_eq orig VNull = false)
    by (destruct orig; try reflexivity; congruence).
  rewrite E1, E2. cbn [negb andb dataAttribs]. now destruct orig.
Qed.

(** It never stores undefined as an original value. *)
Lemma setShadowInfo_never_undefined (nm q : jsstring) (value orig : jsval)
    (t : TagToken) :
  shadowSA (setShadowInfo nm value orig t) q = Some VUndefined ->
  shadowSA t q = Some VUndefined.
Proof.
  unfold shadowSA, setShadowInfo.
  destruct (negb (strict_eq value orig) && negb (strict_eq orig VNull));
    [|auto].
  cbn [dataAttribs sa orEmpty].
  destruct orig; cbn [strict_eq negb]; auto; intros H;
    apply obj_get_set in H as [H|H]; auto; discriminate.
Qed.

(** It only touches the entries of the name it is given. *)
Lemma setShadowInfo_other (nm q : jsstring) (value orig : jsval) (t : TagToken) :
  q <> nm ->
  shadowA (setShadowInfo nm value orig t) q = shadowA t q /\
  shadowSA (setShadowInfo nm value orig t) q = shadowSA t q.
Proof.
  intros Hne. unfold shadowA, shadowSA, setShadowInfo.
  destruct (negb (strict_eq value orig) && negb (strict_eq orig VNull));
    [|auto].
  cbn [dataAttribs a sa orEmpty]. split.
  - now apply obj_get_set_other.
  - destruct (negb (strict_eq orig VUndefined)); [|reflexivity].
    now apply obj_get_set_other.
Qed.

(** Rebuilding the token records nothing for a key whose proposal keeps the
    original value and which is not the original key of a rejected one. *)
Lemma applyProposals_shadow (key : jsstring)
    (es : list (jsstring * option proposal)) :
  (forall q newV orig origK,
     In (q, Some (newV, orig, origK)) es ->
     match newV with
     | Some val => q = key -> orig = VStr val
     | None => origK <> key
     end) ->
  forall t t', applyProposals t es = Ok t' ->
  shadowA t' key = shadowA t key /\ shadowSA t' key = shadowSA t key.
Proof.
  induction es as [|[q p] es IH]; intros Hes t t'; simpl.
  - intros E. injection E as <-. auto.
  - unfold applyProposal. cbn [fst snd].
    destruct p as [[[newV orig] origK]|]; cbn [bind]; [|discriminate].
    assert (Hhd := Hes q newV orig origK (or_introl eq_refl)).
    assert (Htl : forall q0 newV0 orig0 origK0,
               In (q0, Some (newV0, orig0, origK0)) es ->
               match newV0 with
               | Some val => q0 = key -> orig0 = VStr val
               | None => origK0 <> key
               end) by (intros; apply Hes; now right).
    destruct newV as [val|]; cbn [bind]; intros E;
      destruct (IH Htl _ _ E) as [Ha Hsa]; rewrite Ha, Hsa.
    + unfold addNormalizedAttribute.
      destruct (streq q key) eqn:Eq.
      * apply streq_spec in Eq. rewrite (Hhd Eq).
        rewrite setShadowInfo_unchanged by now left. split; reflexivity.
      * apply streq_neq in Eq.
        destruct (setShadowInfo_other q key (VStr val) orig
                    (addAttribute q val t)) as [-> ->]; [congruence|].
        split; reflexivity.
    + apply (setShadowInfo_other origK key VNull orig); congruence.
Qed.

(** C5, as amended.  setShadowInfo records nothing when the value equals the
    original or the original is null; otherwise it records the value and,
    unless it is undefined, the original; it never stores undefined as an
    original value.  Hence sanitizeToken leaves a key without shadow entries
    if it had none, when the proposal for that key keeps the original value
    and no rejected attribute has the key as its original key. *)
Theorem shadow_only_on_change :
  (forall (nm : jsstring) (value orig : jsval) (t : TagToken),
     value = orig \/ orig = VNull -> setShadowInfo nm value orig t = t) /\
  (forall (nm : jsstring) (value orig : jsval) (t : TagToken),
     value <> orig -> orig <> VNull ->
     dataAttribs (setShadowInfo nm value orig t) =
     mkDataAttribs (tsr (dataAttribs t)) (stx (dataAttribs t))
       (Some (obj_set nm value (orEmpty (a (dataAttribs t)))))
       (Some (match orig with
              | VUndefined => orEmpty (sa (dataAttribs t))
              | _ => obj_set nm orig (orEmpty (sa (dataAttribs t)))
              end))) /\
  (forall (nm q : jsstring) (value orig : jsval) (t : TagToken),
     shadowSA (setShadowInfo nm value orig t) q = Some VUndefined ->
     shadowSA t q = Some VUndefined) /\
  (forall (this : Receiver) (conf : Conf) (t t' : TagToken) (inTemplate : bool)
          (cache cache' : awlCache) (proposals : obj (option proposal))
          (key : jsstring),
     sanitizeTagAttrs conf None (Some t) (attribs t) cache = (Ok proposals, cache') ->
     sanitizeToken this conf (Tag t) inTemplate cache = (Ok (inl (Tag t')), cache') ->
     (forall q newV orig origK,
        In (q, Some (newV, orig, origK)) proposals ->
        match newV with
        | Some val => q = key -> orig = VStr val
        | None => origK <> key
        end) ->
     shadowA t key = None -> shadowSA t key = None ->
     shadowA t' key = None /\ shadowSA t' key = None).
Proof.
  split; [exact setShadowInfo_unchanged|].
  split; [exact setShadowInfo_records|].
  split; [exact setShadowInfo_never_undefined|].
  intros this conf t t' inTemplate cache cache' proposals key Hp Hs Hprop Ha Hsa.
  revert Hs. unfold sanitizeToken.
  destruct (isHTMLTag (Tag t) && _).
  - destruct (negb inTemplate && _).
    + destruct (getWTSource t (this_conf this)); cbn [bind]; discriminate.
    + destruct (negb (isEndTag t)); discriminate.
  - destruct (attribs t) as [|a0 attrs0] eqn:Eattr.
    + intros E. injection E as <- _. auto.
    + destruct (isEndTag t).
      * intros E. injection E as <- _. auto.
      * rewrite Hp. cbn [bind].
        destruct (applyProposals (withAttribs t []) (obj_entries proposals))
          as [t1|] eqn:Ep; cbn [bind]; [|discriminate].
        intros E. injection E as <-.
        apply (applyProposals_shadow key) in Ep as [H1 H2].
        -- rewrite H1, H2. auto.
        -- intros q newV orig origK Hin. apply obj_entries_In in Hin.
           now apply Hprop.
Qed.

(* ================================================================== *)
(** * URLs outside wikilinks *)

Lemma urlEscapedChar_In (c : Z) :
  urlEscapedChar c = true -> In c urlEscapedChars.
Proof.
  intros H. unfold urlEscapedChar in H.
  rewrite !orb_true_iff, !andb_true_iff, !Z.eqb_eq, !Z.leb_le in H.
  assert (Hc : 0 <= c <= 127) by lia.
  assert (Hn : c = Z.of_nat (Z.to_nat c)) by lia.
  revert H. rewrite Hn. 
  assert (Hb : (Z.to_nat c <= 127)%nat) by lia.
  clear Hn Hc. revert Hb. generalize (Z.to_nat c) as n. intros n Hb.
  do 128 (destruct n as [|n]; [simpl; intros; try lia; tauto|]).
  lia.
Qed.

(** What phpURLEncode writes for an escaped character holds no character
    that cleanUrl escapes. *)
Lemma phpURLEncode_escaped_clean (c : Z) :
  urlEscapedChar c = true ->
  exists r, phpURLEncode [c] = Ok r /\
            Forall (fun x => urlEscapedChar x = false) r.
Proof.
  intros H. apply urlEscapedChar_In in H.
  assert (A : forallb (fun c => match phpURLEncode [c] with
                                | Ok r => forallb (fun x => negb (urlEscapedChar x)) r
                                | Throw _ => false
                                end) urlEscapedChars = true) by (vm_compute; reflexivity).
  rewrite forallb_forall in A. specialize (A c H).
  destruct (phpURLEncode [c]) as [r|e]; [|discriminate].
  exists r. split; [reflexivity|].
  rewrite forallb_forall in A. apply Forall_forall. intros x Hx.
  apply A in Hx. now apply negb_true_iff in Hx.
Qed.

Lemma escapedHref_clean (mode href : jsstring) :
  mode <> js "wikilink" ->
  exists href', escapedHref mode href = Ok href' /\
                Forall (fun x => urlEscapedChar x = false) href'.
Proof.
  intros Hm. unfold escapedHref. apply streq_neq in Hm. rewrite Hm. cbn [negb].
  assert (H : exists parts,
             mapM (fun c => if urlEscapedChar c then phpURLEncode [c] else Ok [c])
                  href = Ok parts /\
             Forall (Forall (fun x => urlEscapedChar x = false)) parts).
  { induction href as [|c href (parts & IH & IF)]; simpl; [eauto|].
    rewrite IH. destruct (urlEscapedChar c) eqn:E.
    - destruct (phpURLEncode_escaped_clean c E) as (r & -> & Hr). simpl. eauto.
    - simpl. eexists. split; [reflexivity|]. constructor; [|assumption].
      constructor; [assumption | constructor]. }
  destruct H as (parts & -> & HF). simpl. eexists. split; [reflexivity|].
  induction HF; simpl; [constructor | now apply Forall_app].
Qed.

(** X1.  cleanUrl never raises an exception, and outside wikilinks the URL
    it returns holds no angle bracket, double quote, bar, space, control
    character (0x00 to 0x1F) or 0x7F. *)
Theorem cleanUrl_no_unsafe_char (conf : Conf) (href mode : jsstring) :
  exists r : option jsstring,
    cleanUrl conf href mode = Ok r /\
    (mode <> js "wikilink" ->
     forall url : jsstring, r = Some url ->
       Forall (fun c => urlUnsafeChar c = false) url).
Proof.
  unfold cleanUrl. rewrite cleanUrl_escape.
  destruct (streq mode (js "wikilink")) eqn:Em.
  - (* wikilink *)
    apply streq_spec in Em. subst mode. unfold escapedHref.
    replace (negb (streq (js "wikilink") (js "wikilink"))) with false by reflexivity.
    cbn [bind].
    destruct (exec reUrlBits href) as [bits|];
      [|eexists; split; [reflexivity | congruence]].
    destruct (truthy (arg 1 bits) && negb (hasValidProtocol conf (ToString (arg 1 bits))));
      eexists; (split; [reflexivity | congruence]).
  - apply streq_neq in Em.
    destruct (escapedHref_clean mode href Em) as (href' & -> & Hc).
    cbn [bind].
    set (Q := fun x : Z => urlEscapedChar x = false) in *.
    set (P := fun c : Z => urlUnsafeChar c = false).
    assert (QP : forall s, Forall Q s -> Forall P s).
    { intros s. apply Forall_impl. intros c. unfold Q, P, urlEscapedChar, urlUnsafeChar.
      rewrite !orb_false_iff. tauto. }
    assert (Hu : Forall Q (js "undefined")) by (repeat constructor).
    destruct (exec reUrlBits href') as [bits|] eqn:E.
    + destruct (exec_allChars Q reUrlBits href' bits Hc E) as [_ Hg].
      destruct (truthy (arg 1 bits) && negb (hasValidProtocol conf (ToString (arg 1 bits)))).
      * eexists. split; [reflexivity|]. intros _ url Hurl. discriminate.
      * eexists. split; [reflexivity|]. intros _ url Hurl. injection Hurl as <-.
        assert (Hh : Forall Q (stripIDNs (ToString (arg 2 bits)))).
        { rewrite stripIDNs_filter. apply Forall_forall. intros c Hin.
          apply filter_In in Hin as [Hin _].
          pose proof (ToString_arg_allChars Q 2 bits Hu Hg) as HA.
          rewrite Forall_forall in HA. now apply HA. }
        apply Forall_app. split; [apply QP; now apply ToString_arg_allChars|].
        apply Forall_app. split; [|apply QP; now apply ToString_arg_allChars].
        destruct (exec reIPv6Host (stripIDNs (ToString (arg 2 bits)))) as [m|] eqn:E6.
        -- destruct (exec_allChars Q reIPv6Host _ m Hh E6) as [_ Hg6].
           change (js "[") with [91]. change (js "]") with [93]. cbn [app].
           constructor; [reflexivity|].
           apply Forall_app. split; [apply QP; now apply ToString_arg_allChars|].
           constructor; [reflexivity|].
           apply QP; now apply ToString_arg_allChars.
        -- now apply QP.
    + eexists. split; [reflexivity|]. intros _ url Hurl. injection Hurl as <-.
      simpl. now apply QP.
Qed.

(* ================================================================== *)
(** * Values of the sanitized attributes *)

Lemma proposalsFrom_put (conf : Conf) (token : option TagToken)
    (attrs : list KV) (attr : KV) (newAttrs : obj (option proposal))
    (newV : option jsstring) (orig : jsval) (origK : jsstring) :
  In attr attrs ->
  proposalsFrom conf token attrs newAttrs ->
  proposedBy conf token attr newV ->
  proposalsFrom conf token attrs
    (obj_set (toLowerCase (k attr)) (Some (newV, orig, origK)) newAttrs).
Proof.
  intros Hin Hok Hp key' newV' orig' origK' H.
  apply obj_set_In in H as [[-> E]|H]; [|eauto].
  injection E as -> _ _. eauto.
Qed.

Lemma proposalsFrom_undefined (conf : Conf) (token : option TagToken)
    (attrs : list KV) (newAttrs : obj (option proposal)) (key : jsstring) :
  proposalsFrom conf token attrs newAttrs ->
  proposalsFrom conf token attrs (obj_set key None newAttrs).
Proof.
  intros Hok key' newV' orig' origK' H.
  apply obj_set_In in H as [[_ E]|H]; [discriminate | eauto].
Qed.

(** One round of the loop keeps the proposals as described. *)
Lemma sanitizeAttr_proposalsFrom (conf : Conf) (wlist : whitelist)
    (token : option TagToken) (attrs : list KV) (attr : KV)
    (newAttrs : obj (option proposal)) (o : outcome) :
  In attr attrs ->
  proposalsFrom conf token attrs newAttrs ->
  sanitizeAttr conf wlist token attrs attr newAttrs = Ok o ->
  proposalsFrom conf token attrs (outcomeAttrs o).
Proof.
  intros Hin Hok. unfold sanitizeAttr. cbv zeta.
  set (key := toLowerCase (k attr)).
  set (origV := VStr (orString (vsrc attr) (v attr))).
  set (origK := orString (ksrc attr) (k attr)).
  assert (Hput : forall newV orig,
             proposedBy conf token attr newV ->
             proposalsFrom conf token attrs
               (obj_set key (Some (newV, orig, origK)) newAttrs))
    by (intros; now apply proposalsFrom_put).
  assert (Hnone : proposedBy conf token attr None) by now left.
  match goal with
  | |- bind ?m _ = _ -> _ =>
      assert (Hv : forall n, m = Ok (Some n) -> proposalsFrom conf token attrs n);
      [| destruct m as [[n|]|e] eqn:Ev; cbn [bind];
         [ specialize (Hv _ eq_refl) | clear Hv | discriminate ] ]
  end.
  { destruct (isParsoidAttr key (v attr) attrs); cbn [negb]; [discriminate|].
    destruct (test getAttribsRegex key); cbn [negb].
    - destruct (allowRdfaAttrs config && test XMLNS_ATTRIBUTE_RE key) eqn:Ex.
      + apply andb_true_iff in Ex as [_ Ex].
        destruct (negb (test EVIL_URI_RE (v attr)));
          intros n E; injection E as <-; apply Hput; auto.
        right. left. now split.
      + destruct (html5Mode config && test reDataAttr key); cbn [negb];
          [discriminate|].
        destruct (wlistHas wlist key) as [listed|]; cbn [bind]; [|discriminate].
        destruct listed; cbn [negb]; [discriminate|].
        intros n E. injection E as <-. now apply Hput.
    - intros n E. injection E as <-. now apply Hput. }
  - intros E. injection E as <-. exact Hv.
  - destruct (if streq key (js "style") then checkCss (v attr) else Ok (v attr))
      as [val1|] eqn:E1; cbn [bind]; [|discriminate].
    destruct (if streq key (js "id") then escapeIdForAttribute val1 false else Ok val1)
      as [val2|] eqn:E2; cbn [bind]; [|discriminate].
    destruct (setHas microData key && test EVIL_URI_RE val2) eqn:Em.
    + intros E. injection E as <-. cbn [outcomeAttrs].
      apply andb_true_iff in Em as [Em1 Em2].
      destruct (isParsoidAttr key (v attr) attrs); apply Hput; auto.
      right. right. exists val1, val2. split; [assumption|]. split; [assumption|].
      left. auto.
    + destruct token as [tk|]; [|cbn [bind]; intros E; injection E as <-; exact Hok].
      assert (Hfin : forall newV orig,
                 (if isUrlKey key then cleanUrl conf val2 (urlMode tk key) = Ok newV
                  else newV = Some val2) ->
                 proposalsFrom conf (Some tk) attrs
                   (obj_set key (Some (newV, orig, origK)) newAttrs)).
      { intros newV orig H. apply Hput. right. right. exists val1, val2.
        split; [assumption|]. split; [assumption|]. right. split; [assumption|].
        exists tk. now split. }
      fold (isUrlKey key). unfold urlMode in Hfin.
      destruct (isUrlKey key) eqn:Eu.
      * destruct (cleanUrl conf val2 _) as [newHref|] eqn:Ec; cbn [bind];
          [|discriminate].
        destruct (negb (strict_eq (of_nullable newHref) (VStr val2))) eqn:Eq;
          cbn [bind].
        -- intros E. injection E as <-. now apply Hfin.
        -- assert (Hs : newHref = Some val2).
           { apply negb_false_iff in Eq. destruct newHref as [u|]; [|discriminate].
             simpl in Eq. apply streq_spec in Eq. now subst. }
           subst newHref.
           destruct (negb (allowMicrodataAttrs config)).
           ++ destruct (obj_get _ (js "itemscope")) as [[p|]|];
                intros E; injection E as <-; cbn [outcomeAttrs];
                try (now apply Hfin);
                repeat apply proposalsFrom_undefined; now apply Hfin.
           ++ intros E. injection E as <-. now apply Hfin.
      * cbn [bind].
        destruct (negb (allowMicrodataAttrs config)).
        -- destruct (obj_get _ (js "itemscope")) as [[p|]|];
             intros E; injection E as <-; cbn [outcomeAttrs];
             try (now apply Hfin);
             repeat apply proposalsFrom_undefined; now apply Hfin.
        -- intros E. injection E as <-. now apply Hfin.
Qed.

Lemma sanitizeAttrs_proposalsFrom (conf : Conf) (wlist : whitelist)
    (token : option TagToken) (attrs : list KV) :
  forall todo newAttrs result,
    incl todo attrs ->
    proposalsFrom conf token attrs newAttrs ->
    sanitizeAttrs conf wlist token attrs todo newAttrs = Ok result ->
    proposalsFrom conf token attrs result.
Proof.
  induction todo as [|attr todo IH]; intros newAttrs result Hincl Hok; simpl.
  - intros E. now injection E as <-.
  - destruct (sanitizeAttr conf wlist token attrs attr newAttrs) as [o|] eqn:Eo;
      cbn [bind]; [|discriminate].
    apply sanitizeAttr_proposalsFrom in Eo; [|apply Hincl; now left|assumption].
    destruct o as [n|n]; cbn [outcomeAttrs] in Eo.
    + apply IH; [|assumption]. intros x Hx. apply Hincl. now right.
    + intros E. now injection E as <-.
Qed.

(** How sanitizeToken arrives at a token: the tag had no attribute, or it
    is an end tag, or its attributes were sanitized and rebuilt. *)
Lemma sanitizeToken_rebuilt (this : Receiver) (conf : Conf) (t t' : TagToken)
    (inTemplate : bool) (cache cache' : awlCache) :
  sanitizeToken this conf (Tag t) inTemplate cache = (Ok (inl (Tag t')), cache') ->
  (attribs t = [] /\ t' = t /\ cache' = cache) \/
  (isEndTag t = true /\ t' = withAttribs t [] /\ cache' = cache) \/
  (isEndTag t = false /\ attribs t <> [] /\
   exists wlist newAttrs,
     getAttrWhiteList cache (name t) = (Ok wlist, cache') /\
     sanitizeAttrs conf wlist (Some t) (attribs t) (attribs t) [] = Ok newAttrs /\
     applyProposals (withAttribs t []) (obj_entries newAttrs) = Ok t').
Proof.
  unfold sanitizeToken.
  destruct (isHTMLTag (Tag t) && _).
  - destruct (negb inTemplate && _).
    + destruct (getWTSource t (this_conf this)); cbn [bind]; discriminate.
    + destruct (negb (isEndTag t)); discriminate.
  - destruct (attribs t) as [|a0 attrs0] eqn:Ea.
    + intros E. injection E as <- <-. left. auto.
    + destruct (isEndTag t) eqn:Hend.
      * intros E. injection E as <- <-. right. left. auto.
      * unfold sanitizeTagAttrs.
        destruct (getAttrWhiteList cache (name t)) as [wl c1] eqn:Ew.
        destruct wl as [wlist|e]; cbn [bind]; [|discriminate].
        destruct (sanitizeAttrs conf wlist (Some t) (a0 :: attrs0) (a0 :: attrs0) [])
          as [newAttrs|] eqn:Es; cbn [bind]; [|discriminate].
        destruct (applyProposals (withAttribs t []) (obj_entries newAttrs))
          as [t1|] eqn:Ep; cbn [bind]; [|discriminate].
        intros E. injection E as <- <-. right. right.
        split; [reflexivity|]. split; [discriminate|].
        exists wlist, newAttrs. auto.
Qed.

(** Every attribute of the sanitized token comes from an attribute of the
    input whose lower-cased key it carries. *)
Lemma sanitizeToken_proposed (this : Receiver) (conf : Conf) (t t' : TagToken)
    (inTemplate : bool) (cache cache' : awlCache) :
  sanitizeToken this conf (Tag t) inTemplate cache = (Ok (inl (Tag t')), cache') ->
  forall kv, In kv (attribs t') ->
  exists attr, In attr (attribs t) /\ toLowerCase (k attr) = k kv /\
               proposedBy conf (Some t) attr (Some (v kv)).
Proof.
  intros H kv Hkv.
  apply sanitizeToken_rebuilt in H
    as [(Ha & -> & _)|[(_ & -> & _)|(_ & _ & wlist & newAttrs & _ & Hs & Hp)]].
  - rewrite Ha in Hkv. destruct Hkv.
  - destruct Hkv.
  - destruct (applyProposals_attribs _ _ _ Hp kv Hkv) as [[]|(orig & origK & Hin)].
    apply obj_entries_In in Hin.
    apply (sanitizeAttrs_proposalsFrom conf wlist (Some t) (attribs t)
             (attribs t) [] newAttrs) in Hs.
    + exact (Hs _ _ _ _ Hin).
    + apply incl_refl.
    + intros key newV o ok [].
Qed.

(** What checkCss returns is a placeholder or a normalized text that it
    does not refuse. *)
Lemma checkCss_result (t r : jsstring) :
  checkCss t = Ok r ->
  r = js "/* invalid control char */" \/ r = js "/* insecure input */" \/
  (normalizeCss t = Ok r /\ ~ cssRejected r).
Proof.
  unfold checkCss. destruct (normalizeCss t) as [n|e]; cbn [bind]; [|discriminate].
  rewrite test_reControlChars.
  destruct (existsb cssControlChar n) eqn:Ec; cbn [orb].
  { intros H. injection H as <-. now left. }
  destruct (indexOf UTF8_REPLACEMENT n) as [i|] eqn:Ei.
  { intros H. injection H as <-. now left. }
  destruct (test insecureRE n) eqn:Et.
  { intros H. injection H as <-. right. now left. }
  intros H. injection H as <-. right. right. split; [reflexivity|].
  intros [A|[A|A]].
  - apply existsb_Exists in A. congruence.
  - apply indexOf_occursIn in A as [j A]. congruence.
  - congruence.
Qed.

(** X2.  Every attribute of a sanitized tag carries the lower-cased key of
    an attribute of the input; unless the key is style, id, a URL key or an
    RDFa or microdata property, it carries the value of that attribute
    unchanged. *)
Theorem sanitized_attributes_from_input (this : Receiver) (conf : Conf)
    (t t' : TagToken) (inTemplate : bool) (cache cache' : awlCache) :
  sanitizeToken this conf (Tag t) inTemplate cache = (Ok (inl (Tag t')), cache') ->
  forall kv : KV, In kv (attribs t') ->
  exists attr : KV,
    In attr (attribs t) /\ k kv = toLowerCase (k attr) /\
    (plainKey (k kv) = true -> v kv = v attr).
Proof.
  intros H kv Hkv.
  destruct (sanitizeToken_proposed _ _ _ _ _ _ _ H kv Hkv) as (attr & Hin & Hk & Hp).
  exists attr. split; [assumption|]. split; [now symmetry|].
  intros Hplain. unfold proposedBy in Hp. cbv zeta in Hp. rewrite Hk in Hp.
  unfold plainKey in Hplain.
  rewrite !andb_true_iff, !negb_true_iff in Hplain.
  destruct Hplain as (((Hs & Hi) & Hm) & Hu). fold (isUrlKey (k kv)) in Hu.
  destruct Hp as [Hp|[[_ Hp]|(val1 & val2 & E1 & E2 & Hp)]].
  - discriminate.
  - now injection Hp.
  - rewrite Hs in E1. injection E1 as <-. rewrite Hi in E2. injection E2 as <-.
    destruct Hp as [(Hm' & _)|(_ & tk & _ & Hp)]; [congruence|].
    rewrite Hu in Hp. now injection Hp.
Qed.

(** X3.  The value of a style attribute of a sanitized tag is what checkCss
    returns for a style value of the input: one of the two placeholders, or
    a normalized text with no control character, no replacement text and no
    match of the insecure patterns. *)
Theorem sanitized_style_checked (this : Receiver) (conf : Conf)
    (t t' : TagToken) (inTemplate : bool) (cache cache' : awlCache) :
  sanitizeToken this conf (Tag t) inTemplate cache = (Ok (inl (Tag t')), cache') ->
  forall kv : KV, In kv (attribs t') -> k kv = js "style" ->
  exists attr : KV,
    In attr (attribs t) /\ toLowerCase (k attr) = js "style" /\
    checkCss (v attr) = Ok (v kv) /\
    (v kv = js "/* invalid control char */" \/
     v kv = js "/* insecure input */" \/
     (normalizeCss (v attr) = Ok (v kv) /\ ~ cssRejected (v kv))).
Proof.
  intros H kv Hkv Hstyle.
  destruct (sanitizeToken_proposed _ _ _ _ _ _ _ H kv Hkv) as (attr & Hin & Hk & Hp).
  rewrite Hstyle in Hk.
  exists attr. split; [assumption|]. split; [assumption|].
  unfold proposedBy in Hp. cbv zeta in Hp. rewrite Hk in Hp.
  assert (Hc : checkCss (v attr) = Ok (v kv)).
  { destruct Hp as [Hp|[[Hx _]|(val1 & val2 & E1 & E2 & Hp)]].
    - discriminate.
    - vm_compute in Hx. discriminate.
    - change (streq (js "style") (js "style")) with true in E1.
      change (streq (js "style") (js "id")) with false in E2.
      injection E2 as <-.
      destruct Hp as [(Hm & _)|(_ & tk & _ & Hp)]; [vm_compute in Hm; discriminate|].
      change (isUrlKey (js "style")) with false in Hp.
      injection Hp as <-. exact E1. }
  split; [assumption|]. now apply checkCss_result.
Qed.

(** X4.  The value of an id attribute of a sanitized tag is an id value of
    the input with every space turned into an underscore; it holds no
    space. *)
Theorem sanitized_id_escaped (this : Receiver) (conf : Conf)
    (t t' : TagToken) (inTemplate : bool) (cache cache' : awlCache) :
  sanitizeToken this conf (Tag t) inTemplate cache = (Ok (inl (Tag t')), cache') ->
  forall kv : KV, In kv (attribs t') -> k kv = js "id" ->
  exists attr : KV,
    In attr (attribs t) /\ toLowerCase (k attr) = js "id" /\
    v kv = spacesToUnderscores (v attr) /\ ~ In 32 (v kv).
Proof.
  intros H kv Hkv Hid.
  destruct (sanitizeToken_proposed _ _ _ _ _ _ _ H kv Hkv) as (attr & Hin & Hk & Hp).
  rewrite Hid in Hk.
  exists attr. split; [assumption|]. split; [assumption|].
  unfold proposedBy in Hp. cbv zeta in Hp. rewrite Hk in Hp.
  assert (Hc : v kv = spacesToUnderscores (v attr)).
  { destruct Hp as [Hp|[[Hx _]|(val1 & val2 & E1 & E2 & Hp)]].
    - discriminate.
    - vm_compute in Hx. discriminate.
    - change (streq (js "id") (js "style")) with false in E1.
      change (streq (js "id") (js "id")) with true in E2.
      injection E1 as <-.
      unfold escapeIdForAttribute, escapeIdInternal in E2.
      change (streq (js "html5") (js "html5")) with true in E2.
      rewrite replace_reSpace in E2. injection E2 as <-.
      destruct Hp as [(Hm & _)|(_ & tk & _ & Hp)]; [vm_compute in Hm; discriminate|].
      change (isUrlKey (js "id")) with false in Hp.
      now injection Hp. }
  split; [assumption|]. rewrite Hc. unfold spacesToUnderscores.
  intros Hi. apply in_map_iff in Hi as (c & Hc32 & _).
  destruct (c =? 32) eqn:E; [discriminate|]. apply Z.eqb_neq in E. congruence.
Qed.

(** X5.  The value of an href, src or poster attribute of a sanitized tag
    is what cleanUrl returns for a value of the input, in wikilink mode for
    the href of a wiki link and in external mode otherwise; the protocol
    cleanUrl found in it, if any, is one that hasValidProtocol accepts. *)
Theorem sanitized_url_cleaned (this : Receiver) (conf : Conf)
    (t t' : TagToken) (inTemplate : bool) (cache cache' : awlCache) :
  sanitizeToken this conf (Tag t) inTemplate cache = (Ok (inl (Tag t')), cache') ->
  forall kv : KV, In kv (attribs t') -> isUrlKey (k kv) = true ->
  exists attr : KV,
    In attr (attribs t) /\ toLowerCase (k attr) = k kv /\
    cleanUrl conf (v attr) (urlMode t (k kv)) = Ok (Some (v kv)) /\
    forall href' proto : jsstring,
      escapedHref (urlMode t (k kv)) (v attr) = Ok href' ->
      parsedProtocol href' = Some proto -> proto <> [] ->
      hasValidProtocol conf proto = true.
Proof.
  intros H kv Hkv Hurl.
  destruct (sanitizeToken_proposed _ _ _ _ _ _ _ H kv Hkv) as (attr & Hin & Hk & Hp).
  exists attr. split; [assumption|]. split; [assumption|].
  unfold proposedBy in Hp. cbv zeta in Hp. rewrite Hk in Hp.
  assert (Hc : cleanUrl conf (v attr) (urlMode t (k kv)) = Ok (Some (v kv))).
  { assert (Hkey : k kv = js "href" \/ k kv = js "src" \/ k kv = js "poster").
    { unfold isUrlKey in Hurl. rewrite !orb_true_iff, !streq_spec in Hurl. tauto. }
    destruct Hp as [Hp|[[Hx _]|(val1 & val2 & E1 & E2 & Hp)]].
    - discriminate.
    - destruct Hkey as [Hkey|[Hkey|Hkey]]; rewrite Hkey in Hx;
        vm_compute in Hx; discriminate.
    - assert (Hs : streq (k kv) (js "style") = false)
        by (destruct Hkey as [Hkey|[Hkey|Hkey]]; rewrite Hkey; reflexivity).
      assert (Hi : streq (k kv) (js "id") = false)
        by (destruct Hkey as [Hkey|[Hkey|Hkey]]; rewrite Hkey; reflexivity).
      assert (Hm : setHas microData (k kv) = false)
        by (destruct Hkey as [Hkey|[Hkey|Hkey]]; rewrite Hkey; reflexivity).
      rewrite Hs in E1. injection E1 as <-. rewrite Hi in E2. injection E2 as <-.
      destruct Hp as [(Hm' & _)|(_ & tk & Htk & Hp)]; [congruence|].
      injection Htk as <-. now rewrite Hurl in Hp. }
  split; [assumption|].
  intros href' proto He Hpp Hne.
  destruct (hasValidProtocol conf proto) eqn:Ev; [reflexivity|].
  rewrite (cleanUrl_rejects conf _ _ href' proto He Hpp Hne Ev) in Hc. discriminate.
Qed.

(* ================================================================== *)
(** * The shape of the sanitized token *)

Lemma assignedFrom_trans {V : Type} (o1 o2 o3 : obj V) :
  assignedFrom o1 o2 -> assignedFrom o2 o3 -> assignedFrom o1 o3.
Proof. intros H12 H23. induction H23; [assumption | now constructor]. Qed.

(** One round of the loop only assigns to the proposals. *)
Lemma sanitizeAttr_assigns (conf : Conf) (wlist : whitelist)
    (token : option TagToken) (attrs : list KV) (attr : KV)
    (newAttrs : obj (option proposal)) (o : outcome) :
  sanitizeAttr conf wlist token attrs attr newAttrs = Ok o ->
  assignedFrom newAttrs (outcomeAttrs o).
Proof.
  unfold sanitizeAttr. cbv zeta.
  set (key := toLowerCase (k attr)).
  assert (Hput : forall p, assignedFrom newAttrs (obj_set key p newAttrs))
    by (intros; repeat constructor).
  match goal with
  | |- bind ?m _ = _ -> _ =>
      assert (Hv : forall n, m = Ok (Some n) -> assignedFrom newAttrs n);
      [| destruct m as [[n|]|e] eqn:Ev; cbn [bind];
         [ specialize (Hv _ eq_refl) | clear Hv | discriminate ] ]
  end.
  { destruct (isParsoidAttr key (v attr) attrs); cbn [negb]; [discriminate|].
    destruct (test getAttribsRegex key); cbn [negb].
    - destruct (allowRdfaAttrs config && test XMLNS_ATTRIBUTE_RE key).
      + destruct (negb (test EVIL_URI_RE (v attr)));
          intros n E; injection E as <-; apply Hput.
      + destruct (html5Mode config && test reDataAttr key); cbn [negb];
          [discriminate|].
        destruct (wlistHas wlist key) as [listed|]; cbn [bind]; [|discriminate].
        destruct listed; cbn [negb]; [discriminate|].
        intros n E. injection E as <-. apply Hput.
    - intros n E. injection E as <-. apply Hput. }
  - intros E. injection E as <-. exact Hv.
  - destruct (if streq key (js "style") then checkCss (v attr) else Ok (v attr))
      as [val1|]; cbn [bind]; [|discriminate].
    destruct (if streq key (js "id") then escapeIdForAttribute val1 false else Ok val1)
      as [val2|]; cbn [bind]; [|discriminate].
    destruct (setHas microData key && test EVIL_URI_RE val2).
    + intros E. injection E as <-. apply Hput.
    + match goal with
      | |- bind ?m _ = _ -> _ => destruct m as [[n|]|e] eqn:Eu; cbn [bind];
                                 [| |discriminate]
      end.
      * intros E. injection E as <-. cbn [outcomeAttrs].
        destruct token as [tk|]; [|discriminate].
        destruct (streq key (js "href") || streq key (js "src")
                  || streq key (js "poster")); [|discriminate].
        destruct (cleanUrl conf val2 _) as [newHref|]; cbn [bind] in Eu;
          [|discriminate].
        destruct (negb (strict_eq (of_nullable newHref) (VStr val2)));
          [|discriminate].
        injection Eu as <-. apply Hput.
      * destruct token as [tk|].
        -- destruct (negb (allowMicrodataAttrs config)).
           ++ destruct (obj_get _ (js "itemscope")) as [[p|]|];
                intros E; injection E as <-; cbn [outcomeAttrs];
                repeat constructor.
           ++ intros E. injection E as <-. apply Hput.
        -- intros E. injection E as <-. constructor.
Qed.

Lemma sanitizeAttrs_assigns (conf : Conf) (wlist : whitelist)
    (token : option TagToken) (attrs : list KV) :
  forall todo newAttrs result,
    sanitizeAttrs conf wlist token attrs todo newAttrs = Ok result ->
    assignedFrom newAttrs result.
Proof.
  induction todo as [|attr todo IH]; intros newAttrs result; simpl.
  - intros E. injection E as <-. constructor.
  - destruct (sanitizeAttr conf wlist token attrs attr newAttrs) as [o|] eqn:Eo;
      cbn [bind]; [|discriminate].
    apply sanitizeAttr_assigns in Eo.
    destruct o as [n|n]; cbn [outcomeAttrs] in Eo.
    + intros E. apply IH in E. now apply assignedFrom_trans with n.
    + intros E. now injection E as <-.
Qed.

(** ** Keys stay distinct *)

Lemma obj_update_keys {V : Type} (key : jsstring) (x : V) (o : obj V) :
  map fst (obj_update key x o) = map fst o \/
  (~ In key (map fst o) /\ map fst (obj_update key x o) = map fst o ++ [key]).
Proof.
  induction o as [|[q w] o IH]; simpl.
  - right. auto.
  - destruct (streq q key) eqn:E; [now left|].
    apply streq_neq in E. simpl.
    destruct IH as [->|[Hn ->]]; [now left|].
    right. split; [|reflexivity]. intros [H|H]; auto.
Qed.

Lemma NoDup_obj_set {V : Type} (key : jsstring) (x : V) (o : obj V) :
  NoDup (map fst o) -> NoDup (map fst (obj_set key x o)).
Proof.
  intros H. unfold obj_set. destruct (streq key (js "__proto__")); [assumption|].
  destruct (obj_update_keys key x o) as [->|[Hn ->]]; [assumption|].
  apply NoDup_app; [assumption | repeat constructor; intros [] |].
  intros a Ha [<-|[]]. contradiction.
Qed.

Lemma NoDup_assigned {V : Type} (o : obj V) :
  assignedFrom [] o -> NoDup (map fst o).
Proof.
  intros H. induction H; [constructor | now apply NoDup_obj_set].
Qed.

Lemma insertByIndex_keys {V : Type} (i : Z) (e : jsstring * V)
    (l : list (Z * (jsstring * V))) (q : jsstring) :
  In q (map fst (map snd (insertByIndex i e l))) <->
  q = fst e \/ In q (map fst (map snd l)).
Proof.
  induction l as [|[j f] l IH]; simpl.
  - intuition congruence.
  - destruct (i <? j); simpl; [intuition congruence|].
    rewrite IH. intuition congruence.
Qed.

Lemma NoDup_insertByIndex {V : Type} (i : Z) (e : jsstring * V)
    (l : list (Z * (jsstring * V))) :
  ~ In (fst e) (map fst (map snd l)) ->
  NoDup (map fst (map snd l)) ->
  NoDup (map fst (map snd (insertByIndex i e l))).
Proof.
  induction l as [|[j f] l IH]; simpl; intros Hn Hd.
  - constructor; [tauto | constructor].
  - destruct (i <? j); simpl.
    + constructor; [exact Hn | exact Hd].
    + inversion Hd as [|? ? Hf Hd']; subst. constructor.
      * rewrite insertByIndex_keys. intros [H|H]; [|contradiction].
        apply Hn. left. congruence.
      * apply IH; [|assumption]. intros H. apply Hn. now right.
Qed.

Lemma indexedEntries_keys {V : Type} (o : obj V) (q : jsstring) :
  In q (map fst (map snd (indexedEntries o))) ->
  In q (map fst o) /\ arrayIndex q <> None.
Proof.
  induction o as [|[key x] o IH]; simpl; [tauto|].
  destruct (arrayIndex key) eqn:E.
  - rewrite insertByIndex_keys. simpl. intros [->|H].
    + split; [now left | congruence].
    + destruct (IH H). split; [now right | assumption].
  - intros H. destruct (IH H). split; [now right | assumption].
Qed.

Lemma NoDup_indexedEntries {V : Type} (o : obj V) :
  NoDup (map fst o) -> NoDup (map fst (map snd (indexedEntries o))).
Proof.
  induction o as [|[key x] o IH]; simpl; intros Hd; [constructor|].
  inversion Hd as [|? ? Hn Hd']; subst.
  destruct (arrayIndex key); [|now apply IH].
  apply NoDup_insertByIndex; [|now apply IH].
  simpl. intros H. apply indexedEntries_keys in H as [H _]. contradiction.
Qed.

Lemma NoDup_filter_keys {V : Type} (f : jsstring * V -> bool) (o : obj V) :
  NoDup (map fst o) -> NoDup (map fst (filter f o)).
Proof.
  induction o as [|e o IH]; simpl; intros Hd; [constructor|].
  inversion Hd as [|? ? Hn Hd']; subst.
  destruct (f e); simpl; [|now apply IH].
  constructor; [|now apply IH].
  intros H. apply Hn. apply in_map_iff in H as (y & Hy & Hin).
  apply filter_In in Hin as [Hin _]. apply in_map_iff. eauto.
Qed.

(** Object.keys lists every own key once. *)
Lemma NoDup_obj_entries {V : Type} (o : obj V) :
  NoDup (map fst o) -> NoDup (map fst (obj_entries o)).
Proof.
  intros Hd. unfold obj_entries. rewrite map_app.
  apply NoDup_app.
  - now apply NoDup_indexedEntries.
  - now apply NoDup_filter_keys.
  - intros q H1 H2. apply indexedEntries_keys in H1 as [_ H1].
    apply in_map_iff in H2 as ([q' x] & Hq & Hin). simpl in Hq. subst q'.
    apply filter_In in Hin as [_ Hin]. simpl in Hin.
    destruct (arrayIndex q); [discriminate | congruence].
Qed.

Lemma applyProposals_NoDup (es : list (jsstring * option proposal)) :
  forall t t', applyProposals t es = Ok t' ->
  NoDup (map k (attribs t) ++ map fst es) ->
  NoDup (map k (attribs t')).
Proof.
  induction es as [|[key p] es IH]; intros t t'; simpl.
  - intros E. injection E as <-. now rewrite app_nil_r.
  - unfold applyProposal. cbn [fst snd].
    destruct p as [[[newV orig] origK]|]; cbn [bind]; [|discriminate].
    destruct newV as [val|]; cbn [bind]; intros E Hd; apply (IH _ _ E).
    + unfold addNormalizedAttribute. rewrite attribs_setShadowInfo. simpl.
      rewrite map_app, <- app_assoc. exact Hd.
    + rewrite attribs_setShadowInfo. now apply NoDup_remove_1 in Hd.
Qed.

(** The parts of a token that sanitation leaves alone. *)
Lemma setShadowInfo_frame (nm : jsstring) (value orig : jsval) (t : TagToken) :
  constructorName (setShadowInfo nm value orig t) = constructorName t /\
  name (setShadowInfo nm value orig t) = name t /\
  tsr (dataAttribs (setShadowInfo nm value orig t)) = tsr (dataAttribs t) /\
  stx (dataAttribs (setShadowInfo nm value orig t)) = stx (dataAttribs t).
Proof. unfold setShadowInfo. destruct (_ && _); auto. Qed.

Lemma applyProposals_frame (es : list (jsstring * option proposal)) :
  forall t t', applyProposals t es = Ok t' ->
  constructorName t' = constructorName t /\ name t' = name t /\
  tsr (dataAttribs t') = tsr (dataAttribs t) /\
  stx (dataAttribs t') = stx (dataAttribs t).
Proof.
  induction es as [|[key p] es IH]; intros t t'; simpl.
  - intros E. injection E as <-. auto.
  - unfold applyProposal. cbn [fst snd].
    destruct p as [[[newV orig] origK]|]; cbn [bind]; [|discriminate].
    destruct newV as [val|]; cbn [bind]; intros E;
      destruct (IH _ _ E) as (H1 & H2 & H3 & H4);
      rewrite H1, H2, H3, H4.
    + unfold addNormalizedAttribute.
      destruct (setShadowInfo_frame key (VStr val) orig (addAttribute key val t))
        as (-> & -> & -> & ->). auto.
    + destruct (setShadowInfo_frame origK VNull orig t) as (-> & -> & -> & ->).
      auto.
Qed.

(** X6.  A sanitized tag has at most one attribute of each name. *)
Theorem sanitized_keys_distinct (this : Receiver) (conf : Conf)
    (t t' : TagToken) (inTemplate : bool) (cache cache' : awlCache) :
  sanitizeToken this conf (Tag t) inTemplate cache = (Ok (inl (Tag t')), cache') ->
  NoDup (map k (attribs t')).
Proof.
  intros H.
  apply sanitizeToken_rebuilt in H
    as [(Ha & -> & _)|[(_ & -> & _)|(_ & _ & wlist & newAttrs & _ & Hs & Hp)]].
  - rewrite Ha. constructor.
  - constructor.
  - apply (applyProposals_NoDup _ _ _ Hp). simpl.
    apply NoDup_obj_entries, NoDup_assigned.
    exact (sanitizeAttrs_assigns _ _ _ _ _ _ _ Hs).
Qed.

(** X7.  Whatever sanitizeToken returns as a token for a tag is a tag of
    the same class and name, with the same source range and syntax hint;
    for an end tag it has no attributes. *)
Theorem sanitized_tag_frame (this : Receiver) (conf : Conf) (t : TagToken)
    (token' : Token) (inTemplate : bool) (cache cache' : awlCache) :
  sanitizeToken this conf (Tag t) inTemplate cache = (Ok (inl token'), cache') ->
  exists t' : TagToken,
    token' = Tag t' /\
    constructorName t' = constructorName t /\ name t' = name t /\
    tsr (dataAttribs t') = tsr (dataAttribs t) /\
    stx (dataAttribs t') = stx (dataAttribs t) /\
    (constructorName t = EndTagTk -> attribs t' = []).
Proof.
  intros H.
  assert (Ht : exists t', token' = Tag t').
  { revert H. unfold sanitizeToken.
    destruct (isHTMLTag (Tag t) && _).
    - destruct (negb inTemplate && _).
      + destruct (getWTSource t (this_conf this)); cbn [bind]; discriminate.
      + destruct (negb (isEndTag t)); discriminate.
    - destruct (attribs t) as [|a0 attrs0].
      + intros E. injection E as <- _. eauto.
      + destruct (isEndTag t).
        * intros E. injection E as <- _. eauto.
        * destruct (sanitizeTagAttrs conf None (Some t) (a0 :: attrs0) cache)
            as [[newAttrs|e] c1]; cbn [bind]; [|discriminate].
          destruct (applyProposals _ _) as [t1|]; cbn [bind]; [|discriminate].
          intros E. injection E as <- _. eauto. }
  destruct Ht as [t' ->]. exists t'. split; [reflexivity|].
  apply sanitizeToken_rebuilt in H
    as [(Ha & -> & _)|[(He & -> & _)|(He & _ & wlist & newAttrs & _ & Hs & Hp)]].
  - repeat split; auto.
  - simpl. repeat split; auto.
  - destruct (applyProposals_frame _ _ _ Hp) as (H1 & H2 & H3 & H4).
    simpl in H1, H2, H3, H4. repeat split; auto.
    intros Hk. unfold isEndTag in He. rewrite Hk in He. discriminate.
Qed.

(* ================================================================== *)
(** * First characters *)

Lemma firstOf_sound (ic : bool) (r : regex) :
  forall F st cont res,
    firstOf ic r = Some F ->
    rmatch ic r st cont = Some res ->
    exists x s', rest st = x :: s' /\ F x = true.
Proof.
  induction r as [|c|negated cs|r1 IH1 r2 IH2|r1 IH1 r2 IH2|mn mx g r1 IH1
                  |n r1 IH1| | |positive r1 IH1];
    intros F st cont res HF; simpl in HF; try discriminate.
  - injection HF as <-. simpl. destruct (rest st) as [|x s']; [discriminate|].
    destruct (chrMatches ic c x) eqn:E; [eauto | discriminate].
  - injection HF as <-. simpl. destruct (rest st) as [|x s']; [discriminate|].
    destruct (clsMatches ic negated cs x) eqn:E; [eauto | discriminate].
  - simpl. intros H. exact (IH1 _ _ _ _ HF H).
  - destruct (firstOf ic r1) as [F1|]; [|discriminate].
    destruct (firstOf ic r2) as [F2|]; [|discriminate].
    injection HF as <-. simpl. unfold orElse.
    destruct (rmatch ic r1 st cont) eqn:E1.
    + intros _. destruct (IH1 _ _ _ _ eq_refl E1) as (x & s' & Hr & Hx).
      exists x, s'. now rewrite Hx.
    + intros E2. destruct (IH2 _ _ _ _ eq_refl E2) as (x & s' & Hr & Hx).
      exists x, s'. rewrite Hx. split; [assumption | apply orb_true_r].
  - simpl. intros H. exact (IH1 _ _ _ _ HF H).
Qed.

Lemma matchAt_first (re : RegExp) (F : Z -> bool) (p : nat) (s : jsstring) :
  firstOf (ignoreCase re) (source re) = Some F ->
  match s with
  | x :: _ => F x = false
  | [] => True
  end ->
  matchAt re p s = None.
Proof.
  intros HF Hs. unfold matchAt.
  destruct (rmatch (ignoreCase re) (source re) (MState p s []) (fun st => Some st))
    as [st|] eqn:E; [|reflexivity].
  destruct (firstOf_sound _ _ _ _ _ _ HF E) as (x & s' & Hr & Hx).
  simpl in Hr. subst s. congruence.
Qed.

(** A pattern that begins with [^] matches at the start only. *)
Lemma searchFrom_anchored (re : RegExp) (r : regex) (s : jsstring) (p : nat) :
  source re = Seq Bol r -> searchFrom re (S p) s = None.
Proof.
  intros Hs. revert p. induction s as [|c s IH]; intros p; simpl;
    unfold matchAt; rewrite Hs; simpl; [reflexivity | apply IH].
Qed.

Lemma test_anchored_first (re : RegExp) (r : regex) (F : Z -> bool) (s : jsstring) :
  source re = Seq Bol r ->
  firstOf (ignoreCase re) r = Some F ->
  test re s = true ->
  exists x s', s = x :: s' /\ F x = true.
Proof.
  intros Hs HF. unfold test, exec.
  destruct s as [|c s]; simpl.
  - unfold matchAt. rewrite Hs. simpl.
    destruct (rmatch (ignoreCase re) r (MState 0 [] []) (fun st => Some st)) eqn:E;
      [|discriminate].
    destruct (firstOf_sound _ _ _ _ _ _ HF E) as (x & s' & Hr & _). discriminate.
  - rewrite (searchFrom_anchored re r s O Hs).
    unfold matchAt. rewrite Hs. simpl.
    destruct (rmatch (ignoreCase re) r (MState 0 (c :: s) []) (fun st => Some st)) eqn:E;
      [|discriminate].
    destruct (firstOf_sound _ _ _ _ _ _ HF E) as (x & s' & Hr & Hx).
    simpl in Hr. injection Hr as <- <-. eauto.
Qed.

(* ================================================================== *)
(** * The attribute whitelists *)

Lemma obj_get_In {V : Type} (o : obj V) (key : jsstring) (x : V) :
  obj_get o key = Some x -> In (key, x) o.
Proof.
  induction o as [|[q w] o IH]; simpl; [discriminate|].
  destruct (streq q key) eqn:E.
  - apply streq_spec in E. subst q. intros H. injection H as <-. now left.
  - intros H. right. now apply IH.
Qed.

Lemma setHas_In (s : list jsstring) (x : jsstring) : setHas s x = true <-> In x s.
Proof.
  unfold setHas. rewrite existsb_exists. split.
  - intros (y & Hy & E). apply streq_spec in E. now subst.
  - intros H. exists x. split; [assumption | apply streq_refl].
Qed.

(** Whatever the configuration, the table allows no event handler, [href]
    on [a] and [link] only, [src] on [img], [source] and [track] only, and
    [poster] on [video] only. *)
Lemma attrWhiteList_entries (tag : jsstring) (l : list jsstring) :
  obj_get attrWhiteList tag = Some l ->
  forallb (fun key => negb (eventHandlerKey key)) l = true /\
  (setHas l (js "href") = true -> tag = js "a" \/ tag = js "link") /\
  (setHas l (js "src") = true ->
   tag = js "img" \/ tag = js "source" \/ tag = js "track") /\
  (setHas l (js "poster") = true -> tag = js "video").
Proof.
  intros H. apply obj_get_In in H. unfold attrWhiteList in H.
  assert (A : forall c : GlobalConfig,
    forallb (fun e : jsstring * list jsstring =>
      forallb (fun key => negb (eventHandlerKey key)) (snd e) &&
      implb (setHas (snd e) (js "href"))
            (streq (fst e) (js "a") || streq (fst e) (js "link")) &&
      implb (setHas (snd e) (js "src"))
            (streq (fst e) (js "img") || streq (fst e) (js "source")
             || streq (fst e) (js "track")) &&
      implb (setHas (snd e) (js "poster")) (streq (fst e) (js "video")))
      (computeAttrWhiteList c) = true).
  { intros [[] [] []]; vm_compute; reflexivity. }
  specialize (A config). rewrite forallb_forall in A. specialize (A _ H).
  cbn [fst snd] in A. rewrite !andb_true_iff in A.
  destruct A as (((A1 & A2) & A3) & A4).
  split; [assumption|].
  split; [|split]; intros E.
  - rewrite E in A2. simpl in A2. rewrite orb_true_iff, !streq_spec in A2. tauto.
  - rewrite E in A3. simpl in A3. rewrite !orb_true_iff, !streq_spec in A3. tauto.
  - rewrite E in A4. simpl in A4. now apply streq_spec in A4.
Qed.

(** X8.  Whatever the configuration, no attribute whitelist of the static
    table holds a name that begins with [on]; [href] is listed for [a] and
    [link] only, [src] for [img], [source] and [track] only, and [poster]
    for [video] only. *)
Theorem attrWhiteList_no_event_handler :
  forall (tag : jsstring) (l : list jsstring),
    obj_lookup attrWhiteList tag = Own l ->
    (forall key : jsstring, In key l -> startsWith (js "on") key = false) /\
    (In (js "href") l -> tag = js "a" \/ tag = js "link") /\
    (In (js "src") l -> tag = js "img" \/ tag = js "source" \/ tag = js "track") /\
    (In (js "poster") l -> tag = js "video").
Proof.
  intros tag l H. unfold obj_lookup in H.
  destruct (obj_get attrWhiteList tag) as [l'|] eqn:E;
    [|destruct (isInherited tag); discriminate].
  injection H as ->.
  destruct (attrWhiteList_entries tag l E) as (A1 & A2 & A3 & A4).
  split.
  - intros key Hin. rewrite forallb_forall in A1. specialize (A1 key Hin).
    now apply negb_true_iff in A1.
  - repeat split; intros Hin; [apply A2 | apply A3 | apply A4];
      now apply setHas_In.
Qed.

Lemma obj_get_update_same {V : Type} (key : jsstring) (x : V) (o : obj V) :
  obj_get (obj_update key x o) key = Some x.
Proof.
  induction o as [|[q w] o IH]; simpl.
  - now rewrite streq_refl.
  - destruct (streq q key) eqn:E; simpl; now rewrite E.
Qed.

Lemma isInherited_proto (tag : jsstring) :
  isInherited tag = false -> streq tag (js "__proto__") = false.
Proof.
  intros H. destruct (streq tag (js "__proto__")) eqn:E; [|reflexivity].
  apply streq_spec in E. subst tag. discriminate.
Qed.

(** The cases of getAttrWhiteList: the tag is in the cache; or its name is
    that of an inherited member; or the entry of the table is put into the
    cache and returned. *)
Lemma getAttrWhiteList_cases (cache : awlCache) (tag : jsstring) :
  (exists s, obj_get cache tag = Some s /\
             getAttrWhiteList cache tag = (Ok (WSet s), cache)) \/
  (obj_get cache tag = None /\ isInherited tag = true /\
   getAttrWhiteList cache tag = (Ok (WMember tag), cache)) \/
  (obj_get cache tag = None /\ isInherited tag = false /\
   getAttrWhiteList cache tag
   = (Ok (WSet (tableEntry tag)), obj_update tag (tableEntry tag) cache)).
Proof.
  destruct (obj_get cache tag) as [s|] eqn:Ec.
  - left. exists s. split; [reflexivity|].
    unfold getAttrWhiteList, obj_lookup. now rewrite Ec.
  - destruct (isInherited tag) eqn:Ei.
    + right. left. split; [reflexivity|]. split; [reflexivity|].
      unfold getAttrWhiteList, obj_lookup. now rewrite Ec, Ei.
    + right. right. split; [reflexivity|]. split; [reflexivity|].
      pose proof (isInherited_proto tag Ei) as Hp.
      unfold getAttrWhiteList, tableEntry, obj_lookup. rewrite Ec, Ei.
      destruct (obj_get attrWhiteList tag) as [l|];
        unfold obj_set; rewrite Hp, obj_get_update_same; reflexivity.
Qed.

Lemma getAttrWhiteList_fromTable (cache cache' : awlCache) (tag : jsstring)
    (wlist : whitelist) :
  cacheFromTable cache ->
  getAttrWhiteList cache tag = (Ok wlist, cache') ->
  (wlist = WSet (tableEntry tag) \/ wlist = WMember tag) /\
  cacheFromTable cache'.
Proof.
  intros Hc H.
  destruct (getAttrWhiteList_cases cache tag)
    as [(s & Es & E)|[(_ & _ & E)|(En & Ei & E)]];
    rewrite E in H; injection H as <- <-.
  - split; [|assumption]. left. f_equal. now apply Hc.
  - split; [now right | assumption].
  - split; [now left|]. intros q s Hq.
    destruct (streq q tag) eqn:Eq.
    + apply streq_spec in Eq. subst q. rewrite obj_get_update_same in Hq.
      congruence.
    + apply streq_neq in Eq. rewrite obj_get_update_other in Hq by assumption.
      now apply Hc.
Qed.

(** X9.  getAttrWhiteList memoizes: a second call for the same tag returns
    what the first returned and leaves the cache as the first left it; a
    call changes the cache entry of no other tag; and a cache that holds
    only entries of the static table keeps doing so and then resolves every
    tag, unless named like an inherited member, to its entry of the table (to
    the empty set where the table has none). *)
Theorem getAttrWhiteList_memoizes (cache : awlCache) (tag : jsstring) :
  getAttrWhiteList (snd (getAttrWhiteList cache tag)) tag
  = getAttrWhiteList cache tag /\
  (forall other : jsstring,
     other <> tag ->
     obj_get (snd (getAttrWhiteList cache tag)) other = obj_get cache other) /\
  (cacheFromTable cache ->
   cacheFromTable (snd (getAttrWhiteList cache tag)) /\
   (isInherited tag = false ->
    fst (getAttrWhiteList cache tag) = Ok (WSet (tableEntry tag)))).
Proof.
  destruct (getAttrWhiteList_cases cache tag)
    as [(s & Es & E)|[(En & Ei & E)|(En & Ei & E)]].
  - rewrite E. cbn [fst snd]. split; [assumption|]. split; [reflexivity|].
    intros Hc. split; [assumption|]. intros _. f_equal. f_equal. now apply Hc.
  - rewrite E. cbn [fst snd]. split; [assumption|]. split; [reflexivity|].
    intros Hc. split; [assumption | congruence].
  - pose proof E as E'. rewrite E. cbn [fst snd]. split; [|split].
    + destruct (getAttrWhiteList_cases (obj_update tag (tableEntry tag) cache) tag)
        as [(s & Es & E2)|[(En2 & _)|(En2 & _)]];
        rewrite obj_get_update_same in *; try discriminate.
      injection Es as <-. exact E2.
    + intros other Ho. now apply obj_get_update_other.
    + intros Hc. split; [|reflexivity].
      exact (proj2 (getAttrWhiteList_fromTable _ _ _ _ Hc E')).
Qed.

(* ================================================================== *)
(** * Event handlers *)

Lemma startsWith_on (x : Z) (s : jsstring) :
  x <> 111 -> startsWith (js "on") (x :: s) = false.
Proof.
  intros H. change (js "on") with [111; 110]. cbn [startsWith].
  apply Z.eqb_neq in H. rewrite Z.eqb_sym in H. now rewrite H.
Qed.

(** The keys isParsoidAttr recognizes. *)
Lemma isParsoidAttr_keys (key val : jsstring) (attrs : list KV) :
  isParsoidAttr key val attrs = true ->
  test reParsoidKeys key = true \/ key = js "about" \/ key = js "content".
Proof.
  unfold isParsoidAttr. rewrite !orb_true_iff, !andb_true_iff, !streq_spec. tauto.
Qed.

Lemma reParsoidKeys_first (key : jsstring) :
  test reParsoidKeys key = true -> startsWith (js "on") key = false.
Proof.
  intros H.
  destruct (test_anchored_first reParsoidKeys _ _ key eq_refl eq_refl H)
    as (x & s' & -> & Hx).
  apply startsWith_on. intros ->. discriminate.
Qed.

Lemma XMLNS_first (key : jsstring) :
  test XMLNS_ATTRIBUTE_RE key = true -> startsWith (js "on") key = false.
Proof.
  intros H.
  destruct (test_anchored_first XMLNS_ATTRIBUTE_RE _ _ key eq_refl eq_refl H)
    as (x & s' & -> & Hx).
  apply startsWith_on. intros ->. discriminate.
Qed.

Lemma reDataAttr_first (key : jsstring) :
  test reDataAttr key = true -> startsWith (js "on") key = false.
Proof.
  intros H.
  destruct (test_anchored_first reDataAttr _ _ key eq_refl eq_refl H)
    as (x & s' & -> & Hx).
  apply startsWith_on. intros ->. discriminate.
Qed.

(** No key that may stay on a tag whose whitelist comes from the table is
    the name of an event handler. *)
Lemma mayStay_no_event_handler (tag : jsstring) (wlist : whitelist)
    (attrs : list KV) (key : jsstring) :
  wlist = WSet (tableEntry tag) \/ wlist = WMember tag ->
  mayStay wlist attrs key -> startsWith (js "on") key = false.
Proof.
  intros Hw [(attr & _ & _ & Hp)|(_ & [[_ Hx]|[[_ Hd]|Hl]])].
  - apply isParsoidAttr_keys in Hp as [Hp|[->| ->]];
      [now apply reParsoidKeys_first | reflexivity | reflexivity].
  - now apply XMLNS_first.
  - now apply reDataAttr_first.
  - destruct Hw as [-> | ->]; [|discriminate].
    simpl in Hl. injection Hl as Hl. apply setHas_In in Hl.
    unfold tableEntry in Hl.
    destruct (obj_get attrWhiteList tag) as [l|] eqn:E; [|destruct Hl].
    destruct (attrWhiteList_entries tag l E) as [A _].
    rewrite forallb_forall in A. specialize (A key Hl).
    now apply negb_true_iff in A.
Qed.

(** X10.  With a whitelist cache that holds only entries of the static
    table, no attribute of a sanitized tag has a name that begins with
    [on]: event handlers never survive; and the cache still holds only
    entries of the table afterwards. *)
Theorem sanitized_no_event_handler (this : Receiver) (conf : Conf)
    (t t' : TagToken) (inTemplate : bool) (cache cache' : awlCache) :
  cacheFromTable cache ->
  sanitizeToken this conf (Tag t) inTemplate cache = (Ok (inl (Tag t')), cache') ->
  (forall kv : KV, In kv (attribs t') -> startsWith (js "on") (k kv) = false) /\
  cacheFromTable cache'.
Proof.
  intros Hc H.
  apply sanitizeToken_rebuilt in H
    as [(Ha & -> & ->)|[(_ & -> & ->)|(_ & _ & wlist & newAttrs & Hw & Hs & Hp)]].
  - split; [|assumption]. rewrite Ha. intros kv [].
  - split; [|assumption]. intros kv [].
  - destruct (getAttrWhiteList_fromTable _ _ _ _ Hc Hw) as [Hwl Hc'].
    split; [|assumption]. intros kv Hkv.
    destruct (applyProposals_attribs _ _ _ Hp kv Hkv) as [[]|(orig & origK & Hin)].
    apply obj_entries_In in Hin.
    apply (sanitizeAttrs_proposalsOK conf wlist (Some t) (attribs t)
             (attribs t) [] newAttrs) in Hs.
    + apply (mayStay_no_event_handler (name t) wlist (attribs t)); [assumption|].
      exact (Hs _ _ _ _ Hin).
    + apply incl_refl.
    + intros key val o ok [].
Qed.

(* ================================================================== *)
(** * Percent-encoding *)

Lemma hexChar_upper (d : Z) :
  0 <= d <= 15 ->
  ((48 <= hexChar false d <= 57) \/ (65 <= hexChar false d <= 70)) /\
  (hexChar false d = 50 -> d = 2) /\ (hexChar false d = 48 -> d = 0).
Proof.
  intros H. unfold hexChar. destruct (d <? 10) eqn:E;
    [apply Z.ltb_lt in E | apply Z.ltb_ge in E]; lia.
Qed.

Lemma hexChar_byte (b : Z) :
  0 <= b <= 255 -> 0 <= b / 16 <= 15 /\ 0 <= b mod 16 <= 15.
Proof.
  intros H. split.
  - assert (b / 16 < 16) by (apply Z.div_lt_upper_bound; lia).
    assert (0 <= b / 16) by (apply Z.div_pos; lia). lia.
  - pose proof (Z.mod_pos_bound b 16). lia.
Qed.

Lemma escaped_app (P B : Z -> Prop) (s1 s2 : jsstring) :
  escaped P B s1 -> escaped P B s2 -> escaped P B (s1 ++ s2).
Proof.
  intros H1 H2. induction H1; simpl; [assumption | |]; now constructor.
Qed.

Lemma escaped_weaken (P Q B C : Z -> Prop) (s : jsstring) :
  (forall c, P c -> Q c) -> (forall b, B b -> C b) ->
  escaped P B s -> escaped Q C s.
Proof.
  intros HP HB H.
  induction H; [constructor | apply escaped_chr; auto | apply escaped_pct; auto].
Qed.

Lemma escaped_percent (P B : Z -> Prop) (bytes : list Z) :
  Forall (fun b => 0 <= b <= 255 /\ B b) bytes -> escaped P B (percent bytes).
Proof.
  intros H. unfold percent. induction H as [|b bytes [Hb HB] _ IH]; simpl.
  - constructor.
  - now constructor.
Qed.

(** The UTF-8 bytes of a code point: bytes, and above 127 for a code point
    above 127. *)
Lemma utf8_bytes (cp : Z) :
  0 <= cp <= 1114111 ->
  Forall (fun b => 0 <= b <= 255 /\ (128 <= cp -> 128 <= b)) (utf8 cp).
Proof.
  intros H. unfold utf8.
  destruct (cp <? 128) eqn:E1; [apply Z.ltb_lt in E1 | apply Z.ltb_ge in E1].
  { repeat constructor; lia. }
  assert (M64 : 0 <= cp mod 64 < 64) by (apply Z.mod_pos_bound; lia).
  destruct (cp <? 2048) eqn:E2; [apply Z.ltb_lt in E2 | apply Z.ltb_ge in E2].
  { assert (0 <= cp / 64 < 32)
      by (split; [apply Z.div_pos | apply Z.div_lt_upper_bound]; lia).
    repeat constructor; lia. }
  assert (M64' : 0 <= (cp / 64) mod 64 < 64) by (apply Z.mod_pos_bound; lia).
  destruct (cp <? 65536) eqn:E3; [apply Z.ltb_lt in E3 | apply Z.ltb_ge in E3].
  { assert (0 <= cp / 4096 < 16)
      by (split; [apply Z.div_pos | apply Z.div_lt_upper_bound]; lia).
    repeat constructor; lia. }
  assert (M64'' : 0 <= (cp / 4096) mod 64 < 64) by (apply Z.mod_pos_bound; lia).
  assert (0 <= cp / 262144 < 5)
    by (split; [apply Z.div_pos | apply Z.div_lt_upper_bound]; lia).
  repeat constructor; lia.
Qed.

Lemma escaped_utf8 (P B : Z -> Prop) (cp : Z) :
  0 <= cp <= 1114111 ->
  (cp < 128 -> B cp) -> (forall b, 128 <= b -> B b) ->
  escaped P B (percent (utf8 cp)).
Proof.
  intros H H1 H2. apply escaped_percent.
  pose proof (utf8_bytes cp H) as HU.
  destruct (Z_lt_ge_dec cp 128) as [Hlt|Hge].
  - unfold utf8 in *. apply Z.ltb_lt in Hlt as Hlt'. rewrite Hlt' in *.
    repeat constructor; try lia. now apply H1.
  - eapply Forall_impl; [|exact HU]. intros b [Hb Hc]. split; [assumption|].
    apply H2. lia.
Qed.

Lemma encodeURIComponent_cons (c : Z) (s' : jsstring) :
  encodeURIComponent (c :: s') =
  if uriUnreserved c then
    r <- encodeURIComponent s' ;; Ok (c :: r)
  else if isLowSurrogate c then Throw URIError
  else if isHighSurrogate c then
    match s' with
    | d :: s'' =>
        if isLowSurrogate d then
          r <- encodeURIComponent s'' ;;
          Ok (percent (utf8 (65536 + (c - 55296) * 1024 + (d - 56320))) ++ r)
        else Throw URIError
    | [] => Throw URIError
    end
  else
    r <- encodeURIComponent s' ;; Ok (percent (utf8 c) ++ r).
Proof. reflexivity. Qed.

(** What encodeURIComponent writes for a string [s]: unreserved characters
    and percent-escapes of bytes; the escaped bytes below 128 are code units
    of [s]. *)
Lemma encodeURIComponent_escaped (B : Z -> Prop) :
  (forall b, 128 <= b -> B b) ->
  forall s,
    (forall e, codeUnits s -> Forall B s ->
               encodeURIComponent s = Ok e ->
               escaped (fun c => uriUnreserved c = true) B e) /\
    (forall c e, codeUnits (c :: s) -> Forall B (c :: s) ->
                 encodeURIComponent (c :: s) = Ok e ->
                 escaped (fun c => uriUnreserved c = true) B e).
Proof.
  intros HB. induction s as [|d s [IH1 IH2]].
  - split.
    + intros e _ _ E. injection E as <-. constructor.
    + intros c e Hu Hb. inversion Hu as [|? ? Hc _]; subst.
      inversion Hb as [|? ? Hbc _]; subst. simpl.
      destruct (uriUnreserved c) eqn:Eu.
      * intros E. injection E as <-. constructor; [assumption| |constructor].
        intros ->. discriminate.
      * destruct (isLowSurrogate c); [discriminate|].
        destruct (isHighSurrogate c); [discriminate|].
        intros E. injection E as <-. rewrite app_nil_r.
        apply escaped_utf8; [lia | auto | assumption].
  - split; [exact (IH2 d)|].
    intros c e Hu Hb. inversion Hu as [|? ? Hc Hu']; subst.
    inversion Hb as [|? ? Hbc Hb']; subst.
    rewrite encodeURIComponent_cons.
    destruct (uriUnreserved c) eqn:Eu.
    + destruct (encodeURIComponent (d :: s)) as [r|] eqn:Er; cbn [bind];
        [|discriminate].
      intros E. injection E as <-. constructor; [assumption| |].
      * intros ->. discriminate.
      * now apply (IH2 d).
    + destruct (isLowSurrogate c); [discriminate|].
      destruct (isHighSurrogate c) eqn:Eh.
      * destruct (isLowSurrogate d) eqn:El; [|discriminate].
        destruct (encodeURIComponent s) as [r|] eqn:Er; unfold bind;
          [|discriminate].
        intros E.
        replace e with (percent (utf8 (65536 + (c - 55296) * 1024 + (d - 56320)))
                        ++ r) by congruence.
        inversion Hu' as [|? ? Hd Hu'']; subst.
        inversion Hb' as [|? ? _ Hb'']; subst.
        apply escaped_app; [|now apply IH1].
        unfold isHighSurrogate in Eh. unfold isLowSurrogate in El.
        rewrite andb_true_iff, !Z.leb_le in Eh, El.
        apply escaped_utf8; [lia | lia | assumption].
      * destruct (encodeURIComponent (d :: s)) as [r|] eqn:Er; cbn [bind];
          [|discriminate].
        intros E. injection E as <-.
        apply escaped_app; [|now apply (IH2 d)].
        apply escaped_utf8; [lia | auto | assumption].
Qed.

(** Escaping one more character that encodeURIComponent leaves alone. *)
Lemma escaped_replace (P B : Z -> Prop) (q : Z) (e : jsstring) :
  q <> 37 -> 0 <= q <= 255 -> ~ ((48 <= q <= 57) \/ (65 <= q <= 70)) -> B q ->
  escaped P B e ->
  escaped (fun c => P c /\ c <> q) B
    (flat_map (fun c => if chrMatches false q c
                        then [37; hexChar false (q / 16); hexChar false (q mod 16)]
                        else [c]) e).
Proof.
  intros Hq Hr HQ HBq H. induction H as [|c s Hc H37 _ IH|b s Hb HB _ IH].
  - constructor.
  - cbn [flat_map]. unfold chrMatches at 1. rewrite orb_false_r.
    destruct (q =? c) eqn:E.
    + now constructor.
    + apply Z.eqb_neq in E. cbn [app]. constructor; [split| |]; auto.
  - destruct (hexChar_byte b Hb) as [H1 H2].
    destruct (hexChar_upper _ H1) as [U1 _].
    destruct (hexChar_upper _ H2) as [U2 _].
    cbn [flat_map]. unfold chrMatches at 1 2 3. rewrite !orb_false_r.
    assert (E0 : (q =? 37) = false) by now apply Z.eqb_neq.
    assert (E1 : (q =? hexChar false (b / 16)) = false).
    { apply Z.eqb_neq. intros ->. now apply HQ. }
    assert (E2 : (q =? hexChar false (b mod 16)) = false).
    { apply Z.eqb_neq. intros ->. now apply HQ. }
    rewrite E0, E1, E2. cbn [app]. now constructor.
Qed.

Lemma escaped_chars (P B : Z -> Prop) (e : jsstring) :
  escaped P B e ->
  Forall (fun c => (P c /\ c <> 37) \/ c = 37 \/
                   (48 <= c <= 57) \/ (65 <= c <= 70)) e.
Proof.
  intros H. induction H as [|c s Hc H37 _ IH|b s Hb HB _ IH].
  - constructor.
  - constructor; [left; now split | assumption].
  - destruct (hexChar_byte b Hb) as [H1 H2].
    destruct (hexChar_upper _ H1) as [U1 _].
    destruct (hexChar_upper _ H2) as [U2 _].
    constructor; [right; now left|].
    constructor; [right; right; exact U1|].
    constructor; [right; right; exact U2 | assumption].
Qed.

(** A text in which no space is escaped holds no [%20]. *)
Lemma escaped_no_pct20 (P B : Z -> Prop) (t e : jsstring) :
  (forall b, B b -> b <> 32) ->
  escaped P B e -> replaceEvery (js "%20") t e = e.
Proof.
  intros HB H. unfold replaceEvery. change (js "%20") with [37; 50; 48].
  induction H as [|c s Hc H37 _ IH|b s Hb HBb _ IH].
  - reflexivity.
  - cbn [replaceText startsWith].
    assert (E : (37 =? c) = false) by (apply Z.eqb_neq; congruence).
    rewrite E. cbn [andb]. now rewrite IH.
  - destruct (hexChar_byte b Hb) as [H1 H2].
    destruct (hexChar_upper _ H1) as (U1 & V1 & _).
    destruct (hexChar_upper _ H2) as (U2 & _ & V2).
    assert (E : (50 =? hexChar false (b / 16))
                && ((48 =? hexChar false (b mod 16)) && true) = false).
    { destruct (50 =? hexChar false (b / 16)) eqn:E1; [|reflexivity].
      destruct (48 =? hexChar false (b mod 16)) eqn:E2; [|reflexivity].
      apply Z.eqb_eq in E1, E2. symmetry in E1, E2.
      apply V1 in E1. apply V2 in E2. exfalso. apply (HB b HBb).
      rewrite (Z.div_mod b 16) by lia. lia. }
    cbn [replaceText startsWith]. rewrite Z.eqb_refl. cbn [andb]. rewrite E.
    assert (E1 : (37 =? hexChar false (b / 16)) = false) by (apply Z.eqb_neq; lia).
    assert (E2 : (37 =? hexChar false (b mod 16)) = false) by (apply Z.eqb_neq; lia).
    rewrite E1. cbn [andb]. rewrite E2. cbn [andb]. now rewrite IH.
Qed.

Lemma replaceText_chars (P : Z -> Prop) (p t : jsstring) :
  Forall P t ->
  forall s skip, Forall P s -> Forall P (replaceText p t skip s).
Proof.
  intros Ht. induction s as [|c s IH]; intros skip Hs.
  - destruct skip; constructor.
  - inversion Hs as [|? ? Hc Hs']; subst.
    destruct skip as [|skip]; cbn [replaceText]; [|now apply IH].
    destruct (startsWith p (c :: s)).
    + apply Forall_app. split; [assumption | now apply IH].
    + constructor; [assumption | now apply IH].
Qed.

Lemma replace_reChar (q : Z) (t s : jsstring) :
  replace (reChar q) t s
  = flat_map (fun c => if chrMatches false q c then t else [c]) s.
Proof.
  apply (replace_unit (reChar q) (chrMatches false q) (fun _ => []));
    [reflexivity | apply unit_Chr].
Qed.

(** The form of what phpURLEncode returns. *)
Lemma phpURLEncode_form (B : Z -> Prop) (txt r : jsstring) :
  (forall b, 33 <= b -> B b) ->
  codeUnits txt -> Forall B txt ->
  phpURLEncode txt = Ok r ->
  exists e,
    escaped (fun c => alnum c = true \/ c = 45 \/ c = 95 \/ c = 46) B e /\
    r = replaceEvery (js "%20") (js "+") e.
Proof.
  intros HB Hu Hb. unfold phpURLEncode.
  destruct (encodeURIComponent txt) as [e|] eqn:E; cbn [bind]; [|discriminate].
  intros H. injection H as <-.
  assert (HB' : forall b, 128 <= b -> B b) by (intros; apply HB; lia).
  pose proof (proj1 (encodeURIComponent_escaped B HB' txt) e Hu Hb E) as H0.
  rewrite !replace_reChar.
  change (mkRegExp (Lit "%20") false true) with (mkRegExp (lit (js "%20")) false true).
  rewrite replace_lit by discriminate.
  eexists. split; [|reflexivity].
  apply (escaped_replace _ B 33) in H0; [|lia|lia|lia|apply HB; lia].
  apply (escaped_replace _ B 39) in H0; [|lia|lia|lia|apply HB; lia].
  apply (escaped_replace _ B 40) in H0; [|lia|lia|lia|apply HB; lia].
  apply (escaped_replace _ B 41) in H0; [|lia|lia|lia|apply HB; lia].
  apply (escaped_replace _ B 42) in H0; [|lia|lia|lia|apply HB; lia].
  apply (escaped_replace _ B 126) in H0; [|lia|lia|lia|apply HB; lia].
  eapply escaped_weaken; [| |exact H0]; [|auto].
  intros c (((((( Hc & N1) & N2) & N3) & N4) & N5) & N6).
  unfold uriUnreserved, inRanges in Hc. cbn [existsb fst snd] in Hc.
  unfold alnum.
  rewrite ?orb_true_iff, ?andb_true_iff, ?Z.leb_le, ?orb_false_r in *.
  lia.
Qed.

(** X11.  What phpURLEncode returns for a string consists of ASCII letters
    and digits, [-], [_], [.], [%] and [+] only; and it holds a [+] only if
    the string holds a space. *)
Theorem phpURLEncode_charset (txt r : jsstring) :
  codeUnits txt ->
  phpURLEncode txt = Ok r ->
  Forall (fun c => urlencodedChar c = true) r /\
  (~ In 32 txt -> ~ In 43 r).
Proof.
  intros Hu H. split.
  - destruct (phpURLEncode_form (fun _ => True) txt r) as (e & He & ->); auto.
    { apply Forall_forall. auto. }
    apply replaceText_chars; [repeat constructor|].
    apply escaped_chars in He. eapply Forall_impl; [|exact He].
    intros c Hc. unfold urlencodedChar, alnum in *.
    rewrite ?orb_true_iff, ?andb_true_iff, ?Z.leb_le, ?Z.eqb_eq in *. lia.
  - intros Hn.
    destruct (phpURLEncode_form (fun b => b <> 32) txt r) as (e & He & ->); auto.
    { intros b Hb. lia. }
    { apply Forall_forall. intros c Hc ->. contradiction. }
    rewrite (escaped_no_pct20 _ _ _ e (fun b Hb => Hb) He).
    apply escaped_chars in He. rewrite Forall_forall in He.
    intros Hin. apply He in Hin. unfold alnum in Hin.
    rewrite ?orb_true_iff, ?andb_true_iff, ?Z.leb_le in Hin. lia.
Qed.

Lemma spacesToUnderscores_codeUnits (id : jsstring) :
  codeUnits id ->
  codeUnits (spacesToUnderscores id) /\ ~ In 32 (spacesToUnderscores id).
Proof.
  intros H. split.
  - unfold codeUnits, spacesToUnderscores. apply Forall_map.
    eapply Forall_impl; [|exact H]. intros c Hc. cbv beta in *.
    destruct (c =? 32); lia.
  - unfold spacesToUnderscores. intros Hi.
    apply in_map_iff in Hi as (c & Hc & _).
    destruct (c =? 32) eqn:E; [discriminate|]. apply Z.eqb_neq in E. congruence.
Qed.

(** X12.  A legacy id consists of ASCII letters and digits, [-], [_], [.]
    and [:] only. *)
Theorem escapeIdInternal_legacy_charset (id r : jsstring) :
  codeUnits id ->
  escapeIdInternal id (js "legacy") = Ok r ->
  Forall (fun c => legacyIdChar c = true) r.
Proof.
  intros Hu. unfold escapeIdInternal.
  change (streq (js "legacy") (js "html5")) with false.
  change (streq (js "legacy") (js "legacy")) with true. cbv iota.
  rewrite replace_reSpace.
  destruct (spacesToUnderscores_codeUnits id Hu) as [Hu' Hn].
  destruct (phpURLEncode (spacesToUnderscores id)) as [e|] eqn:E; cbn [bind];
    [|discriminate].
  intros H. injection H as <-.
  destruct (phpURLEncode_form (fun b => b <> 32) (spacesToUnderscores id) e)
    as (e' & He & ->); auto.
  { intros b Hb. lia. }
  { apply Forall_forall. intros c Hc ->. contradiction. }
  rewrite (escaped_no_pct20 _ _ _ e' (fun b Hb => Hb) He).
  rewrite replace_rePercent3A, replace_rePercent.
  unfold percentsToDots. apply Forall_map.
  apply (replaceText_chars
           (fun c => legacyIdChar (if c =? 37 then 46 else c) = true)).
  { repeat constructor. }
  apply escaped_chars in He. eapply Forall_impl; [|exact He].
  intros c Hc. destruct (c =? 37) eqn:E37; [reflexivity|].
  apply Z.eqb_neq in E37. unfold legacyIdChar, alnum in *.
  rewrite ?orb_true_iff, ?andb_true_iff, ?Z.leb_le, ?Z.eqb_eq in *. lia.
Qed.

(* ================================================================== *)
(** * Character references *)

(** A replacement with a replacer that never raises never raises, and one
    that does raises what the replacer raised. *)
Lemma replaceWith_total (re : RegExp) (f : matchResult -> result jsstring)
    (s : jsstring) :
  (forall m, exists r, f m = Ok r) -> exists r, replaceWith re f s = Ok r.
Proof.
  intros Hf. unfold replaceWith.
  assert (H : exists parts,
             mapM (fun p => match p with Keep c => Ok [c] | Hit m => f m end)
                  (scan re s) = Ok parts).
  { induction (scan re s) as [|p l [parts IH]]; simpl; [eauto|].
    rewrite IH. destruct p as [c|m]; simpl; [eauto|].
    destruct (Hf m) as [r ->]. simpl. eauto. }
  destruct H as [parts ->]. simpl. eauto.
Qed.

Lemma replaceWith_throws (Q : JSError -> Prop) (re : RegExp)
    (f : matchResult -> result jsstring) (s : jsstring) (e : JSError) :
  (forall m e', f m = Throw e' -> Q e') -> replaceWith re f s = Throw e -> Q e.
Proof.
  intros Hf. unfold replaceWith.
  assert (H : forall e',
             mapM (fun p => match p with Keep c => Ok [c] | Hit m => f m end)
                  (scan re s) = Throw e' -> Q e').
  { induction (scan re s) as [|p l IH]; simpl; [discriminate|].
    intros e'. destruct p as [c|m]; cbn [bind].
    - destruct (mapM _ l) as [bs|e0]; cbn [bind]; [discriminate|].
      intros E. injection E as <-. now apply IH.
    - destruct (f m) as [b|e0] eqn:Ef; cbn [bind].
      + destruct (mapM _ l) as [bs|e1]; cbn [bind]; [discriminate|].
        intros E. injection E as <-. now apply IH.
      + intros E. injection E as <-. now apply (Hf m). }
  destruct (mapM _ (scan re s)) as [parts|e0]; cbn [bind]; [discriminate|].
  intros E. injection E as <-. now apply H.
Qed.

(** Where no code unit can begin a match, a pattern with the g flag finds
    none. *)
Lemma scanAll_no_first (re : RegExp) (F : Z -> bool) (s : jsstring) :
  firstOf (ignoreCase re) (source re) = Some F ->
  Forall (fun c => F c = false) s ->
  forall p, scanAll re p O s = map Keep s.
Proof.
  intros HF H. induction H as [|c s Hc _ IH]; intros p; simpl.
  - now rewrite (matchAt_first re F p [] HF).
  - rewrite (matchAt_first re F p (c :: s) HF) by exact Hc. now rewrite IH.
Qed.

Lemma searchFrom_no_first (re : RegExp) (F : Z -> bool) (s : jsstring) :
  firstOf (ignoreCase re) (source re) = Some F ->
  Forall (fun c => F c = false) s ->
  forall p, searchFrom re p s = None.
Proof.
  intros HF H. induction H as [|c s Hc _ IH]; intros p; simpl.
  - now rewrite (matchAt_first re F p [] HF).
  - rewrite (matchAt_first re F p (c :: s) HF) by exact Hc. apply IH.
Qed.

Lemma scan_no_first (re : RegExp) (F : Z -> bool) (s : jsstring) :
  firstOf (ignoreCase re) (source re) = Some F ->
  Forall (fun c => F c = false) s ->
  scan re s = map Keep s.
Proof.
  intros HF H. unfold scan. destruct (global re).
  - now apply (scanAll_no_first re F).
  - unfold scanFirst, exec. now rewrite (searchFrom_no_first re F s HF H).
Qed.

Lemma mapM_Keep (f : matchResult -> result jsstring) (s : jsstring) :
  mapM (fun p => match p with Keep c => Ok [c] | Hit m => f m end) (map Keep s)
  = Ok (map (fun c => [c]) s).
Proof. induction s as [|c s IH]; simpl; [reflexivity | now rewrite IH]. Qed.

Lemma concat_singletons (s : jsstring) : concat (map (fun c => [c]) s) = s.
Proof. induction s as [|c s IH]; simpl; [reflexivity | now rewrite IH]. Qed.

(** Where no code unit can begin a match, a replacement changes nothing. *)
Lemma replaceWith_no_first (re : RegExp) (F : Z -> bool)
    (f : matchResult -> result jsstring) (s : jsstring) :
  firstOf (ignoreCase re) (source re) = Some F ->
  Forall (fun c => F c = false) s ->
  replaceWith re f s = Ok s.
Proof.
  intros HF H. unfold replaceWith. rewrite (scan_no_first re F s HF H).
  rewrite mapM_Keep. simpl. now rewrite concat_singletons.
Qed.

Lemma replaceFn_no_first (re : RegExp) (F : Z -> bool)
    (f : matchResult -> jsstring) (s : jsstring) :
  firstOf (ignoreCase re) (source re) = Some F ->
  Forall (fun c => F c = false) s ->
  replaceFn re f s = s.
Proof.
  intros HF H. unfold replaceFn. rewrite (scan_no_first re F s HF H).
  clear H. induction s as [|c s IH]; simpl; [reflexivity | now rewrite IH].
Qed.

(** Every entity of the table names a code point. *)
Lemma htmlEntities_valid (nm : jsstring) (cp : Z) :
  obj_get htmlEntities nm = Some cp -> 0 < cp <= 65535.
Proof.
  intros H. apply obj_get_In in H.
  assert (A : forallb (fun e : jsstring * Z => (0 <? snd e) && (snd e <=? 65535))
                      htmlEntities = true) by (vm_compute; reflexivity).
  rewrite forallb_forall in A. specialize (A _ H). simpl in A.
  apply andb_true_iff in A as [A1 A2].
  apply Z.ltb_lt in A1. apply Z.leb_le in A2. lia.
Qed.

Lemma fromCodePoint_bmp (cp : Z) : 0 <= cp <= 65535 -> fromCodePoint cp = Ok [cp].
Proof.
  intros H. unfold fromCodePoint.
  assert (E1 : (cp <? 0) = false) by (apply Z.ltb_ge; lia).
  assert (E2 : (1114111 <? cp) = false) by (apply Z.ltb_ge; lia).
  assert (E3 : (cp <? 65536) = true) by (apply Z.ltb_lt; lia).
  now rewrite E1, E2, E3.
Qed.

(** The text of an inherited member is no name of either table. *)
Lemma inheritedToString_unknown (nm : jsstring) :
  obj_lookup htmlEntities (inheritedToString nm) = Absent.
Proof.
  unfold inheritedToString.
  destruct (streq nm (js "__proto__")); [reflexivity|].
  destruct (streq nm (js "constructor")); reflexivity.
Qed.

Lemma htmlEntityAliases_rlm (nm alias : jsstring) :
  obj_get htmlEntityAliases nm = Some alias -> alias = js "rlm".
Proof.
  intros H. apply obj_get_In in H.
  destruct H as [H|[H|[]]]; now injection H.
Qed.

(** X13.  decodeEntity never raises.  It returns the character of a name
    of the entity table (or of one of the two aliases of [rlm]), and the
    pseudo-entity source [&name;] for any other name that is no member of
    [Object.prototype]; for a name such as [constructor] or [toString] it
    returns [&], the text of that inherited member and [;]. *)
Theorem decodeEntity_cases :
  (forall nm : jsstring, exists r : jsstring, decodeEntity nm = Ok r) /\
  (forall (nm : jsstring) (cp : Z),
     obj_get htmlEntityAliases nm = None ->
     obj_get htmlEntities nm = Some cp ->
     decodeEntity nm = Ok [cp]) /\
  (forall nm alias : jsstring,
     obj_get htmlEntityAliases nm = Some alias ->
     decodeEntity nm = Ok [8207]) /\
  (forall nm : jsstring,
     obj_get htmlEntityAliases nm = None ->
     obj_get htmlEntities nm = None ->
     isInherited nm = false ->
     decodeEntity nm = Ok (js "&" ++ nm ++ js ";")) /\
  (forall nm : jsstring,
     isInherited nm = true ->
     decodeEntity nm = Ok (js "&" ++ inheritedToString nm ++ js ";")).
Proof.
  assert (Hown : forall nm cp,
             obj_get htmlEntityAliases nm = None ->
             obj_get htmlEntities nm = Some cp ->
             decodeEntity nm = Ok [cp]).
  { intros nm cp Ha He. unfold decodeEntity, obj_lookup. rewrite Ha.
    destruct (isInherited nm) eqn:Ei; [|rewrite He].
    - exfalso.
      assert (A : forallb (fun q => match obj_get htmlEntities q with
                                    | None => true
                                    | Some _ => false
                                    end) objectPrototypeMembers = true)
        by (vm_compute; reflexivity).
      unfold isInherited in Ei. apply existsb_exists in Ei as (q & Hq & E).
      apply streq_spec in E. subst q.
      rewrite forallb_forall in A. specialize (A nm Hq).
      rewrite He in A. discriminate.
    - pose proof (htmlEntities_valid nm cp He) as Hv.
      assert (E : (cp =? 0) = false) by (apply Z.eqb_neq; lia).
      rewrite E. unfold codepointToUtf8. apply fromCodePoint_bmp. lia. }
  assert (Halias : forall nm alias,
             obj_get htmlEntityAliases nm = Some alias ->
             decodeEntity nm = Ok [8207]).
  { intros nm alias Ha. unfold decodeEntity, obj_lookup. rewrite Ha.
    rewrite (htmlEntityAliases_rlm nm alias Ha). reflexivity. }
  assert (Hinh : forall nm, isInherited nm = true ->
             decodeEntity nm = Ok (js "&" ++ inheritedToString nm ++ js ";")).
  { intros nm Hi. unfold decodeEntity.
    assert (Ha : obj_lookup htmlEntityAliases nm = Inherited).
    { unfold obj_lookup. destruct (obj_get htmlEntityAliases nm) as [alias|] eqn:Ea.
      - apply obj_get_In in Ea. destruct Ea as [Ea|[Ea|[]]];
          injection Ea as <- _; discriminate.
      - now rewrite Hi. }
    rewrite Ha. now rewrite inheritedToString_unknown. }
  assert (Hnone : forall nm,
             obj_get htmlEntityAliases nm = None ->
             obj_get htmlEntities nm = None ->
             isInherited nm = false ->
             decodeEntity nm = Ok (js "&" ++ nm ++ js ";")).
  { intros nm Ha He Hi. unfold decodeEntity, obj_lookup. now rewrite Ha, Hi, He, Hi. }
  split; [|auto].
  intros nm.
  destruct (obj_get htmlEntityAliases nm) as [alias|] eqn:Ea; [eauto|].
  destruct (isInherited nm) eqn:Ei; [eauto|].
  destruct (obj_get htmlEntities nm) as [cp|] eqn:Ee; eauto.
Qed.

Lemma decodeChar_total (cp : Z) : exists r, decodeChar cp = Ok r.
Proof.
  unfold decodeChar. destruct (validateCodepoint cp) eqn:E; [|eauto].
  apply validateCodepoint_spec in E. unfold codepointToUtf8, fromCodePoint.
  assert (E1 : (cp <? 0) = false) by (apply Z.ltb_ge; lia).
  assert (E2 : (1114111 <? cp) = false) by (apply Z.ltb_ge; lia).
  rewrite E1, E2. simpl. destruct (cp <? 65536); eauto.
Qed.

Lemma decodeCharDigits_total (radix : Z) (digits : jsval) :
  exists r, decodeCharDigits radix digits = Ok r.
Proof.
  unfold decodeCharDigits. destruct (parseInt radix (ToString digits));
    [apply decodeChar_total | eauto].
Qed.

Lemma decodeEntity_never_raises (nm : jsstring) : exists r, decodeEntity nm = Ok r.
Proof.
  unfold decodeEntity.
  destruct (obj_lookup htmlEntityAliases nm) as [alias| |] eqn:Ea.
  - unfold obj_lookup in Ea.
    destruct (obj_get htmlEntityAliases nm) as [al|] eqn:Eg;
      [|destruct (isInherited nm); discriminate].
    injection Ea as ->. rewrite (htmlEntityAliases_rlm nm alias Eg).
    change (orString (Some (js "rlm")) nm) with (js "rlm").
    change (obj_lookup htmlEntities (js "rlm")) with (Own (V := Z) 8207).
    eexists. reflexivity.
  - rewrite inheritedToString_unknown. eauto.
  - assert (Hi : isInherited nm = false).
    { unfold obj_lookup in Ea. destruct (obj_get htmlEntityAliases nm); [discriminate|].
      destruct (isInherited nm); [discriminate | reflexivity]. }
    unfold obj_lookup. rewrite Hi.
    destruct (obj_get htmlEntities nm) as [cp|] eqn:Ee; [|eauto].
    pose proof (htmlEntities_valid nm cp Ee) as Hv.
    assert (E : (cp =? 0) = false) by (apply Z.eqb_neq; lia).
    rewrite E. unfold codepointToUtf8. rewrite fromCodePoint_bmp by lia. eauto.
Qed.

Lemma decodeCharReferences_never_raises (text : jsstring) :
  exists r, decodeCharReferences text = Ok r.
Proof.
  unfold decodeCharReferences. apply replaceWith_total. intros m.
  destruct (truthy (arg 1 m)); [apply decodeEntity_never_raises|].
  destruct (truthy (arg 2 m)); [apply decodeCharDigits_total|].
  destruct (truthy (arg 3 m)); [apply decodeCharDigits_total | eauto].
Qed.

(** X14.  decodeCharReferences never raises, and it returns a text that
    holds no ampersand as it is. *)
Theorem decodeCharReferences_total :
  (forall text : jsstring, exists r : jsstring, decodeCharReferences text = Ok r) /\
  (forall text : jsstring, ~ In 38 text -> decodeCharReferences text = Ok text).
Proof.
  split.
  - apply decodeCharReferences_never_raises.
  - intros text Hn. unfold decodeCharReferences.
    apply (replaceWith_no_first CHAR_REFS_RE_G
             (fun x => chrMatches false 38 x
                       || (chrMatches false 38 x
                           || (chrMatches false 38 x || chrMatches false 38 x))));
      [reflexivity|].
    apply Forall_forall. intros c Hc. unfold chrMatches.
    assert (E : (38 =? c) = false)
      by (apply Z.eqb_neq; intros <-; contradiction).
    rewrite E. reflexivity.
Qed.

(** The replacers of normalizeCss raise nothing but a RangeError. *)
Lemma fromCodePoint_throws (cp : Z) (e : JSError) :
  fromCodePoint cp = Throw e -> e = RangeError.
Proof.
  unfold fromCodePoint. destruct (_ || _); [congruence|].
  destruct (cp <? 65536); discriminate.
Qed.

Lemma cssDecodeCallback_throws (m : matchResult) (e : JSError) :
  cssDecodeCallback m = Throw e -> e = RangeError.
Proof.
  unfold cssDecodeCallback. destruct (arg 1 m); try discriminate.
  destruct (arg 2 m) as [| |hex].
  - destruct (arg 3 m); cbn [bind]; destruct (_ || _); discriminate.
  - cbn [bind]. congruence.
  - destruct (parseInt 16 hex) as [cp|]; [|cbn [bind]; congruence].
    unfold codepointToUtf8. destruct (fromCodePoint cp) as [c|e0] eqn:E; cbn [bind].
    + destruct (_ || _); discriminate.
    + apply fromCodePoint_throws in E. congruence.
Qed.

(** X15.  normalizeCss, and checkCss with it, raises nothing but a
    RangeError; and it does raise one where a CSS escape names a number
    above 0x10FFFF, as in [\110000]. *)
Theorem normalizeCss_throws_RangeError :
  (forall (t : jsstring) (e : JSError), normalizeCss t = Throw e -> e = RangeError) /\
  (forall (t : jsstring) (e : JSError), checkCss t = Throw e -> e = RangeError) /\
  normalizeCss (js "\110000") = Throw RangeError /\
  checkCss (js "color: red; \110000") = Throw RangeError.
Proof.
  assert (H : forall t e, normalizeCss t = Throw e -> e = RangeError).
  { intros t e. unfold normalizeCss.
    destruct (decodeCharReferences_never_raises t) as [t1 ->]. cbn [bind].
    destruct (replaceWith cssDecodeRE cssDecodeCallback t1) as [t2|e2] eqn:E2;
      cbn [bind].
    - match goal with
      | |- bind ?m _ = _ -> _ => destruct m as [t3|e3] eqn:E3; cbn [bind]
      end; [discriminate|].
      intros E. injection E as <-.
      apply (replaceWith_throws (fun e => e = RangeError)) in E3; [assumption|].
      intros m e'. destruct (test reFullwidthBackslash (matched m)); [discriminate|].
      destruct (utf8ToCodepoint (matched m)); [apply fromCodePoint_throws | congruence].
    - intros E. injection E as <-.
      apply (replaceWith_throws (fun e => e = RangeError)) in E2; [assumption|].
      apply cssDecodeCallback_throws. }
  split; [exact H|]. split; [|split; reflexivity].
  intros t e. unfold checkCss. destruct (normalizeCss t) as [n|e0] eqn:E; cbn [bind].
  - destruct (_ || _); [discriminate|]. destruct (test insecureRE n); discriminate.
  - intros E'. injection E' as <-. exact (H t e0 E).
Qed.

(* ================================================================== *)
(** * Exceptions *)

Lemma cleanUrl_never_raises (conf : Conf) (href mode : jsstring) :
  exists r, cleanUrl conf href mode = Ok r.
Proof.
  unfold cleanUrl. rewrite cleanUrl_escape.
  destruct (escapedHref_total mode href) as [href' ->]. cbn [bind].
  destruct (exec reUrlBits href') as [bits|]; [|eauto].
  destruct (truthy (arg 1 bits) && _); eauto.
Qed.

Lemma checkCss_throws (t : jsstring) (e : JSError) :
  checkCss t = Throw e -> normalizeCss t = Throw e.
Proof.
  unfold checkCss. destruct (normalizeCss t) as [n|e0]; cbn [bind].
  - destruct (_ || _); [discriminate|]. destruct (test insecureRE n); discriminate.
  - trivial.
Qed.

Lemma normalizeCss_RangeError (t : jsstring) (e : JSError) :
  normalizeCss t = Throw e -> e = RangeError.
Proof.
  unfold normalizeCss.
  destruct (decodeCharReferences_never_raises t) as [t1 ->]. cbn [bind].
  destruct (replaceWith cssDecodeRE cssDecodeCallback t1) as [t2|e2] eqn:E2;
    cbn [bind].
  - match goal with
    | |- bind ?m _ = _ -> _ => destruct m as [t3|e3] eqn:E3; cbn [bind]
    end; [discriminate|].
    intros E. injection E as <-.
    apply (replaceWith_throws (fun e => e = RangeError)) in E3; [assumption|].
    intros m e'. destruct (test reFullwidthBackslash (matched m)); [discriminate|].
    destruct (utf8ToCodepoint (matched m)); [apply fromCodePoint_throws | congruence].
  - intros E. injection E as <-.
    apply (replaceWith_throws (fun e => e = RangeError)) in E2; [assumption|].
    apply cssDecodeCallback_throws.
Qed.

(** One round of the loop raises a TypeError, where the whitelist is no
    Set, or the RangeError of checkCss. *)
Lemma sanitizeAttr_throws (conf : Conf) (wlist : whitelist)
    (token : option TagToken) (attrs : list KV) (attr : KV)
    (newAttrs : obj (option proposal)) (e : JSError) :
  sanitizeAttr conf wlist token attrs attr newAttrs = Throw e ->
  e = TypeError \/ e = RangeError.
Proof.
  unfold sanitizeAttr. cbv zeta.
  set (key := toLowerCase (k attr)).
  match goal with
  | |- bind ?m _ = _ -> _ =>
      assert (Hv : forall e', m = Throw e' -> e' = TypeError);
      [| destruct m as [[n|]|e0] eqn:Ev; cbn [bind];
         [ discriminate | clear Hv
         | intros E; injection E as <-; left; now apply Hv ] ]
  end.
  { destruct (isParsoidAttr key (v attr) attrs); cbn [negb]; [discriminate|].
    destruct (test getAttribsRegex key); cbn [negb]; [|discriminate].
    destruct (allowRdfaAttrs config && test XMLNS_ATTRIBUTE_RE key).
    - destruct (negb (test EVIL_URI_RE (v attr))); discriminate.
    - destruct (html5Mode config && test reDataAttr key); cbn [negb];
        [discriminate|].
      destruct wlist as [s|q]; cbn [wlistHas bind].
      + destruct (negb (setHas s key)); discriminate.
      + congruence. }
  destruct (if streq key (js "style") then checkCss (v attr) else Ok (v attr))
    as [val1|e1] eqn:E1; cbn [bind].
  - assert (E2 : exists val2,
               (if streq key (js "id") then escapeIdForAttribute val1 false
                else Ok val1) = Ok val2).
    { destruct (streq key (js "id")); [|eauto].
      unfold escapeIdForAttribute, escapeIdInternal.
      change (streq (js "html5") (js "html5")) with true. cbv iota. eauto. }
    destruct E2 as [val2 ->]. cbn [bind].
    destruct (setHas microData key && test EVIL_URI_RE val2); [discriminate|].
    destruct token as [tk|]; [|discriminate].
    destruct (streq key (js "href") || streq key (js "src")
              || streq key (js "poster")).
    + match goal with
      | |- context [cleanUrl conf val2 ?mode] =>
          destruct (cleanUrl_never_raises conf val2 mode) as [newHref ->]
      end.
      cbn [bind].
      destruct (negb (strict_eq (of_nullable newHref) (VStr val2))); cbn [bind];
        [discriminate|].
      destruct (negb (allowMicrodataAttrs config)); [|discriminate].
      destruct (obj_get _ (js "itemscope")) as [[p|]|]; discriminate.
    + cbn [bind].
      destruct (negb (allowMicrodataAttrs config)); [|discriminate].
      destruct (obj_get _ (js "itemscope")) as [[p|]|]; discriminate.
  - intros E. injection E as <-. right.
    destruct (streq key (js "style")); [|discriminate].
    apply checkCss_throws in E1. now apply normalizeCss_RangeError in E1.
Qed.

Lemma sanitizeAttrs_throws (conf : Conf) (wlist : whitelist)
    (token : option TagToken) (attrs : list KV) (e : JSError) :
  forall todo newAttrs,
    sanitizeAttrs conf wlist token attrs todo newAttrs = Throw e ->
    e = TypeError \/ e = RangeError.
Proof.
  induction todo as [|attr todo IH]; intros newAttrs; simpl; [discriminate|].
  destruct (sanitizeAttr conf wlist token attrs attr newAttrs) as [o|e0] eqn:Eo;
    cbn [bind].
  - destruct o as [n|n]; [apply IH | discriminate].
  - intros E. injection E as <-. now apply sanitizeAttr_throws in Eo.
Qed.

Lemma applyProposals_throws (es : list (jsstring * option proposal)) (e : JSError) :
  forall t, applyProposals t es = Throw e -> e = TypeError.
Proof.
  induction es as [|[key p] es IH]; intros t; simpl; [discriminate|].
  unfold applyProposal. cbn [fst snd].
  destruct p as [[[newV orig] origK]|]; cbn [bind]; [|congruence].
  destruct newV as [val|]; cbn [bind]; apply IH.
Qed.

(** X16.  sanitizeToken raises nothing but a TypeError or a RangeError. *)
Theorem sanitizeToken_throws (this : Receiver) (conf : Conf) (token : Token)
    (inTemplate : bool) (cache cache' : awlCache) (e : JSError) :
  sanitizeToken this conf token inTemplate cache = (Throw e, cache') ->
  e = TypeError \/ e = RangeError.
Proof.
  unfold sanitizeToken. destruct token as [t|c| |]; try discriminate.
  destruct (isHTMLTag (Tag t) && _).
  - destruct (negb inTemplate && _).
    + unfold getWTSource. destruct (this_conf this) as [env|]; cbn [bind].
      * destruct (tsr (dataAttribs t)) as [[a0 b0]|]; cbn [bind];
          [discriminate|]. intros E. injection E as <- _. now left.
      * intros E. injection E as <- _. now left.
    + destruct (negb (isEndTag t)); discriminate.
  - destruct (attribs t) as [|a0 attrs0]; [discriminate|].
    destruct (isEndTag t); [discriminate|].
    unfold sanitizeTagAttrs.
    destruct (getAttrWhiteList cache (name t)) as [wl c1] eqn:Ew.
    destruct wl as [wlist|e0]; cbn [bind].
    + destruct (sanitizeAttrs conf wlist (Some t) (a0 :: attrs0) (a0 :: attrs0) [])
        as [newAttrs|e1] eqn:Es; cbn [bind].
      * destruct (applyProposals (withAttribs t []) (obj_entries newAttrs))
          as [t1|e2] eqn:Ep; cbn [bind]; [discriminate|].
        intros E. injection E as <- _. left. now apply applyProposals_throws in Ep.
      * intros E. injection E as <- _. now apply sanitizeAttrs_throws in Es.
    + intros E. injection E as <- _. left.
      destruct (getAttrWhiteList_cases cache (name t))
        as [(s & _ & E)|[(_ & _ & E)|(_ & _ & E)]]; rewrite E in Ew; discriminate.
Qed.

(* ================================================================== *)
(** * The attribute accessors *)

(** What the loop of setAttribute does to the attributes. *)
Lemma setLastMatch_spec (nm value : jsstring) (l : list KV) :
  match setLastMatch nm value l with
  | Some l' =>
      map k l' = map k l /\
      (exists kv, In kv l /\ toLowerCase (k kv) = nm /\
                  In (mkKV (k kv) value (ksrc kv) (vsrc kv)) l') /\
      (forall kv, In kv l -> toLowerCase (k kv) <> nm -> In kv l') /\
      (forall kv', In kv' l' ->
                   In kv' l \/
                   exists kv, In kv l /\ toLowerCase (k kv) = nm /\
                              kv' = mkKV (k kv) value (ksrc kv) (vsrc kv))
  | None => forall kv, In kv l -> toLowerCase (k kv) <> nm
  end.
Proof.
  induction l as [|kv l IH]; simpl; [intros kv []|].
  destruct (streq (toLowerCase (k kv)) nm) eqn:E.
  - apply streq_spec in E. split; [reflexivity|]. split; [|split].
    + exists kv. split; [now left|]. split; [assumption | now left].
    + intros kv0 [<-|H] Hn; [congruence | now right].
    + intros kv' [<-|H]; [right; exists kv; split; [now left | now split]
                         | left; now right].
  - apply streq_neq in E. destruct (setLastMatch nm value l) as [l'|].
    + destruct IH as (Hk & (kv0 & Hin & Hl & Hin') & Hkeep & Hfrom).
      split; [simpl; now rewrite Hk|]. split; [|split].
      * exists kv0. split; [now right|]. split; [assumption | now right].
      * intros kv1 [<-|H] Hn; [now left | right; auto].
      * intros kv' [<-|H]; [left; now left|].
        destruct (Hfrom kv' H) as [H'|(kv1 & H1 & H2 & H3)];
          [left; now right|].
        right. exists kv1. split; [now right | now split].
    + intros kv0 [<-|H]; auto.
Qed.

(** On distinct keys in normal form, lookup finds the one attribute of
    that key. *)
Lemma lookup_canonical (kvs : list KV) (key : jsstring) :
  canonicalKeys kvs ->
  (forall val, lookup kvs key = Some val <->
               exists kv, In kv kvs /\ k kv = key /\ v kv = val) /\
  (lookup kvs key = None <-> ~ In key (map k kvs)).
Proof.
  intros [Hf Hd]. unfold lookup.
  induction Hf as [|kv kvs [_ Ht] _ IH]; simpl.
  - split; [|split; [intros _ [] | reflexivity]].
    intros val. split; [discriminate | intros (kv & [] & _)].
  - inversion Hd as [|? ? Hn Hd']; subst. specialize (IH Hd') as [IH1 IH2].
    rewrite Ht. destruct (streq (k kv) key) eqn:E.
    + apply streq_spec in E. subst key. split.
      * intros val. split.
        -- intros H. injection H as <-. exists kv. auto.
        -- intros (kv0 & [<-|Hin] & Hk & Hv); [congruence|].
           exfalso. apply Hn. rewrite <- Hk. now apply in_map.
      * split; [discriminate | intros H; exfalso; auto].
    + apply streq_neq in E. split.
      * intros val. rewrite IH1. split.
        -- intros (kv0 & Hin & Hk & Hv). exists kv0. auto.
        -- intros (kv0 & [<-|Hin] & Hk & Hv); [congruence|]. exists kv0. auto.
      * rewrite IH2. split; [intros H [Hk|Hk]; auto | auto].
Qed.

Lemma lookup_ext (l1 l2 : list KV) (key : jsstring) :
  canonicalKeys l1 -> canonicalKeys l2 ->
  (forall kv, k kv = key -> In kv l1 <-> In kv l2) ->
  lookup l1 key = lookup l2 key.
Proof.
  intros H1 H2 Hiff.
  destruct (lookup_canonical l1 key H1) as [A1 _].
  destruct (lookup_canonical l2 key H2) as [A2 B2].
  destruct (lookup l1 key) as [val|] eqn:E1.
  - symmetry. apply A2. destruct (proj1 (A1 val) eq_refl) as (kv & Hin & Hk & Hv).
    exists kv. split; [now apply Hiff | auto].
  - destruct (lookup l2 key) as [val|] eqn:E2; [|reflexivity].
    destruct (proj1 (A2 val) eq_refl) as (kv & Hin & Hk & Hv).
    assert (H : @None jsstring = Some val).
    { apply A1. exists kv. split; [now apply Hiff | auto]. }
    discriminate.
Qed.

Lemma canonicalKeys_rev (l : list KV) : canonicalKeys l -> canonicalKeys (rev l).
Proof.
  intros [Hf Hd]. split.
  - now apply Forall_rev.
  - rewrite map_rev. now apply NoDup_rev.
Qed.

Lemma NoDup_keys_filter (keep : KV -> bool) (attrs : list KV) :
  NoDup (map k attrs) -> NoDup (map k (filter keep attrs)).
Proof.
  intros Hd. induction attrs as [|kv attrs IH]; [exact Hd|].
  cbn [map] in Hd. apply NoDup_cons_iff in Hd as [Hn Hd].
  cbn [filter]. destruct (keep kv); [|exact (IH Hd)].
  cbn [map]. apply NoDup_cons; [|exact (IH Hd)].
  rewrite in_map_iff. intros (kv' & Hk & Hin).
  apply filter_In in Hin as [Hin _].
  apply Hn. rewrite in_map_iff. now exists kv'.
Qed.

(** X17.  On a token whose attribute keys are distinct, trimmed and in
    lower case, and for such a name: after setAttribute getAttribute
    returns the value set, after removeAttribute it returns null, either
    leaves what getAttribute returns for any other key as it was, and the
    keys are still distinct, trimmed and in lower case. *)
Theorem attribute_accessors (t : TagToken) (nm value : jsstring) :
  canonicalKeys (attribs t) ->
  toLowerCase nm = nm -> trim nm = nm ->
  (getAttribute (setAttribute nm value t) nm = Some value /\
   (forall key : jsstring,
      key <> nm ->
      getAttribute (setAttribute nm value t) key = getAttribute t key) /\
   canonicalKeys (attribs (setAttribute nm value t))) /\
  (getAttribute (removeAttribute nm t) nm = None /\
   (forall key : jsstring,
      key <> nm ->
      getAttribute (removeAttribute nm t) key = getAttribute t key) /\
   canonicalKeys (attribs (removeAttribute nm t))).
Proof.
  intros Hc Hl Ht. pose proof Hc as [Hf Hd].
  assert (Hlow : forall kv, In kv (attribs t) -> toLowerCase (k kv) = k kv).
  { intros kv Hin. rewrite Forall_forall in Hf. now apply Hf. }
  split.
  - (* setAttribute *)
    unfold setAttribute, getAttribute.
    pose proof (setLastMatch_spec nm value (rev (attribs t))) as Hs.
    destruct (setLastMatch nm value (rev (attribs t))) as [l'|]; cbn [attribs].
    + destruct Hs as (Hk & (kv0 & Hin0 & Hl0 & Hin0') & Hkeep & Hfrom).
      apply in_rev in Hin0.
      assert (Hk0 : k kv0 = nm) by (rewrite <- (Hlow kv0 Hin0); exact Hl0).
      assert (Hc' : canonicalKeys (rev l')).
      { split.
        - apply Forall_rev. apply Forall_forall. intros kv' Hkv'.
          rewrite Forall_forall in Hf.
          destruct (Hfrom kv' Hkv') as [H|(kv1 & H1 & _ & ->)].
          + apply in_rev in H. now apply Hf.
          + apply in_rev in H1. simpl. exact (Hf kv1 H1).
        - rewrite map_rev, Hk, map_rev, rev_involutive. exact Hd. }
      split; [|split; [|exact Hc']].
      * apply (proj1 (lookup_canonical (rev l') nm Hc')).
        exists (mkKV (k kv0) value (ksrc kv0) (vsrc kv0)).
        split; [now apply in_rev in Hin0' | now split].
      * intros key Hne. apply lookup_ext; [exact Hc' | exact Hc|].
        intros kv Hkv. rewrite <- in_rev. split.
        -- intros Hin. destruct (Hfrom kv Hin) as [H|(kv1 & H1 & H2 & ->)].
           ++ now apply in_rev in H.
           ++ apply in_rev in H1. simpl in Hkv. rewrite (Hlow kv1 H1) in H2.
              congruence.
        -- intros Hin. apply Hkeep; [now apply in_rev in Hin|].
           rewrite (Hlow kv Hin). congruence.
    + change (attribs (addAttribute nm value t)) with (attribs t ++ [newKV nm value]).
      assert (Hnone : ~ In nm (map k (attribs t))).
      { intros Hin. apply in_map_iff in Hin as (kv & Hkv & Hin).
        apply (Hs kv); [now apply in_rev in Hin|].
        now rewrite (Hlow kv Hin). }
      assert (Hc' : canonicalKeys (attribs t ++ [newKV nm value])).
      { split.
        - apply Forall_app. split; [exact Hf|]. repeat constructor; assumption.
        - rewrite map_app. apply NoDup_app; [exact Hd | repeat constructor; intros [] |].
          intros a Ha [<-|[]]. contradiction. }
      split; [|split; [|exact Hc']].
      * apply (proj1 (lookup_canonical _ nm Hc')).
        exists (newKV nm value). split; [|now split].
        apply in_or_app. right. now left.
      * intros key Hne. apply lookup_ext; [exact Hc' | exact Hc|].
        intros kv Hkv. rewrite in_app_iff. split; [|now left].
        intros [H|[<-|[]]]; [assumption|]. simpl in Hkv. congruence.
  - (* removeAttribute *)
    unfold removeAttribute, getAttribute. cbn [attribs].
    set (keep := fun kv => negb (streq (toLowerCase (k kv)) nm)).
    assert (Hc' : canonicalKeys (filter keep (attribs t))).
    { split.
      - apply Forall_forall. intros kv Hin. apply filter_In in Hin as [Hin _].
        rewrite Forall_forall in Hf. now apply Hf.
      - now apply NoDup_keys_filter. }
    split; [|split; [|exact Hc']].
    + apply (proj2 (lookup_canonical _ nm Hc')).
      intros Hin. apply in_map_iff in Hin as (kv & Hkv & Hin).
      apply filter_In in Hin as [Hin Hkeep]. unfold keep in Hkeep.
      rewrite (Hlow kv Hin), Hkv, streq_refl in Hkeep. discriminate.
    + intros key Hne. apply lookup_ext; [exact Hc' | exact Hc|].
      intros kv Hkv. rewrite filter_In. split; [intros [H _]; exact H|].
      intros Hin. split; [assumption|]. unfold keep.
      rewrite (Hlow kv Hin), Hkv. apply negb_true_iff, streq_neq. exact Hne.
Qed.





(* ================================================================== *)
(** * More of Util *)

(** X19.  Code points round-trip: for every code point up to 0x10FFFF,
    codepointToUtf8 returns a string of one or two code units of which
    utf8ToCodepoint is that code point; for any other number it raises a
    RangeError. *)
Theorem codepoint_roundtrip (cp : Z) :
  (0 <= cp <= 1114111 ->
   exists s : jsstring,
     codepointToUtf8 cp = Ok s /\ utf8ToCodepoint s = Some cp /\
     length s = (if cp <? 65536 then 1%nat else 2%nat)) /\
  (cp < 0 \/ 1114111 < cp -> codepointToUtf8 cp = Throw RangeError).
Proof.
  unfold codepointToUtf8, utf8ToCodepoint, fromCodePoint. split.
  - intros H.
    assert (E1 : (cp <? 0) = false) by (apply Z.ltb_ge; lia).
    assert (E2 : (1114111 <? cp) = false) by (apply Z.ltb_ge; lia).
    rewrite E1, E2. cbn [orb].
    destruct (cp <? 65536) eqn:E3.
    + exists [cp]. split; [reflexivity|]. split; [|reflexivity].
      unfold codePointAt0. now destruct (isHighSurrogate cp).
    + apply Z.ltb_ge in E3.
      set (q := (cp - 65536) / 1024). set (r := (cp - 65536) mod 1024).
      assert (Hq : 0 <= q <= 1023).
      { unfold q. split; [apply Z.div_pos; lia|].
        assert ((cp - 65536) / 1024 < 1024)
          by (apply Z.div_lt_upper_bound; lia). lia. }
      assert (Hr : 0 <= r < 1024) by (apply Z.mod_pos_bound; lia).
      assert (Hcp : cp - 65536 = 1024 * q + r) by (apply Z.div_mod; lia).
      exists [55296 + q; 56320 + r]. split; [reflexivity|]. split; [|reflexivity].
      unfold codePointAt0, isHighSurrogate, isLowSurrogate.
      assert (A1 : (55296 <=? 55296 + q) && (55296 + q <=? 56319) = true)
        by (apply andb_true_iff; rewrite !Z.leb_le; lia).
      assert (A2 : (56320 <=? 56320 + r) && (56320 + r <=? 57343) = true)
        by (apply andb_true_iff; rewrite !Z.leb_le; lia).
      rewrite A1, A2. f_equal. lia.
  - intros [H|H].
    + apply Z.ltb_lt in H. now rewrite H.
    + apply Z.ltb_lt in H. rewrite H. now rewrite orb_true_r.
Qed.

Lemma skipn_app_length {A : Type} (l1 l2 : list A) :
  skipn (length (l1 ++ l2) - length l2) (l1 ++ l2) = l2 /\
  firstn (length (l1 ++ l2) - length l2) (l1 ++ l2) = l1.
Proof.
  rewrite length_app.
  replace (length l1 + length l2 - length l2)%nat with (length l1) by lia.
  split.
  - rewrite skipn_app, Nat.sub_diag, skipn_all. reflexivity.
  - rewrite firstn_app, Nat.sub_diag, firstn_all. simpl. apply app_nil_r.
Qed.

(** X20.  stripSuffix removes a non-empty suffix that the text ends with,
    once: a text followed by such a suffix gives back the text; in any case
    the result is the text itself or the text without that suffix; and an
    empty suffix changes nothing. *)
Theorem stripSuffix_spec :
  (forall text suffix : jsstring,
     suffix <> [] -> stripSuffix (text ++ suffix) suffix = text) /\
  (forall text suffix : jsstring,
     stripSuffix text suffix = text \/ stripSuffix text suffix ++ suffix = text) /\
  (forall text : jsstring, stripSuffix text [] = text).
Proof.
  split; [|split].
  - intros text suffix Hne. unfold stripSuffix.
    destruct (skipn_app_length text suffix) as [-> ->].
    rewrite streq_refl. destruct suffix; [congruence | reflexivity].
  - intros text suffix. unfold stripSuffix.
    destruct (negb (Nat.eqb (length suffix) 0)); [|now left].
    destruct (streq (skipn (length text - length suffix) text) suffix) eqn:E;
      [|now left].
    apply streq_spec in E. right. cbn [andb].
    rewrite <- E at 2. apply firstn_skipn.
  - reflexivity.
Qed.

Lemma indexOf_char (c : Z) (pre post : jsstring) :
  ~ In c pre -> indexOf [c] (pre ++ c :: post) = Some (length pre).
Proof.
  induction pre as [|x pre IH]; intros Hn.
  - simpl. rewrite Z.eqb_refl. reflexivity.
  - rewrite <- app_comm_cons, indexOf_unfold. cbn [startsWith].
    assert (E : (c =? x) = false).
    { apply Z.eqb_neq. intros ->. apply Hn. now left. }
    rewrite E. cbn [andb]. rewrite IH; [reflexivity|].
    intros H. apply Hn. now right.
Qed.

Lemma indexOf_char_none (c : Z) (s : jsstring) :
  ~ In c s -> indexOf [c] s = None.
Proof.
  induction s as [|x s IH]; intros Hn; [reflexivity|].
  rewrite indexOf_unfold. cbn [startsWith].
  assert (E : (c =? x) = false).
  { apply Z.eqb_neq. intros ->. apply Hn. now left. }
  rewrite E. cbn [andb]. rewrite IH; [reflexivity|].
  intros H. apply Hn. now right.
Qed.

(** X21.  normalizeNamespaceName puts the name in lower case and turns its
    first space into an underscore; any further space stays. *)
Theorem normalizeNamespaceName_first_space (nm : jsstring) :
  (~ In 32 (toLowerCase nm) -> normalizeNamespaceName nm = toLowerCase nm) /\
  (forall pre post : jsstring,
     toLowerCase nm = pre ++ 32 :: post -> ~ In 32 pre ->
     normalizeNamespaceName nm = pre ++ 95 :: post).
Proof.
  unfold normalizeNamespaceName, replaceString. change (js " ") with [32].
  change (js "_") with [95]. split.
  - intros Hn. now rewrite indexOf_char_none.
  - intros pre post -> Hn. rewrite indexOf_char by assumption.
    rewrite firstn_app, Nat.sub_diag, firstn_all. cbn [firstn length].
    rewrite app_nil_r. f_equal. simpl.
    rewrite skipn_app.
    replace (length pre + 1 - length pre)%nat with 1%nat by lia.
    rewrite skipn_all2 by lia. reflexivity.
Qed.

(* ================================================================== *)
(** * Plain style texts *)

Lemma indexOf_none (p s : jsstring) :
  indexOf p s = None ->
  startsWith p s = false /\
  match s with
  | [] => True
  | _ :: s' => indexOf p s' = None
  end.
Proof.
  rewrite indexOf_unfold. destruct (startsWith p s); [discriminate|].
  intros H. split; [reflexivity|]. destruct s as [|c s']; [exact I|].
  destruct (indexOf p s'); [discriminate | reflexivity].
Qed.

(** A pattern that begins with a literal text matches only where the
    subject continues with that text. *)
Lemma matchAt_literal_prefix (re : RegExp) (p : jsstring) (r : regex)
    (i : nat) (s : jsstring) :
  source re = Seq (lit p) r -> ignoreCase re = false -> p <> [] ->
  startsWith p s = false -> matchAt re i s = None.
Proof.
  intros Hs Hi Hp Hn. unfold matchAt. rewrite Hs, Hi, rmatch_Seq.
  rewrite rmatch_lit by assumption. cbn [rest]. now rewrite Hn.
Qed.

Lemma scanAll_no_occurrence (re : RegExp) (p : jsstring) (s : jsstring) :
  (forall i s', startsWith p s' = false -> matchAt re i s' = None) ->
  indexOf p s = None ->
  forall i, scanAll re i O s = map Keep s.
Proof.
  intros Hm. induction s as [|c s IH]; intros Hn i;
    apply indexOf_none in Hn as [Hn1 Hn2]; cbn [scanAll map];
    rewrite (Hm _ _ Hn1).
  - reflexivity.
  - now rewrite IH.
Qed.

Lemma map_Keep_flat (f : matchResult -> jsstring) (s : jsstring) :
  flat_map (fun p => match p with Keep c => [c] | Hit m => f m end) (map Keep s)
  = s.
Proof. induction s as [|c s IH]; simpl; [reflexivity | now rewrite IH]. Qed.

(** The number of matches of a one-unit pattern. *)
Lemma countMatches_unit (re : RegExp) (P : Z -> bool)
    (g : Z -> list (nat * jsstring)) (s : jsstring) :
  unitPatternG (ignoreCase re) (source re) P g ->
  countMatches re s = length (filter P s).
Proof.
  intros H. unfold countMatches. rewrite (scanAll_unit re P g H).
  generalize O. induction s as [|c s IH]; intros p; [reflexivity|].
  simpl. destruct (P c); simpl; now rewrite IH.
Qed.

Lemma even_mod2 (n : nat) : Nat.even n = true -> Nat.eqb (n mod 2) 1 = false.
Proof.
  intros H. apply Nat.even_spec in H as [m ->].
  rewrite Nat.mul_comm, Nat.Div0.mod_mul. reflexivity.
Qed.

(** removeMismatchedQuoteChar leaves a text with an even number of the
    quote character alone. *)
Lemma removeMismatchedQuoteChar_even (str quoteChar : jsstring) :
  Nat.even (countChar (if streq quoteChar (js "'") then 39 else 34) str) = true ->
  removeMismatchedQuoteChar str quoteChar = str.
Proof.
  intros H. unfold removeMismatchedQuoteChar. cbv zeta.
  set (q := if streq quoteChar (js "'") then 39 else 34) in *.
  rewrite (countMatches_unit (mkRegExp (Chr q) false true) (chrMatches false q)
             (fun _ => [])) by apply unit_Chr.
  assert (E : filter (chrMatches false q) str = filter (Z.eqb q) str).
  { apply filter_ext. intros c. unfold chrMatches. apply orb_false_r. }
  rewrite E. unfold countChar in H. now rewrite (even_mod2 _ H).
Qed.

(** A character above the ASCII range matches no other, with or without
    the i flag. *)
Lemma chrMatches_nonascii (ic : bool) (c y : Z) :
  127 < c -> chrMatches ic c y = true -> y = c.
Proof.
  intros Hc. unfold chrMatches, swapCase.
  rewrite orb_true_iff, andb_true_iff, !Z.eqb_eq. intros [H|[_ H]]; [congruence|].
  destruct ((65 <=? y) && (y <=? 90)) eqn:E1.
  { rewrite andb_true_iff, !Z.leb_le in E1. lia. }
  destruct ((97 <=? y) && (y <=? 122)) eqn:E2.
  { rewrite andb_true_iff, !Z.leb_le in E2. lia. }
  congruence.
Qed.

(** Where no sound mark occurs, the pattern of the sound marks does not
    match. *)
Lemma matchAt_reSoundMarks (i : nat) (s : jsstring) :
  Forall (fun c => cssSpecialChar c = false) s ->
  matchAt reSoundMarks i s = None.
Proof.
  intros H. unfold matchAt.
  change (source reSoundMarks)
    with (Seq (Chr 115)
              (alts [ Chr 12337; Chr 12445; Chr 12540; Chr 12541; Chr 65148;
                      Chr 65149; Chr 65392 ])).
  rewrite rmatch_Seq. cbn [rmatch rest].
  destruct s as [|x s']; [reflexivity|].
  destruct (chrMatches (ignoreCase reSoundMarks) 115 x); [|reflexivity].
  match goal with
  | |- match ?m with Some _ => _ | None => _ end = None =>
      destruct m as [st|] eqn:E; [|reflexivity]
  end.
  exfalso. inversion H as [|? ? _ Hs']; subst.
  eapply firstOf_sound in E; [|reflexivity].
  destruct E as (y & s'' & Hr & Hy). cbn [rest advance] in Hr. subst s'.
  inversion Hs' as [|? ? Hyc _]; subst.
  unfold cssSpecialChar in Hyc. rewrite !orb_false_iff in Hyc.
  rewrite andb_false_iff, !Z.eqb_neq, !Z.leb_gt in Hyc.
  rewrite !orb_true_iff in Hy.
  repeat (destruct Hy as [Hy|Hy];
          [apply chrMatches_nonascii in Hy; [lia | lia]|]).
  apply chrMatches_nonascii in Hy; lia.
Qed.

Lemma scanAll_reSoundMarks (s : jsstring) :
  Forall (fun c => cssSpecialChar c = false) s ->
  forall i, scanAll reSoundMarks i O s = map Keep s.
Proof.
  intros H. induction H as [|c s Hc Hs IH]; intros i; cbn [scanAll map].
  - now rewrite matchAt_reSoundMarks.
  - rewrite matchAt_reSoundMarks by now constructor. now rewrite IH.
Qed.

(** Without a comment start there is no comment to remove. *)
Lemma replace_no_comment (s : jsstring) :
  indexOf (js "/*") s = None -> replace reCssComment (js " ") s = s.
Proof.
  intros Hi. unfold replace, replaceFn, scan.
  change (global reCssComment) with true. cbv iota.
  rewrite (scanAll_no_occurrence reCssComment (js "/*") s).
  - apply map_Keep_flat.
  - intros i s' Hp.
    apply (matchAt_literal_prefix reCssComment (js "/*")
             (Seq (Grp 1 (StarLazy Dot)) (Lit "*/")) i s');
      [reflexivity | reflexivity | discriminate | exact Hp].
  - exact Hi.
Qed.

Lemma replace_no_sound_mark (s : jsstring) :
  Forall (fun c => cssSpecialChar c = false) s ->
  replace reSoundMarks (js "ss") s = s.
Proof.
  intros Hc. unfold replace, replaceFn, scan.
  change (global reSoundMarks) with true. cbv iota.
  rewrite scanAll_reSoundMarks by exact Hc. apply map_Keep_flat.
Qed.

(** X22.  normalizeCss returns a plain style text as it is: one that holds
    no ampersand, backslash, fullwidth or halfwidth form, look-alike letter
    or sound mark, no comment start, and each quote character an even number
    of times; and checkCss returns it as it is unless it refuses it. *)
Theorem normalizeCss_plain (text : jsstring) :
  Forall (fun c => cssSpecialChar c = false) text ->
  indexOf (js "/*") text = None ->
  Nat.even (countChar 39 text) = true ->
  Nat.even (countChar 34 text) = true ->
  normalizeCss text = Ok text /\
  (~ cssRejected text -> checkCss text = Ok text).
Proof.
  intros Hc Hi H39 H34.
  assert (Hs : forall P : Z -> Prop,
             (forall c, cssSpecialChar c = false -> P c) -> Forall P text).
  { intros P HP. eapply Forall_impl; [|exact Hc]. exact HP. }
  assert (Hn : normalizeCss text = Ok text).
  { unfold normalizeCss.
    (* no character reference *)
    unfold decodeCharReferences.
    rewrite (replaceWith_no_first CHAR_REFS_RE_G
               (fun x => chrMatches false 38 x
                         || (chrMatches false 38 x
                             || (chrMatches false 38 x || chrMatches false 38 x))));
      [|reflexivity|].
    2:{ apply Hs. intros c H. unfold cssSpecialChar in H.
        rewrite !orb_false_iff in H. unfold chrMatches.
        rewrite Z.eqb_sym. destruct H as [[[[[[[[[[[[[[[H _] _] _] _] _] _] _] _] _] _] _] _] _] _] _].
        now rewrite H. }
    cbn [bind].
    (* no escape sequence *)
    rewrite (replaceWith_no_first cssDecodeRE (chrMatches false 92));
      [|reflexivity|].
    2:{ apply Hs. intros c H. unfold cssSpecialChar in H.
        rewrite !orb_false_iff in H. unfold chrMatches.
        rewrite Z.eqb_sym. destruct H as [[[[[[[[[[[[[[[_ H] _] _] _] _] _] _] _] _] _] _] _] _] _] _].
        now rewrite H. }
    cbn [bind].
    (* no fullwidth form *)
    rewrite (replaceWith_no_first reFullwidth
               (clsMatches false false [ (65280, 65519) ]));
      [|reflexivity|].
    2:{ apply Hs. intros c H. unfold cssSpecialChar in H.
        rewrite !orb_false_iff in H.
        destruct H as [[[[[[[[[[[[[[_ H] _] _] _] _] _] _] _] _] _] _] _] _] _].
        unfold clsMatches, inRanges. cbn [existsb fst snd andb xorb].
        now rewrite H. }
    cbn [bind].
    (* no look-alike *)
    rewrite (replaceFn_no_first reIEChars
               (fun x => chrMatches false 640 x
                  || (chrMatches false 628 x
                  || (chrMatches false 8319 x
                  || (chrMatches false 671 x
                  || (chrMatches false 618 x
                  || (chrMatches false 8317 x || chrMatches false 8333 x)))))));
      [|reflexivity|].
    2:{ apply Hs. intros c H. unfold cssSpecialChar in H.
        rewrite !orb_false_iff, !Z.eqb_neq in H.
        unfold chrMatches. rewrite !orb_false_r.
        rewrite !orb_false_iff, !Z.eqb_neq.
        repeat match goal with A : _ /\ _ |- _ => destruct A end.
        repeat split; lia. }
    cbv zeta.
    rewrite (replace_no_comment text Hi).
    rewrite (removeMismatchedQuoteChar_even text (js "'")) by exact H39.
    rewrite (removeMismatchedQuoteChar_even text [34]) by exact H34.
    rewrite Hi.
    now rewrite (replace_no_sound_mark text Hc). }
  split; [exact Hn|].
  intros Hr. unfold checkCss. rewrite Hn. cbn [bind].
  rewrite test_reControlChars.
  destruct (existsb cssControlChar text) eqn:Ec.
  { exfalso. apply Hr. left. now apply existsb_Exists. }
  destruct (indexOf UTF8_REPLACEMENT text) eqn:Ei.
  { exfalso. apply Hr. right. left. apply indexOf_occursIn. eauto. }
  cbn [orb]. destruct (test insecureRE text) eqn:Et; [|reflexivity].
  exfalso. apply Hr. right. now right.
Qed.

(* ================================================================== *)
(** * Comment starts *)

(** The text before the first occurrence holds none. *)
Lemma startsWith_firstn (p s : jsstring) (n : nat) :
  startsWith p (firstn n s) = true -> startsWith p s = true.
Proof.
  rewrite !startsWith_spec. intros [post H].
  exists (post ++ skipn n s). rewrite app_assoc, <- H. symmetry.
  apply firstn_skipn.
Qed.

Lemma indexOf_firstn (p s : jsstring) :
  p <> [] -> forall i, indexOf p s = Some i -> indexOf p (firstn i s) = None.
Proof.
  intros Hp. induction s as [|c s IH]; intros i; rewrite indexOf_unfold.
  - destruct (startsWith p []) eqn:E; [|discriminate].
    destruct p; [congruence | discriminate].
  - destruct (startsWith p (c :: s)) eqn:E.
    + intros H. injection H as <-. cbn [firstn]. rewrite indexOf_unfold.
      destruct p; [congruence | reflexivity].
    + destruct (indexOf p s) as [j|] eqn:Ej; [|discriminate].
      intros H. injection H as <-. cbn [firstn]. rewrite indexOf_unfold.
      destruct (startsWith p (c :: firstn j s)) eqn:E'.
      * apply (startsWith_firstn p (c :: s) (S j)) in E'. congruence.
      * now rewrite (IH j eq_refl).
Qed.

Lemma unit_soundMarks :
  unitPattern true
    (alts [ Chr 12337; Chr 12445; Chr 12540; Chr 12541; Chr 65148; Chr 65149;
            Chr 65392 ])
    soundMark.
Proof.
  eapply unitPattern_ext; [|repeat apply unit_Alt; apply unit_Chr].
  intros x. unfold soundMark. cbn [existsb]. rewrite orb_false_r.
  assert (E : forall c, 127 < c -> chrMatches true c x = (x =? c)).
  { intros c Hc. destruct (chrMatches true c x) eqn:Em.
    - apply chrMatches_nonascii in Em; [|exact Hc]. subst. now rewrite Z.eqb_refl.
    - symmetry. apply Z.eqb_neq. intros ->. unfold chrMatches in Em.
      now rewrite Z.eqb_refl in Em. }
  rewrite !E by lia. reflexivity.
Qed.

Lemma letterS_spec (x : Z) : chrMatches true 115 x = letterS x.
Proof.
  unfold chrMatches, letterS, swapCase. cbn [andb].
  destruct ((65 <=? x) && (x <=? 90)) eqn:E1;
    [|destruct ((97 <=? x) && (x <=? 122)) eqn:E2];
    apply eq_true_iff_eq;
    rewrite ?andb_true_iff, ?andb_false_iff, ?Z.leb_le, ?Z.leb_gt in *;
    rewrite !orb_true_iff, !Z.eqb_eq; lia.
Qed.

(** The pattern of the sound marks matches two code units. *)
Lemma matchAt_soundMarks (p : nat) (s : jsstring) :
  matchAt reSoundMarks p s =
  match s with
  | x :: y :: _ =>
      if letterS x && soundMark y then Some (Match p [x; y] []) else None
  | _ => None
  end.
Proof.
  unfold matchAt. change (ignoreCase reSoundMarks) with true.
  change (source reSoundMarks)
    with (Seq (Chr 115)
              (alts [ Chr 12337; Chr 12445; Chr 12540; Chr 12541; Chr 65148;
                      Chr 65149; Chr 65392 ])).
  rewrite rmatch_Seq, (unit_Chr true 115). cbn [rest].
  destruct s as [|x s]; [reflexivity|].
  rewrite letterS_spec. destruct (letterS x); [|now destruct s].
  rewrite unit_soundMarks. cbn [rest andb].
  destruct s as [|y s]; [reflexivity|].
  destruct (soundMark y); [|reflexivity]. cbn [pos caps app].
  replace (S (S p) - p)%nat with 2%nat by lia. reflexivity.
Qed.

Lemma soundMarksReplaced_unfold (p : nat) (s : jsstring) :
  soundMarksReplaced p s =
  match s with
  | x :: y :: s' =>
      if letterS x && soundMark y
      then js "ss" ++ soundMarksReplaced (S (S p)) s'
      else x :: soundMarksReplaced (S p) (y :: s')
  | _ => s
  end.
Proof.
  unfold soundMarksReplaced. destruct s as [|x [|y s']].
  - cbn [scanAll]. now rewrite matchAt_soundMarks.
  - cbn [scanAll]. now rewrite !matchAt_soundMarks.
  - cbn [scanAll]. rewrite (matchAt_soundMarks p (x :: y :: s')).
    destruct (letterS x && soundMark y); reflexivity.
Qed.

(** The result begins like the text or with an s. *)
Lemma soundMarksReplaced_head (p : nat) (s : jsstring) :
  match soundMarksReplaced p s with
  | c :: _ => c = 115 \/ exists s', s = c :: s'
  | [] => True
  end.
Proof.
  rewrite soundMarksReplaced_unfold. destruct s as [|x [|y s']].
  - exact I.
  - right. now exists [].
  - destruct (letterS x && soundMark y).
    + now left.
    + right. now exists (y :: s').
Qed.

Lemma soundMarksReplaced_no_comment (n : nat) :
  forall (s : jsstring) (p : nat),
    (length s <= n)%nat ->
    indexOf (js "/*") s = None ->
    indexOf (js "/*") (soundMarksReplaced p s) = None.
Proof.
  induction n as [|n IH]; intros s p Hl Hi; rewrite soundMarksReplaced_unfold.
  { destruct s; [exact Hi | simpl in Hl; lia]. }
  destruct s as [|x [|y s']]; [exact Hi | exact Hi |].
  pose proof (indexOf_none _ _ Hi) as [Hs Hi1].
  pose proof (indexOf_none _ _ Hi1) as [_ Hi2].
  cbn [length] in Hl.
  destruct (letterS x && soundMark y).
  - change (js "ss" ++ soundMarksReplaced (S (S p)) s')
      with (115 :: 115 :: soundMarksReplaced (S (S p)) s').
    rewrite indexOf_unfold.
    change (startsWith (js "/*") (115 :: 115 :: soundMarksReplaced (S (S p)) s'))
      with false. cbv iota.
    rewrite indexOf_unfold.
    change (startsWith (js "/*") (115 :: soundMarksReplaced (S (S p)) s'))
      with false. cbv iota.
    rewrite (IH s' (S (S p))); [reflexivity | lia | exact Hi2].
  - rewrite indexOf_unfold.
    destruct (startsWith (js "/*") (x :: soundMarksReplaced (S p) (y :: s')))
      eqn:E.
    + exfalso. apply startsWith_spec in E as [post E].
      change (js "/*" ++ post) with (47 :: 42 :: post) in E.
      injection E as -> E.
      pose proof (soundMarksReplaced_head (S p) (y :: s')) as Hh.
      rewrite E in Hh. destruct Hh as [Hh|[s'' Hh]]; [discriminate|].
      injection Hh as -> _. discriminate Hs.
    + rewrite (IH (y :: s') (S p)); [reflexivity | cbn [length]; lia | exact Hi1].
Qed.

(** X23.  What normalizeCss returns holds no comment start: the text is cut
    at the first one that is left after the comments are removed, and the
    last replacement cannot make one. *)
Theorem normalizeCss_no_comment_start (text r : jsstring) :
  normalizeCss text = Ok r -> ~ occursIn (js "/*") r.
Proof.
  unfold normalizeCss.
  destruct (decodeCharReferences text) as [t1|e]; cbn [bind]; [|discriminate].
  destruct (replaceWith cssDecodeRE cssDecodeCallback t1) as [t2|e];
    cbn [bind]; [|discriminate].
  match goal with
  | |- bind ?m _ = _ -> _ => destruct m as [t3|e]; cbn [bind]; [|discriminate]
  end.
  cbv zeta.
  match goal with
  | |- context [indexOf (js "/*") ?t] => set (t4 := t)
  end.
  intros H. injection H as <-.
  intros Ho. apply indexOf_occursIn in Ho as [i Ho].
  unfold replace, replaceFn, scan in Ho.
  change (global reSoundMarks) with true in Ho. cbv iota in Ho.
  match type of Ho with
  | indexOf _ (flat_map _ (scanAll _ _ _ ?t)) = _ =>
      assert (Hc : indexOf (js "/*") t = None)
  end.
  { destruct (indexOf (js "/*") t4) as [j|] eqn:Ej; [|exact Ej].
    apply indexOf_firstn; [discriminate | exact Ej]. }
  apply (soundMarksReplaced_no_comment _ _ O (Nat.le_refl _)) in Hc.
  unfold soundMarksReplaced in Hc. congruence.
Qed.

(* ================================================================== *)
(** * RDFa and microdata values *)

(** An RDFa or microdata key is no namespace declaration, and neither
    style, id nor a URL key. *)
Lemma microData_keys (key : jsstring) :
  setHas microData key = true ->
  test XMLNS_ATTRIBUTE_RE key = false /\ streq key (js "style") = false /\
  streq key (js "id") = false /\ isUrlKey key = false.
Proof.
  intros H. apply setHas_In in H. unfold microData in H. cbn [In] in H.
  repeat (destruct H as [<-|H]; [vm_compute; repeat split; reflexivity|]).
  destruct H.
Qed.

(** X24.  The value of an RDFa or microdata attribute of a sanitized tag
    (rel, rev, about, property, resource, datatype, typeof, itemid,
    itemprop, itemref, itemscope, itemtype) is either the value of the input,
    which then does not match EVIL_URI_RE, or, for a value that matches it,
    what is left of the original value once every word that is no Parsoid
    type is removed. *)
Theorem sanitized_rdfa_checked (this : Receiver) (conf : Conf)
    (t t' : TagToken) (inTemplate : bool) (cache cache' : awlCache) :
  sanitizeToken this conf (Tag t) inTemplate cache = (Ok (inl (Tag t')), cache') ->
  forall kv : KV, In kv (attribs t') -> setHas microData (k kv) = true ->
  exists attr : KV,
    In attr (attribs t) /\ toLowerCase (k attr) = k kv /\
    ((v kv = v attr /\ test EVIL_URI_RE (v kv) = false) \/
     (test EVIL_URI_RE (v attr) = true /\
      v kv = trim (replace reNonParsoidTypes []
                     (orString (vsrc attr) (v attr))))).
Proof.
  intros H kv Hkv Hm.
  destruct (sanitizeToken_proposed _ _ _ _ _ _ _ H kv Hkv) as (attr & Hin & Hk & Hp).
  exists attr. split; [assumption|]. split; [assumption|].
  destruct (microData_keys _ Hm) as (Hx & Hs & Hi & Hu).
  unfold proposedBy in Hp. cbv zeta in Hp. rewrite Hk in Hp.
  rewrite Hs, Hi, Hu, Hm in Hp.
  destruct Hp as [Hp|[[Hx' _]|(val1 & val2 & E1 & E2 & Hp)]].
  - discriminate.
  - congruence.
  - injection E1 as <-. injection E2 as <-.
    destruct Hp as [(_ & He & Hv)|(He & tk & _ & Hv)].
    + right. split; [exact He|]. now injection Hv.
    + left. injection Hv as Hv. cbn [andb] in He.
      split; [now symmetry | now rewrite <- Hv in He].
Qed.

(* ================================================================== *)
(** * Unmatched quotes *)

Lemma rmatch_greedy (ic : bool) (r : regex) (P : Z -> bool) (min : nat)
    (st : mstate) (cont : mstate -> option mstate) :
  unitPattern ic r P ->
  rmatch ic (Rep min None true r) st cont =
  runThen P min O (pos st) (rest st) (caps st) cont.
Proof.
  intros HU. cbn [rmatch].
  assert (Hn : (length (rest st) < min + length (rest st) + 1)%nat) by lia.
  revert Hn. generalize (min + length (rest st) + 1)%nat as rounds.
  generalize O as i. intros i rounds. revert i st.
  induction rounds as [|rounds IH]; intros i st Hl; [lia|].
  destruct st as [p s cs]. cbn [rest pos caps] in *.
  cbn [belowMax]. rewrite HU. cbn [rest pos caps].
  destruct s as [|x s'].
  - reflexivity.
  - cbn [runThen]. destruct (P x); [|reflexivity].
    replace (Nat.eqb (length s') (length (x :: s'))) with false
      by (symmetry; apply Nat.eqb_neq; cbn [length]; lia).
    rewrite andb_false_r. cbn [app]. f_equal.
    apply (IH (S i) (MState (S p) s' cs)). cbn [rest length] in *. lia.
Qed.

(** Before a continuation that wants the end of the string, the run has to
    reach it. *)
Lemma runThen_end (P : Z -> bool) (cs : list (nat * jsstring))
    (cont : mstate -> option mstate) :
  (forall p x s c, cont (MState p (x :: s) c) = None) ->
  forall (s : jsstring) (i p : nat),
    runThen P O i p s cs cont =
    if forallb P s then cont (MState (p + length s) [] cs) else None.
Proof.
  intros Hc. induction s as [|x s IH]; intros i p; cbn [runThen forallb length].
  - now rewrite Nat.add_0_r.
  - cbn [Nat.leb]. rewrite Hc. destruct (P x); [|reflexivity].
    rewrite IH. cbn [andb].
    replace (S p + length s)%nat with (p + S (length s))%nat by lia.
    now destruct (forallb P s); [destruct (cont _)|].
Qed.

(** The second pattern of removeMismatchedQuoteChar matches at a quote that
    only units other than quotes and line ends follow. *)
Lemma matchAt_lastQuote (q : Z) (p : nat) (s : jsstring) :
  matchAt (mkRegExp (seqs [ Chr q;
                            Grp 1 (Star (Cls true [ c1 q; c1 10; c1 13; c1 12 ]));
                            Eol ]) false false) p s =
  match s with
  | x :: s' =>
      if (q =? x) && forallb (clsMatches false true [ c1 q; c1 10; c1 13; c1 12 ]) s'
      then Some (Match p s [ (1%nat, s') ])
      else None
  | [] => None
  end.
Proof.
  unfold matchAt. cbn [source ignoreCase seqs].
  rewrite rmatch_Seq, (unit_Chr false q). cbn [rest pos caps].
  destruct s as [|x s']; [reflexivity|].
  unfold chrMatches. cbn [andb]. rewrite orb_false_r.
  destruct (q =? x); [|reflexivity]. cbn [andb app].
  rewrite rmatch_Seq, rmatch_Grp.
  unfold Star.
  rewrite (rmatch_greedy false _ (clsMatches false true [ c1 q; c1 10; c1 13; c1 12 ]))
    by apply unit_Cls.
  cbn [pos rest caps].
  rewrite runThen_end by reflexivity.
  destruct (forallb _ s'); [|reflexivity].
  cbn [rmatch rest pos caps].
  replace (S p + length s' - p)%nat with (length (x :: s')) by (cbn [length]; lia).
  replace (S p + length s' - S p)%nat with (length s') by lia.
  now rewrite !firstn_all.
Qed.

Lemma odd_mod2 (n : nat) : Nat.even n = false -> Nat.eqb (n mod 2) 1 = true.
Proof.
  intros H. rewrite <- Nat.negb_odd in H. apply negb_false_iff in H.
  apply Nat.odd_spec in H as [m ->].
  replace (2 * m + 1)%nat with (1 + m * 2)%nat by lia.
  rewrite Nat.Div0.mod_add. reflexivity.
Qed.

(** X25.  removeMismatchedQuoteChar looks at the last occurrence of the
    quote character only: when the character occurs an odd number of times
    and no line feed, carriage return or form feed follows the last one,
    that one becomes a space; otherwise the text is returned as it is. *)
Theorem removeMismatchedQuoteChar_last (str quoteChar pre post : jsstring) :
  str = pre ++ quoteUnit quoteChar :: post ->
  ~ In (quoteUnit quoteChar) post ->
  removeMismatchedQuoteChar str quoteChar =
  if Nat.even (countChar (quoteUnit quoteChar) str) || existsb lineEnd post
  then str
  else pre ++ 32 :: post.
Proof.
  intros Hs Hq.
  destruct (Nat.even (countChar (quoteUnit quoteChar) str)) eqn:Ev.
  { now apply removeMismatchedQuoteChar_even. }
  cbn [orb]. unfold removeMismatchedQuoteChar. cbv zeta.
  fold (quoteUnit quoteChar). set (q := quoteUnit quoteChar) in *.
  rewrite (countMatches_unit (mkRegExp (Chr q) false true) (chrMatches false q)
             (fun _ => [])) by apply unit_Chr.
  assert (E : filter (chrMatches false q) str = filter (Z.eqb q) str).
  { apply filter_ext. intros c. unfold chrMatches. apply orb_false_r. }
  rewrite E. unfold countChar in Ev. rewrite (odd_mod2 _ Ev).
  set (P := clsMatches false true [ c1 q; c1 10; c1 13; c1 12 ]).
  set (re2 := mkRegExp _ false false).
  assert (HP : forall c, P c = negb (q =? c) && negb (lineEnd c)).
  { intros c. unfold P, clsMatches, inRanges, lineEnd, c1.
    cbn [existsb fst snd andb xorb negb].
    assert (R : forall a, (a <=? c) && (c <=? a) = (a =? c)).
    { intros a. apply eq_true_iff_eq.
      rewrite andb_true_iff, !Z.leb_le, Z.eqb_eq. lia. }
    rewrite !R, (Z.eqb_sym 10), (Z.eqb_sym 13), (Z.eqb_sym 12).
    now destruct (q =? c), (c =? 10), (c =? 13), (c =? 12). }
  (* the run after the last quote *)
  assert (Hpost : forallb P post = negb (existsb lineEnd post)).
  { clear -Hq HP. induction post as [|c post IH]; [reflexivity|].
    cbn [forallb existsb]. rewrite IH by (intros H; apply Hq; now right).
    rewrite HP. destruct (q =? c) eqn:Ec.
    - apply Z.eqb_eq in Ec. exfalso. apply Hq. now left.
    - cbn [negb andb]. now rewrite negb_orb. }
  (* no match before the last quote *)
  assert (Hpre : forall pre' p,
             searchFrom re2 p (pre' ++ q :: post) =
             searchFrom re2 (p + length pre') (q :: post)).
  { induction pre' as [|c pre' IHp]; intros p.
    - cbn [app length]. now rewrite Nat.add_0_r.
    - cbn [app searchFrom]. unfold re2 at 1. rewrite matchAt_lastQuote.
      fold P. rewrite forallb_app. cbn [forallb]. rewrite (HP q), Z.eqb_refl.
      cbn [negb andb]. rewrite !andb_false_r.
      rewrite IHp. cbn [length].
      now replace (p + S (length pre'))%nat with (S p + length pre')%nat by lia. }
  (* nor after it *)
  assert (Hafter : forall s p, ~ In q s -> searchFrom re2 p s = None).
  { induction s as [|c s IHs]; intros p Hn; cbn [searchFrom]; unfold re2 at 1;
      rewrite matchAt_lastQuote; [reflexivity|].
    destruct (q =? c) eqn:Ec.
    - apply Z.eqb_eq in Ec. exfalso. apply Hn. now left.
    - cbn [andb]. apply IHs. intros H. apply Hn. now right. }
  unfold replaceFn, scan. change (global re2) with false. cbv iota.
  unfold scanFirst, exec. rewrite Hs, (Hpre pre O). cbn [Nat.add searchFrom].
  unfold re2 at 1. rewrite matchAt_lastQuote. fold P.
  rewrite Z.eqb_refl, Hpost. cbn [andb].
  destruct (existsb lineEnd post); cbn [negb].
  - rewrite (Hafter post _ Hq). apply map_Keep_flat.
  - cbn [index matched].
    rewrite firstn_app, firstn_all, Nat.sub_diag. cbn [firstn].
    rewrite app_nil_r.
    rewrite skipn_app, skipn_all2 by lia.
    replace (length pre + length (q :: post) - length pre)%nat
      with (length (q :: post)) by lia.
    rewrite skipn_all. cbn [map app].
    rewrite flat_map_app. cbn [flat_map].
    rewrite app_nil_r.
    rewrite (map_Keep_flat _ pre).
    reflexivity.
Qed.

End TokenSanitizer.

(* ================================================================== *)
(** * The properties at concrete tokens

    The built-in case mappings are taken to be the ASCII ones, every tag
    name is taken to be in the tag whitelist, and the configuration is that
    of the sources. *)

(** C1 at the token of the test. *)
Lemma sanitized_attribute_keys_witness :
  exists t' : TagToken,
    sanitizeToken asciiLower asciiUpper (fun _ => true) globalConfig
      TokenSanitizerClass httpOnly (Tag (fooBarTag (js "testelement"))) false
      testCache
    = (Ok (inl (Tag t')), testCache) /\
    getAttribute t' (js "foo") = Some (js "bar") /\
    getAttribute t' (js "bar") = None /\
    forall kv : KV, In kv (attribs t') ->
      exists wlist : whitelist,
        fst (getAttrWhiteList globalConfig testCache (js "testelement")) = Ok wlist /\
        (validAndListed wlist (k kv) \/ xmlnsException globalConfig (k kv) \/
         dataException globalConfig (k kv) \/
         internallyGenerated asciiLower (attribs (fooBarTag (js "testelement")))
           (k kv)).
Proof.
  destruct (proj2 (sanitized_attribute_keys asciiLower asciiUpper
                     (fun _ => true) globalConfig)
              eq_refl eq_refl eq_refl TokenSanitizerClass httpOnly
              (js "testelement") false testCache testCache eq_refl)
    as (t' & Hs & Hfoo & Hbar).
  exists t'. repeat split; try assumption.
  destruct (proj1 (sanitized_attribute_keys asciiLower asciiUpper
                     (fun _ => true) globalConfig)
              TokenSanitizerClass httpOnly (fooBarTag (js "testelement")) false
              testCache testCache (Tag t') (or_introl eq_refl) Hs)
    as (t'' & Ht & Hk).
  injection Ht as <-. exact Hk.
Defined.

(** C4 at [</br>]: whatever the tag whitelist, its source range makes the
    call on the class throw. *)
Lemma sanitizeToken_source_range_throws_witness :
  disallowedTag asciiUpper (fun _ => true) brEndTag /\
  tsr (dataAttribs brEndTag) <> None /\
  sanitizeToken asciiLower asciiUpper (fun _ => true) globalConfig
    TokenSanitizerClass httpOnly (Tag brEndTag) false []
  = (Throw TypeError, []).
Proof.
  assert (Hd : disallowedTag asciiUpper (fun _ => true) brEndTag)
    by (split; [reflexivity | right; split; reflexivity]).
  assert (Ht : tsr (dataAttribs brEndTag) <> None) by discriminate.
  split; [exact Hd|]. split; [exact Ht|].
  exact (sanitizeToken_source_range_throws asciiLower asciiUpper (fun _ => true)
           globalConfig httpOnly brEndTag [] Hd Ht).
Defined.

(** C9 at [<constructor foo="bar">] with the cache still empty. *)
Lemma getAttrWhiteList_inherited_member_witness :
  obj_get (attrWhiteList globalConfig) (js "constructor") = None /\
  getAttrWhiteList globalConfig [] (js "constructor")
  = (Ok (WMember (js "constructor")), []) /\
  sanitizeTagAttrs asciiLower globalConfig httpOnly None (Some constructorTag)
    (attribs constructorTag) [] = (Throw TypeError, []) /\
  sanitizeToken asciiLower asciiUpper (fun _ => true) globalConfig
    TokenSanitizerClass httpOnly (Tag constructorTag) false []
  = (Throw TypeError, []).
Proof.
  exact (getAttrWhiteList_inherited_member asciiLower asciiUpper (fun _ => true)
           globalConfig TokenSanitizerClass httpOnly false [] eq_refl eq_refl).
Defined.

(** C5 at [<span title="T">]: the title stays as it is and gets no shadow
    entry. *)
Lemma shadow_only_on_change_witness :
  exists t' : TagToken,
    sanitizeToken asciiLower asciiUpper (fun _ => true) globalConfig
      TokenSanitizerClass httpOnly (Tag titleTag) false []
    = (Ok (inl (Tag t')), [ (js "span", List.concat
                               [ [ js "id"; js "class"; js "lang"; js "dir";
                                   js "title"; js "style" ];
                                 [ js "aria-describedby"; js "aria-flowto";
                                   js "aria-label"; js "aria-labelledby";
                                   js "aria-owns"; js "role" ];
                                 [ js "about"; js "property"; js "resource";
                                   js "datatype"; js "typeof" ];
                                 [ js "itemid"; js "itemprop"; js "itemref";
                                   js "itemscope"; js "itemtype" ] ]) ]) /\
    getAttribute t' (js "title") = Some (js "T") /\
    shadowA t' (js "title") = None /\ shadowSA t' (js "title") = None.
Proof.
  eexists. split; [reflexivity|]. split; [reflexivity|].
  eapply (proj2 (proj2 (proj2 (shadow_only_on_change asciiLower asciiUpper
                                 (fun _ => true) globalConfig)))
            TokenSanitizerClass httpOnly titleTag _ false [] _ _ (js "title")).
  - reflexivity.
  - reflexivity.
  - intros q newV orig origK [H|[]]. injection H as <- <- <- <-.
    intros _. reflexivity.
  - reflexivity.
  - reflexivity.
Defined.

(** C5, as stated: on [<span title="T" bar="baz">], where [bar] has the
    source key [title], the title keeps its value and still there is a
    shadow entry for [title] afterwards, that of the rejected [bar]; and on
    [<span title="T">] with a shadow entry for [title] already, the title
    keeps its value and the entry is still there. *)
Lemma shadow_entry_despite_unchanged_value :
  match fst (sanitizeToken asciiLower asciiUpper (fun _ => true) globalConfig
               TokenSanitizerClass httpOnly (Tag shadowClashTag) false []) with
  | Ok (inl (Tag t')) =>
      lookup (attribs shadowClashTag) (js "title") = Some (js "T") /\
      getAttribute t' (js "title") = Some (js "T") /\
      shadowA shadowClashTag (js "title") = None /\
      shadowSA shadowClashTag (js "title") = None /\
      shadowA t' (js "title") = Some VNull /\
      shadowSA t' (js "title") = Some (VStr (js "baz"))
  | _ => False
  end /\
  match fst (sanitizeToken asciiLower asciiUpper (fun _ => true) globalConfig
               TokenSanitizerClass httpOnly (Tag shadowedTitleTag) false []) with
  | Ok (inl (Tag t')) =>
      lookup (attribs shadowedTitleTag) (js "title") = Some (js "T") /\
      getAttribute t' (js "title") = Some (js "T") /\
      shadowSA t' (js "title") = Some (VStr (js "T"))
  | _ => False
  end.
Proof. vm_compute. repeat split. Qed.

(** The test of the sources (test/sanitizer.js): on [testelement], whose
    whitelist the test sets to five names, [foo] and the Hebrew, Devanagari
    and Han names stay; [bar] is not listed and the name with a combining
    accent is no attribute name, so both go. *)
Lemma sanitizer_test :
  let cache : awlCache :=
    [ (js "testelement",
       [ js "foo"; [ 1506; 1489; 1512; 1497; 1514 ]; [ 2412 ];
         [ 25645; 55392; 57058 ]; [ 110; 769; 103; 104 ] ]) ] in
  let token :=
    mkTag TagTk (js "testelement")
      [ newKV (js "foo") (js "bar");
        newKV (js "bar") (js "foo");
        newKV [ 1506; 1489; 1512; 1497; 1514 ] (js "bar");
        newKV [ 2412 ] (js "bar");
        newKV [ 25645; 55392; 57058 ] (js "bar");
        newKV [ 110; 769; 103; 104 ] (js "bar") ]
      noDataAttribs in
  match fst (sanitizeToken asciiLower asciiUpper (fun _ => true) globalConfig
               TokenSanitizerClass httpOnly (Tag token) false cache) with
  | Ok (inl (Tag t')) =>
      getAttribute t' (js "foo") = Some (js "bar") /\
      getAttribute t' (js "bar") = None /\
      getAttribute t' [ 1506; 1489; 1512; 1497; 1514 ] = Some (js "bar") /\
      getAttribute t' [ 2412 ] = Some (js "bar") /\
      getAttribute t' [ 25645; 55392; 57058 ] = Some (js "bar") /\
      getAttribute t' [ 110; 769; 103; 104 ] = None
  | _ => False
  end.
Proof. vm_compute. repeat split. Qed.

(** The end-to-end example: of [<img onclick="evil()"
    src="http://ok.test/x.png">] only the [src] stays, with its value. *)
Lemma sanitize_img :
  let token :=
    mkTag SelfclosingTagTk (js "img")
      [ newKV (js "onclick") (js "evil()");
        newKV (js "src") (js "http://ok.test/x.png") ]
      noDataAttribs in
  match fst (sanitizeToken asciiLower asciiUpper (fun _ => true) globalConfig
               TokenSanitizerClass httpOnly (Tag token) false []) with
  | Ok (inl (Tag t')) =>
      attribs t' = [ newKV (js "src") (js "http://ok.test/x.png") ]
  | _ => False
  end.
Proof. vm_compute. reflexivity. Qed.

(** X2 at [<a STYLE=... Id="a b" href=... Title="x">]: the title comes out
    under the key [title] with its value. *)
Lemma sanitized_attributes_from_input_witness :
  exists cache' : awlCache,
    sanitizeToken asciiLower asciiUpper (fun _ => true) globalConfig
      TokenSanitizerClass httpOnly (Tag linkTag) false []
    = (Ok (inl (Tag linkTagSanitized)), cache') /\
    In (newKV (js "title") (js "x")) (attribs linkTagSanitized) /\
    exists attr : KV,
      In attr (attribs linkTag) /\ js "title" = asciiLower (k attr) /\
      (plainKey (js "title") = true -> js "x" = v attr).
Proof.
  eexists. split; [vm_compute; reflexivity|].
  assert (Hin : In (newKV (js "title") (js "x")) (attribs linkTagSanitized))
    by (simpl; tauto).
  split; [exact Hin|].
  refine (sanitized_attributes_from_input asciiLower asciiUpper (fun _ => true)
            globalConfig TokenSanitizerClass httpOnly linkTag linkTagSanitized false [] _ _
            (newKV (js "title") (js "x")) Hin).
  vm_compute. reflexivity.
Defined.

(** X3 at the same tag: the style comes out as the placeholder. *)
Lemma sanitized_style_checked_witness :
  exists cache' : awlCache,
    sanitizeToken asciiLower asciiUpper (fun _ => true) globalConfig
      TokenSanitizerClass httpOnly (Tag linkTag) false []
    = (Ok (inl (Tag linkTagSanitized)), cache') /\
    In (newKV (js "style") (js "/* insecure input */")) (attribs linkTagSanitized) /\
    exists attr : KV,
      In attr (attribs linkTag) /\ asciiLower (k attr) = js "style" /\
      checkCss (v attr) = Ok (js "/* insecure input */") /\
      (js "/* insecure input */" = js "/* invalid control char */" \/
       js "/* insecure input */" = js "/* insecure input */" \/
       (normalizeCss (v attr) = Ok (js "/* insecure input */") /\
        ~ cssRejected (js "/* insecure input */"))).
Proof.
  eexists. split; [vm_compute; reflexivity|].
  assert (Hin : In (newKV (js "style") (js "/* insecure input */")) (attribs linkTagSanitized))
    by (simpl; tauto).
  split; [exact Hin|].
  refine (sanitized_style_checked asciiLower asciiUpper (fun _ => true)
            globalConfig TokenSanitizerClass httpOnly linkTag linkTagSanitized false [] _ _
            (newKV (js "style") (js "/* insecure input */")) Hin eq_refl).
  vm_compute. reflexivity.
Defined.

(** X4 at the same tag: the id comes out as [a_b]. *)
Lemma sanitized_id_escaped_witness :
  exists cache' : awlCache,
    sanitizeToken asciiLower asciiUpper (fun _ => true) globalConfig
      TokenSanitizerClass httpOnly (Tag linkTag) false []
    = (Ok (inl (Tag linkTagSanitized)), cache') /\
    In (newKV (js "id") (js "a_b")) (attribs linkTagSanitized) /\
    exists attr : KV,
      In attr (attribs linkTag) /\ asciiLower (k attr) = js "id" /\
      js "a_b" = spacesToUnderscores (v attr) /\ ~ In 32 (js "a_b").
Proof.
  eexists. split; [vm_compute; reflexivity|].
  assert (Hin : In (newKV (js "id") (js "a_b")) (attribs linkTagSanitized))
    by (simpl; tauto).
  split; [exact Hin|].
  refine (sanitized_id_escaped asciiLower asciiUpper (fun _ => true)
            globalConfig TokenSanitizerClass httpOnly linkTag linkTagSanitized false [] _ _
            (newKV (js "id") (js "a_b")) Hin eq_refl).
  vm_compute. reflexivity.
Defined.

(** X5 at the same tag: the href comes out cleaned in external mode. *)
Lemma sanitized_url_cleaned_witness :
  exists cache' : awlCache,
    sanitizeToken asciiLower asciiUpper (fun _ => true) globalConfig
      TokenSanitizerClass httpOnly (Tag linkTag) false []
    = (Ok (inl (Tag linkTagSanitized)), cache') /\
    In (newKV (js "href") (js "http://example.com/a+b")) (attribs linkTagSanitized) /\
    exists attr : KV,
      In attr (attribs linkTag) /\ asciiLower (k attr) = js "href" /\
      cleanUrl httpOnly (v attr) (urlMode linkTag (js "href"))
      = Ok (Some (js "http://example.com/a+b")) /\
      forall href' proto : jsstring,
        escapedHref (urlMode linkTag (js "href")) (v attr) = Ok href' ->
        parsedProtocol href' = Some proto -> proto <> [] ->
        hasValidProtocol httpOnly proto = true.
Proof.
  eexists. split; [vm_compute; reflexivity|].
  assert (Hin : In (newKV (js "href") (js "http://example.com/a+b")) (attribs linkTagSanitized))
    by (simpl; tauto).
  split; [exact Hin|].
  refine (sanitized_url_cleaned asciiLower asciiUpper (fun _ => true)
            globalConfig TokenSanitizerClass httpOnly linkTag linkTagSanitized false [] _ _
            (newKV (js "href") (js "http://example.com/a+b")) Hin eq_refl).
  vm_compute. reflexivity.
Defined.

(** X6 at the same tag. *)
Lemma sanitized_keys_distinct_witness :
  exists cache' : awlCache,
    sanitizeToken asciiLower asciiUpper (fun _ => true) globalConfig
      TokenSanitizerClass httpOnly (Tag linkTag) false []
    = (Ok (inl (Tag linkTagSanitized)), cache') /\
    NoDup (map k (attribs linkTagSanitized)).
Proof.
  eexists. split; [vm_compute; reflexivity|].
  refine (sanitized_keys_distinct asciiLower asciiUpper (fun _ => true)
            globalConfig TokenSanitizerClass httpOnly linkTag linkTagSanitized
            false [] _ _).
  vm_compute. reflexivity.
Defined.

(** X7 at the same tag. *)
Lemma sanitized_tag_frame_witness :
  exists cache' : awlCache,
    sanitizeToken asciiLower asciiUpper (fun _ => true) globalConfig
      TokenSanitizerClass httpOnly (Tag linkTag) false []
    = (Ok (inl (Tag linkTagSanitized)), cache') /\
    exists t' : TagToken,
      Tag linkTagSanitized = Tag t' /\
      constructorName t' = constructorName linkTag /\ name t' = name linkTag /\
      tsr (dataAttribs t') = tsr (dataAttribs linkTag) /\
      stx (dataAttribs t') = stx (dataAttribs linkTag) /\
      (constructorName linkTag = EndTagTk -> attribs t' = []).
Proof.
  eexists. split; [vm_compute; reflexivity|].
  refine (sanitized_tag_frame asciiLower asciiUpper (fun _ => true)
            globalConfig TokenSanitizerClass httpOnly linkTag
            (Tag linkTagSanitized) false [] _ _).
  vm_compute. reflexivity.
Defined.

(** X8 at [img] in the configuration of the sources. *)
Lemma attrWhiteList_no_event_handler_witness :
  exists l : list jsstring,
    obj_lookup (attrWhiteList globalConfig) (js "img") = Own l /\
    (forall key : jsstring, In key l -> startsWith (js "on") key = false) /\
    (In (js "href") l -> js "img" = js "a" \/ js "img" = js "link") /\
    (In (js "src") l ->
     js "img" = js "img" \/ js "img" = js "source" \/ js "img" = js "track") /\
    (In (js "poster") l -> js "img" = js "video").
Proof.
  eexists. split; [vm_compute; reflexivity|].
  refine (attrWhiteList_no_event_handler asciiLower asciiUpper (fun _ => true)
            globalConfig (js "img") _ _).
  vm_compute. reflexivity.
Defined.

(** X10 at [<img onclick="evil()" src="http://ok.test/x.png">] with the
    cache still empty. *)
Lemma sanitized_no_event_handler_witness :
  cacheFromTable globalConfig [] /\
  exists cache' : awlCache,
    sanitizeToken asciiLower asciiUpper (fun _ => true) globalConfig
      TokenSanitizerClass httpOnly (Tag imgTag) false []
    = (Ok (inl (Tag imgTagSanitized)), cache') /\
    (forall kv : KV,
       In kv (attribs imgTagSanitized) ->
       startsWith (js "on") (k kv) = false) /\
    cacheFromTable globalConfig cache'.
Proof.
  assert (Hc : cacheFromTable globalConfig []) by (intros tag s H; discriminate).
  split; [exact Hc|].
  eexists. split; [vm_compute; reflexivity|].
  refine (sanitized_no_event_handler asciiLower asciiUpper (fun _ => true)
            globalConfig TokenSanitizerClass httpOnly imgTag imgTagSanitized
            false [] _ Hc _).
  vm_compute. reflexivity.
Defined.

(** X11 at ['a b!']. *)
Lemma phpURLEncode_charset_witness :
  codeUnits (js "a b!") /\
  phpURLEncode (js "a b!") = Ok (js "a+b%21") /\
  Forall (fun c => urlencodedChar c = true) (js "a+b%21") /\
  (~ In 32 (js "a b!") -> ~ In 43 (js "a+b%21")).
Proof.
  assert (Hu : codeUnits (js "a b!")) by (apply Forall_forall; intros c Hc; simpl in Hc;
        repeat (destruct Hc as [<-|Hc]; [lia|]); destruct Hc).
  split; [exact Hu|]. split; [reflexivity|].
  exact (phpURLEncode_charset (js "a b!") (js "a+b%21") Hu eq_refl).
Defined.

(** X12 at [' a:b']. *)
Lemma escapeIdInternal_legacy_charset_witness :
  codeUnits (js " a:b") /\
  escapeIdInternal (js " a:b") (js "legacy") = Ok (js "_a:b") /\
  Forall (fun c => legacyIdChar c = true) (js "_a:b").
Proof.
  assert (Hu : codeUnits (js " a:b")) by (apply Forall_forall; intros c Hc; simpl in Hc;
        repeat (destruct Hc as [<-|Hc]; [lia|]); destruct Hc).
  split; [exact Hu|]. split; [reflexivity|].
  exact (escapeIdInternal_legacy_charset (js " a:b") (js "_a:b") Hu eq_refl).
Defined.

(** X16 at [<span style="\110000">]: the RangeError of the CSS escape. *)
Lemma sanitizeToken_throws_witness :
  exists cache' : awlCache,
    sanitizeToken asciiLower asciiUpper (fun _ => true) globalConfig
      TokenSanitizerClass httpOnly (Tag badEscapeTag) false []
    = (Throw RangeError, cache') /\
    (RangeError = TypeError \/ RangeError = RangeError).
Proof.
  eexists. split; [vm_compute; reflexivity|].
  refine (sanitizeToken_throws asciiLower asciiUpper (fun _ => true)
            globalConfig TokenSanitizerClass httpOnly (Tag badEscapeTag) false
            [] _ RangeError _).
  vm_compute. reflexivity.
Defined.

(** X17 at [<span title="T">] and the name [lang]. *)
Lemma attribute_accessors_witness :
  canonicalKeys asciiLower (attribs titleTag) /\
  (getAttribute (setAttribute asciiLower (js "lang") (js "en") titleTag) (js "lang")
   = Some (js "en") /\
   (forall key : jsstring,
      key <> js "lang" ->
      getAttribute (setAttribute asciiLower (js "lang") (js "en") titleTag) key
      = getAttribute titleTag key) /\
   canonicalKeys asciiLower
     (attribs (setAttribute asciiLower (js "lang") (js "en") titleTag))) /\
  (getAttribute (removeAttribute asciiLower (js "lang") titleTag) (js "lang") = None /\
   (forall key : jsstring,
      key <> js "lang" ->
      getAttribute (removeAttribute asciiLower (js "lang") titleTag) key
      = getAttribute titleTag key) /\
   canonicalKeys asciiLower
     (attribs (removeAttribute asciiLower (js "lang") titleTag))).
Proof.
  assert (Hc : canonicalKeys asciiLower (attribs titleTag)).
  { split.
    - repeat constructor.
    - simpl. constructor; [intros [] | constructor]. }
  split; [exact Hc|].
  exact (attribute_accessors asciiLower titleTag (js "lang") (js "en") Hc
           eq_refl eq_refl).
Defined.



Lemma normalizeCss_plain_witness :
  normalizeCss plainStyle = Ok plainStyle /\
  (~ cssRejected plainStyle -> checkCss plainStyle = Ok plainStyle).
Proof.
  apply normalizeCss_plain.
  - apply Forall_forall. intros c Hc. simpl in Hc.
    repeat (destruct Hc as [<-|Hc]; [reflexivity|]). destruct Hc.
  - vm_compute. reflexivity.
  - vm_compute. reflexivity.
  - vm_compute. reflexivity.
Defined.


Lemma normalizeCss_no_comment_start_witness :
  normalizeCss commentedStyle = Ok commentedStyleNormalized /\
  ~ occursIn (js "/*") commentedStyleNormalized.
Proof.
  split; [vm_compute; reflexivity|].
  apply (normalizeCss_no_comment_start commentedStyle).
  vm_compute. reflexivity.
Defined.


(** X24 at [rdfaTag]: the script is gone from the types. *)
Lemma sanitized_rdfa_checked_witness :
  exists cache' : awlCache,
    sanitizeToken asciiLower asciiUpper (fun _ => true) globalConfig
      TokenSanitizerClass httpOnly (Tag rdfaTag) false []
    = (Ok (inl (Tag rdfaTagSanitized)), cache') /\
    exists attr : KV,
      In attr (attribs rdfaTag) /\ asciiLower (k attr) = js "typeof" /\
      ((js "mw:Foo" = v attr /\ test EVIL_URI_RE (js "mw:Foo") = false) \/
       (test EVIL_URI_RE (v attr) = true /\
        js "mw:Foo" = trim (replace reNonParsoidTypes []
                              (orString (vsrc attr) (v attr))))).
Proof.
  eexists. split; [vm_compute; reflexivity|].
  refine (sanitized_rdfa_checked asciiLower asciiUpper (fun _ => true)
            globalConfig TokenSanitizerClass httpOnly rdfaTag rdfaTagSanitized
            false [] _ _ (newKV (js "typeof") (js "mw:Foo")) _ eq_refl).
  - vm_compute. reflexivity.
  - simpl. now left.
Defined.


(** X25 at [content: "a" 'b]: the lone apostrophe becomes a space. *)
Lemma removeMismatchedQuoteChar_last_witness :
  removeMismatchedQuoteChar openQuoteStyle (js "'") =
  js "content: " ++ [34] ++ js "a" ++ [34] ++ js "  b".
Proof.
  apply (removeMismatchedQuoteChar_last openQuoteStyle (js "'")
           (js "content: " ++ [34] ++ js "a" ++ [34] ++ js " ") (js "b")).
  - reflexivity.
  - simpl. intros [H|[]]. discriminate H.
Defined.

